(** * WAHA client generator: the OpenAPI document to IR transformation

    A shallow embedding of [generator/generate.py]: the naming helpers
    ([snake_case], [pascal_case], [sanitize_name]), the type resolver
    ([_get_type_hint]) and the three parsers ([_parse_schemas],
    [_parse_endpoints], [_parse_entities]), followed by the properties the
    specification states about them.

    Modelling conventions.
    - A decoded JSON document is a value of [json]; a Python [dict] keeps its
      insertion order, so an object is an association list (keys of a decoded
      dict are pairwise distinct; lookups take the first binding).
    - The document is dynamically typed: every Python operation that can
      raise on a value of the wrong shape returns a [result], and the
      exception that Python raises is named.
    - A Python [str] is a Rocq [string]; the character classes of the regular
      expressions and of [str.lower], [str.strip] and [str.capitalize] are
      those of the code points below 128.  Above 127 Python consults the
      Unicode database, which is outside the generator; those code points are
      treated here as non-word, non-space and caseless.
    - A type hint is the string that the generator builds. *)

From Stdlib Require Import String Ascii List Bool Arith ZArith Lia Floats.
Import ListNotations.
Open Scope list_scope.
Open Scope string_scope.

(** ** Decoded JSON values *)

#[warnings="-register-all"]
Inductive json : Type :=
| JNull : json
| JBool : bool -> json
| JInt : Z -> json
| JFloat : float -> json
| JStr : string -> json
| JArr : list json -> json
| JObj : list (string * json) -> json.

(** Nesting depth: the number of containers around the innermost value,
    which bounds the recursion of the type resolver. *)
Fixpoint depth (j : json) : nat :=
  match j with
  | JArr xs =>
      (fix go (l : list json) : nat :=
         match l with
         | [] => 0
         | x :: r => Nat.max (S (depth x)) (go r)
         end) xs
  | JObj kvs =>
      (fix go (l : list (string * json)) : nat :=
         match l with
         | [] => 0
         | (_, v) :: r => Nat.max (S (depth v)) (go r)
         end) kvs
  | _ => 0
  end.

(** ** Exceptions and the error monad *)

(** The exceptions that the generator can meet on a document of the wrong
    shape.  [OutOfFuel] is not one of Python's: it ends the bounded
    recursion [type_hint_fuel], and [_get_type_hint] never returns it
    ([_get_type_hint_no_fuel_error]). *)
Inductive pyerr : Type :=
| KeyError
| TypeError
| AttributeError
| IndexError
| OutOfFuel.

Inductive result (A : Type) : Type :=
| Ok : A -> result A
| Raise : pyerr -> result A.

Arguments Ok {A} _.
Arguments Raise {A} _.

Definition bind {A B : Type} (m : result A) (f : A -> result B) : result B :=
  match m with
  | Ok a => f a
  | Raise e => Raise e
  end.

Declare Scope result_scope.
Delimit Scope result_scope with result.
Notation "x <- m ;; k" := (bind m (fun x => k))
  (at level 61, m at next level, right associativity) : result_scope.
Notation "' pat <- m ;; k" := (bind m (fun x => match x with pat => k end))
  (at level 61, pat pattern, m at next level, right associativity) : result_scope.
Open Scope result_scope.

(** A comprehension or a [for] loop that appends: stops at the first
    exception. *)
Fixpoint mapM {A B : Type} (f : A -> result B) (l : list A) : result (list B) :=
  match l with
  | [] => Ok []
  | x :: r =>
      y <- f x ;;
      ys <- mapM f r ;;
      Ok (y :: ys)
  end.

(** ** Characters and strings (code points below 128) *)

Definition code (c : ascii) : nat := nat_of_ascii c.

Definition in_range (lo hi : nat) (c : ascii) : bool :=
  ((lo <=? code c) && (code c <=? hi))%nat.

(** [[A-Z]], [[a-z]] and [[0-9]] of the regular expressions. *)
Definition is_upper (c : ascii) : bool := in_range 65 90 c.
Definition is_lower (c : ascii) : bool := in_range 97 122 c.
Definition is_digit (c : ascii) : bool := in_range 48 57 c.

(** [\w]: letters, digits and the underscore. *)
Definition is_word (c : ascii) : bool :=
  is_upper c || is_lower c || is_digit c || (code c =? 95)%nat.

(** [\s] and the characters removed by [str.strip()]: TAB, LF, VT, FF, CR,
    the separators FS, GS, RS, US and the space. *)
Definition is_space (c : ascii) : bool :=
  in_range 9 13 c || in_range 28 32 c.

(** [.] matches every character but the line feed. *)
Definition is_dot (c : ascii) : bool := negb (code c =? 10)%nat.

Definition lower_char (c : ascii) : ascii :=
  if is_upper c then ascii_of_nat (code c + 32) else c.

Definition upper_char (c : ascii) : ascii :=
  if is_lower c then ascii_of_nat (code c - 32) else c.

Fixpoint map_string (f : ascii -> ascii) (s : string) : string :=
  match s with
  | EmptyString => EmptyString
  | String c r => String (f c) (map_string f r)
  end.

(** [str.lower] and [str.upper]. *)
Definition lower (s : string) : string := map_string lower_char s.
Definition upper (s : string) : string := map_string upper_char s.

(** [str.capitalize]: first character upper-cased, the rest lower-cased. *)
Definition capitalize (s : string) : string :=
  match s with
  | EmptyString => EmptyString
  | String c r => String (upper_char c) (lower r)
  end.

Fixpoint lstrip (p : ascii -> bool) (s : string) : string :=
  match s with
  | EmptyString => EmptyString
  | String c r => if p c then lstrip p r else s
  end.

Fixpoint rstrip (p : ascii -> bool) (s : string) : string :=
  match s with
  | EmptyString => EmptyString
  | String c r =>
      match rstrip p r with
      | EmptyString => if p c then EmptyString else String c EmptyString
      | r' => String c r'
      end
  end.

(** [s.strip(chars)] for the set of characters recognised by [p]. *)
Definition strip (p : ascii -> bool) (s : string) : string :=
  rstrip p (lstrip p s).

Fixpoint filter_string (p : ascii -> bool) (s : string) : string :=
  match s with
  | EmptyString => EmptyString
  | String c r => if p c then String c (filter_string p r) else filter_string p r
  end.

(** [old in s] for two strings. *)
Fixpoint is_substring (needle s : string) : bool :=
  prefix needle s ||
  match s with
  | EmptyString => false
  | String _ r => is_substring needle r
  end.

(** [s.split(sep)] for a one-character separator: never empty. *)
Fixpoint split_on (sep : ascii) (s : string) : list string :=
  match s with
  | EmptyString => [EmptyString]
  | String c r =>
      if Ascii.eqb c sep then EmptyString :: split_on sep r
      else match split_on sep r with
           | [] => [String c EmptyString]
           | w :: ws => String c w :: ws
           end
  end.

(** [sep.join(words)]. *)
Fixpoint join (sep : string) (words : list string) : string :=
  match words with
  | [] => EmptyString
  | [w] => w
  | w :: ws => w ++ sep ++ join sep ws
  end.

(** ** Naming utility *)

(** [re.sub("(.)([A-Z][a-z]+)", r"\1_\2", s)].  The scan is left to right
    and matches do not overlap: a match takes one character, one capital and
    the longest run of lower-case letters after it.  [run] tells that the
    scan is inside the lower-case run of the match just replaced, whose
    characters cannot start a match of their own. *)
Fixpoint sub_acronym (run : bool) (s : string) : string :=
  match s with
  | EmptyString => EmptyString
  | String c t =>
      if run && is_lower c then String c (sub_acronym true t)
      else
        match t with
        | String u (String l _ as t2) =>
            if is_dot c && is_upper u && is_lower l
            then String c (String "_" (String u (sub_acronym true t2)))
            else String c (sub_acronym false t)
        | _ => String c (sub_acronym false t)
        end
  end.

(** [re.sub("([a-z0-9])([A-Z])", r"\1_\2", s)]: both characters of a match
    are consumed. *)
Fixpoint sub_camel (s : string) : string :=
  match s with
  | EmptyString => EmptyString
  | String c t =>
      match t with
      | String u t2 =>
          if (is_lower c || is_digit c) && is_upper u
          then String c (String "_" (String u (sub_camel t2)))
          else String c (sub_camel t)
      | EmptyString => String c EmptyString
      end
  end.

(** [re.sub(r"[^\w]+", "_", s)]: each maximal run of non-word characters
    becomes one underscore.  [run] tells that the previous character was
    part of such a run. *)
Fixpoint sub_nonword (run : bool) (s : string) : string :=
  match s with
  | EmptyString => EmptyString
  | String c t =>
      if is_word c then String c (sub_nonword false t)
      else if run then sub_nonword true t
      else String "_" (sub_nonword true t)
  end.

Definition is_underscore (c : ascii) : bool := (code c =? 95)%nat.

Definition snake_case (s : string) : string :=
  let s1 := sub_acronym false s in
  let s2 := sub_camel s1 in
  strip is_underscore (lower (sub_nonword false s2)).

(** [re.split(r"[_\-\s]+", s)]: the chunks between maximal runs of
    separators, empty chunks at both ends included.  [cur] is the chunk
    being read, [insep] tells that the previous character was a separator. *)
Definition is_sep (c : ascii) : bool :=
  (code c =? 95)%nat || (code c =? 45)%nat || is_space c.

Fixpoint re_split_sep (cur : string) (insep : bool) (s : string) : list string :=
  match s with
  | EmptyString => [cur]
  | String c t =>
      if is_sep c then
        if insep then re_split_sep cur true t
        else cur :: re_split_sep EmptyString true t
      else re_split_sep (cur ++ String c EmptyString) false t
  end.

Definition pascal_case (s : string) : string :=
  String.concat "" (map capitalize (re_split_sep "" false s)).

Fixpoint replace_char (a b : ascii) (s : string) : string :=
  match s with
  | EmptyString => EmptyString
  | String c r => String (if Ascii.eqb c a then b else c) (replace_char a b r)
  end.

Definition kebab_case (s : string) : string :=
  replace_char "_" "-" (snake_case s).

(** [re.sub(r"[^\w\s-]", "", name)] keeps word characters, white space and
    the hyphen. *)
Definition is_kept (c : ascii) : bool :=
  is_word c || is_space c || (code c =? 45)%nat.

Definition sanitize_name (name : string) : string :=
  let name := filter_string is_kept name in
  let name := strip is_space name in
  let name := if String.eqb name "" then "default" else name in
  snake_case name.

(** ** Python operations on decoded JSON values *)

Fixpoint lookup (k : string) (kvs : list (string * json)) : option json :=
  match kvs with
  | [] => None
  | (k', v) :: r => if String.eqb k' k then Some v else lookup k r
  end.

Definition has_key (k : string) (kvs : list (string * json)) : bool :=
  match lookup k kvs with
  | Some _ => true
  | None => false
  end.

(** [j == s] for a string [s]: only the same string is equal to it. *)
Definition eq_str (j : json) (s : string) : bool :=
  match j with
  | JStr s' => String.eqb s' s
  | _ => false
  end.

Fixpoint chars (s : string) : list json :=
  match s with
  | EmptyString => []
  | String c r => JStr (String c EmptyString) :: chars r
  end.

(** [k in j]: key membership for a dict, element membership for a list,
    substring test for a string; the other values are not iterable. *)
Definition py_in (k : string) (j : json) : result bool :=
  match j with
  | JObj kvs => Ok (has_key k kvs)
  | JArr xs => Ok (existsb (fun x => eq_str x k) xs)
  | JStr s => Ok (is_substring k s)
  | _ => Raise TypeError
  end.

(** [j[k]] for a string [k]. *)
Definition py_getitem (j : json) (k : string) : result json :=
  match j with
  | JObj kvs =>
      match lookup k kvs with
      | Some v => Ok v
      | None => Raise KeyError
      end
  | _ => Raise TypeError
  end.

(** [j.get(k, default)]: only a dict has the method. *)
Definition py_get (j : json) (k : string) (default : json) : result json :=
  match j with
  | JObj kvs =>
      match lookup k kvs with
      | Some v => Ok v
      | None => Ok default
      end
  | _ => Raise AttributeError
  end.

(** [j.items()]. *)
Definition py_items (j : json) : result (list (string * json)) :=
  match j with
  | JObj kvs => Ok kvs
  | _ => Raise AttributeError
  end.

(** [for x in j]: the elements of a list, the keys of a dict, the characters
    of a string. *)
Definition py_iter (j : json) : result (list json) :=
  match j with
  | JArr xs => Ok xs
  | JObj kvs => Ok (map (fun kv => JStr (fst kv)) kvs)
  | JStr s => Ok (chars s)
  | _ => Raise TypeError
  end.

(** [j[0]]. *)
Definition py_first (j : json) : result json :=
  match j with
  | JArr (x :: _) => Ok x
  | JArr [] => Raise IndexError
  | JStr (String c _) => Ok (JStr (String c EmptyString))
  | JStr EmptyString => Raise IndexError
  | JObj _ => Raise KeyError
  | _ => Raise TypeError
  end.

(** Truth value of a decoded JSON value. *)
Definition truthy (j : json) : bool :=
  match j with
  | JNull => false
  | JBool b => b
  | JInt z => negb (Z.eqb z 0)
  | JFloat f => negb (PrimFloat.eqb f PrimFloat.zero)
  | JStr s => negb (String.eqb s "")
  | JArr xs => match xs with [] => false | _ => true end
  | JObj kvs => match kvs with [] => false | _ => true end
  end.

(** A value used where the library needs a [str] ([re.sub], [str.split]). *)
Definition as_str (e : pyerr) (j : json) : result string :=
  match j with
  | JStr s => Ok s
  | _ => Raise e
  end.

(** Sets of decoded values: the elements in order of insertion.  A list or a
    dict cannot be an element. *)
Definition hashable (j : json) : bool :=
  match j with
  | JArr _ | JObj _ => false
  | _ => true
  end.

(** [s.update(j)]; [set(j)] is the update of the empty set. *)
Definition set_update (s : list json) (j : json) : result (list json) :=
  xs <- py_iter j ;;
  if forallb hashable xs then Ok (s ++ xs)%list else Raise TypeError.

Definition py_set (j : json) : result (list json) := set_update [] j.

(** [name in s] for a string [name] and a set [s]. *)
Definition in_set (name : string) (s : list json) : bool :=
  existsb (fun x => eq_str x name) s.

(** ** Type resolver *)

(** The tail of [_get_type_hint]: the optional marker. *)
Definition mark (required : bool) (type_str : string) : string :=
  if required then type_str else type_str ++ " | None".

(** The body of [_get_type_hint], with [self._get_type_hint] as [rec].  The
    argument [required] is the truth value of the Python argument, which is
    all the function reads of it. *)
Definition type_hint_body (rec : json -> bool -> result string)
    (schema : json) (required : bool) : result string :=
  has_ref <- py_in "$ref" schema ;;
  if has_ref then
    r <- py_getitem schema "$ref" ;;
    r <- as_str AttributeError r ;;
    Ok (mark required (last (split_on "/" r) ""))
  else
  has_allof <- py_in "allOf" schema ;;
  if has_allof then
    members <- py_getitem schema "allOf" ;;
    members <- py_iter members ;;
    match members with
    | item :: _ => rec item required
    | [] => Ok (mark required "Any")
    end
  else
  has_oneof <- py_in "oneOf" schema ;;
  has_union <- (if has_oneof then Ok true else py_in "anyOf" schema) ;;
  if has_union then
    one <- py_get schema "oneOf" JNull ;;
    items <- (if truthy one then Ok one else py_get schema "anyOf" (JArr [])) ;;
    items <- py_iter items ;;
    types <- mapM (fun item => rec item true) items ;;
    Ok (mark required (join " | " types))
  else
  has_type <- py_in "type" schema ;;
  if negb has_type then Ok (mark required "Any")
  else
  ty <- py_getitem schema "type" ;;
  if eq_str ty "string" then
    has_enum <- py_in "enum" schema ;;
    if has_enum then Ok (mark required "str")
    else
    fmt <- py_get schema "format" JNull ;;
    if eq_str fmt "date-time" then Ok (mark required "datetime")
    else if eq_str fmt "date" then Ok (mark required "date")
    else if eq_str fmt "binary" then Ok (mark required "bytes")
    else Ok (mark required "str")
  else if eq_str ty "integer" then Ok (mark required "int")
  else if eq_str ty "number" then Ok (mark required "float")
  else if eq_str ty "boolean" then Ok (mark required "bool")
  else if eq_str ty "array" then
    items <- py_get schema "items" (JObj []) ;;
    item_type <- rec items true ;;
    Ok (mark required ("list[" ++ item_type ++ "]"))
  else if eq_str ty "object" then
    has_ap <- py_in "additionalProperties" schema ;;
    if has_ap then
      ap <- py_getitem schema "additionalProperties" ;;
      value_type <- rec ap true ;;
      Ok (mark required ("dict[str, " ++ value_type ++ "]"))
    else Ok (mark required "dict[str, Any]")
  else Ok (mark required "Any").

(** The recursion, [fuel] calls deep. *)
Fixpoint type_hint_fuel (fuel : nat) (schema : json) (required : bool)
  : result string :=
  match fuel with
  | O => Raise OutOfFuel
  | S n => type_hint_body (type_hint_fuel n) schema required
  end.

(** [WAHAGenerator._get_type_hint].  Every recursive call is on a value
    nested in [schema] (or on the empty default), so [S (depth schema)]
    calls are enough and the function is total: see [_get_type_hint_eq] and
    [_get_type_hint_no_fuel_error]. *)
Definition _get_type_hint (schema : json) (required : bool) : result string :=
  type_hint_fuel (S (depth schema)) schema required.

(** ** The intermediate representation *)

(** The fields that the generator copies from the document without looking
    at them ([default], [description], [enum_values], a declared [required]
    flag, a [class_name] override) hold decoded JSON values; Python's [None],
    [True] and [False] are [JNull], [JBool true] and [JBool false]. *)
Record PropertyInfo : Type := mkProperty {
  prop_name : string;
  prop_python_name : string;
  prop_type_hint : string;
  prop_required : json;
  prop_default : json;
  prop_description : json;
  prop_enum_values : json;
  prop_is_body : bool
}.

Record EndpointInfo : Type := mkEndpoint {
  ep_name : string;
  ep_python_name : string;
  ep_method : string;
  ep_path : string;
  ep_summary : json;
  ep_description : json;
  ep_tag : string;
  ep_parameters : list PropertyInfo;
  ep_body : option PropertyInfo;
  ep_response_type : string
}.

Record ModelInfo : Type := mkModel {
  model_name : string;
  model_python_name : string;
  model_properties : list PropertyInfo;
  model_description : json
}.

Record EnumInfo : Type := mkEnum {
  enum_name : string;
  enum_python_name : string;
  enum_values : list (string * json);
  enum_description : json
}.

Record EntityInfo : Type := mkEntity {
  entity_name : json;
  entity_schema_name : string;
  entity_properties : list PropertyInfo;
  entity_description : json
}.

(** ** Property parsing *)

Definition reserved_words : list string :=
  ["from"; "import"; "class"; "def"; "return"; "type"].

Definition is_reserved (s : string) : bool :=
  existsb (String.eqb s) reserved_words.

(** The identifier that [_parse_property] derives from a property name. *)
Definition property_python_name (name : string) : string :=
  let python_name := snake_case name in
  if is_reserved python_name then python_name ++ "_" else python_name.

(** [WAHAGenerator._parse_property]. *)
Definition _parse_property (name : string) (schema : json) (required : bool)
  : result PropertyInfo :=
  let python_name := property_python_name name in
  type_hint <- _get_type_hint schema required ;;
  default <- py_get schema "default" JNull ;;
  description <- py_get schema "description" (JStr "") ;;
  enum <- py_get schema "enum" JNull ;;
  Ok (mkProperty name python_name type_hint (JBool required) default
        description enum false).

(** The properties of one [properties] dict, each required when its name is
    in [required_fields]. *)
Definition parse_properties (required_fields : list json)
    (properties : list (string * json)) : result (list PropertyInfo) :=
  mapM (fun kv => _parse_property (fst kv) (snd kv)
                    (in_set (fst kv) required_fields)) properties.

(** ** Schema parser *)

(** One turn of the loop over [schema["allOf"]]: the state is the property
    list and the required set built so far. *)
Definition merge_member (st : list PropertyInfo * list json) (item : json)
  : result (list PropertyInfo * list json) :=
  let '(props, required_fields) := st in
  has_props <- py_in "properties" item ;;
  new <- (if has_props then
            properties <- py_getitem item "properties" ;;
            properties <- py_items properties ;;
            parse_properties required_fields properties
          else Ok []) ;;
  req <- py_get item "required" (JArr []) ;;
  required_fields <- set_update required_fields req ;;
  Ok ((props ++ new)%list, required_fields).

Fixpoint foldM {A S : Type} (f : S -> A -> result S) (st : S) (l : list A)
  : result S :=
  match l with
  | [] => Ok st
  | x :: r => st' <- f st x ;; foldM f st' r
  end.

(** The model branch of [_parse_schemas]: the property list of a schema. *)
Definition model_properties_of (schema : json) : result (list PropertyInfo) :=
  req <- py_get schema "required" (JArr []) ;;
  required_fields <- py_set req ;;
  has_allof <- py_in "allOf" schema ;;
  '(props, required_fields) <-
     (if has_allof then
        members <- py_getitem schema "allOf" ;;
        members <- py_iter members ;;
        foldM merge_member ([], required_fields) members
      else Ok ([], required_fields)) ;;
  properties <- py_get schema "properties" (JObj []) ;;
  properties <- py_items properties ;;
  own <- parse_properties required_fields properties ;;
  Ok (props ++ own)%list.

(** What one named schema becomes. *)
Inductive parsed_schema : Type :=
| IsEnum : EnumInfo -> parsed_schema
| IsModel : ModelInfo -> parsed_schema
| Skipped : parsed_schema.

Section Generator.

(** Python's [str()] on a decoded JSON value, which only the labels of an
    enum read. *)
Variable py_str : json -> string.

(** The body of the loop of [_parse_schemas]. *)
Definition parse_schema (name : string) (schema : json) : result parsed_schema :=
  let python_name := name in
  has_enum <- py_in "enum" schema ;;
  if has_enum then
    vs <- py_getitem schema "enum" ;;
    vs <- py_iter vs ;;
    let values := map (fun v => (upper (snake_case (py_str v)), v)) vs in
    description <- py_get schema "description" (JStr "") ;;
    Ok (IsEnum (mkEnum name python_name values description))
  else
    ty <- py_get schema "type" JNull ;;
    is_model <- (if eq_str ty "object" then Ok true
                 else has_props <- py_in "properties" schema ;;
                      if has_props then Ok true else py_in "allOf" schema) ;;
    if is_model then
      props <- model_properties_of schema ;;
      description <- py_get schema "description" (JStr "") ;;
      Ok (IsModel (mkModel name python_name props description))
    else Ok Skipped.

Definition enums_of (l : list parsed_schema) : list EnumInfo :=
  flat_map (fun p => match p with IsEnum e => [e] | _ => [] end) l.

Definition models_of (l : list parsed_schema) : list ModelInfo :=
  flat_map (fun p => match p with IsModel m => [m] | _ => [] end) l.

(** [self.spec.get("components", {}).get("schemas", {}).items()]. *)
Definition schemas_of (spec : json) : result (list (string * json)) :=
  components <- py_get spec "components" (JObj []) ;;
  schemas <- py_get components "schemas" (JObj []) ;;
  py_items schemas.

(** [WAHAGenerator._parse_schemas]: the enums and the models appended, in
    the order of the schemas. *)
Definition _parse_schemas (spec : json) : result (list EnumInfo * list ModelInfo) :=
  schemas <- schemas_of spec ;;
  parsed <- mapM (fun kv => parse_schema (fst kv) (snd kv)) schemas ;;
  Ok (enums_of parsed, models_of parsed).

End Generator.

(** ** Endpoint parser *)

(** The reference walk of [_parse_endpoint]: the segments after the first
    one (the [#]) are followed from the document root by subscription. *)
Definition resolve_ref (spec param : json) : result json :=
  r <- py_getitem param "$ref" ;;
  r <- as_str AttributeError r ;;
  foldM py_getitem spec (tl (split_on "/" r)).

(** The parameter object that the loop reads: the declared one, or the
    target of its reference. *)
Definition resolve_param (spec param : json) : result json :=
  has_ref <- py_in "$ref" param ;;
  if has_ref then resolve_ref spec param else Ok param.

(** The required flag of a parameter object. *)
Definition param_required (param : json) : result json :=
  required <- py_get param "required" (JBool false) ;;
  loc <- py_get param "in" JNull ;;
  Ok (if eq_str loc "path" then JBool true else required).

(** The [PropertyInfo] built from a parameter object. *)
Definition param_property (param : json) : result PropertyInfo :=
  schema <- py_get param "schema" (JObj [("type", JStr "string")]) ;;
  required <- param_required param ;;
  name <- py_getitem param "name" ;;
  name <- as_str TypeError name ;;
  type_hint <- _get_type_hint schema (truthy required) ;;
  default <- py_get schema "default" JNull ;;
  description <- py_get param "description" (JStr "") ;;
  enum <- py_get schema "enum" JNull ;;
  Ok (mkProperty name (snake_case name) type_hint required default
        description enum false).

(** One turn of the loop over the declared parameters. *)
Definition parse_param (spec param : json) : result PropertyInfo :=
  param <- resolve_param spec param ;;
  param_property param.

Definition parse_parameters (spec : json) (params : list json)
  : result (list PropertyInfo) :=
  mapM (parse_param spec) params.

(** [content["application/json"].get("schema", {})] when the content has the
    JSON media type. *)
Definition json_schema (content : json) : result (option json) :=
  has_json <- py_in "application/json" content ;;
  if has_json then
    media <- py_getitem content "application/json" ;;
    schema <- py_get media "schema" (JObj []) ;;
    Ok (Some schema)
  else Ok None.

Definition parse_body (operation : json) : result (option PropertyInfo) :=
  has_body <- py_in "requestBody" operation ;;
  if has_body then
    req_body <- py_getitem operation "requestBody" ;;
    content <- py_get req_body "content" (JObj []) ;;
    schema <- json_schema content ;;
    match schema with
    | Some schema =>
        type_hint <- _get_type_hint schema true ;;
        required <- py_get req_body "required" (JBool true) ;;
        description <- py_get req_body "description" (JStr "") ;;
        Ok (Some (mkProperty "body" "body" type_hint required JNull
                    description JNull true))
    | None => Ok None
    end
  else Ok None.

Definition response_statuses : list string := ["200"; "201"; "default"].

(** The JSON schema that [responses] declares under [status], if any: the
    two tests of the loop body. *)
Definition response_schema (responses : json) (status : string)
  : result (option json) :=
  present <- py_in status responses ;;
  if present then
    resp <- py_getitem responses status ;;
    content <- py_get resp "content" (JObj []) ;;
    json_schema content
  else Ok None.

(** The loop over the candidate statuses: [break] at the first status that
    is declared with JSON content. *)
Fixpoint scan_responses (responses : json) (statuses : list string)
  : result string :=
  match statuses with
  | [] => Ok "Any"
  | status :: rest =>
      found <- response_schema responses status ;;
      match found with
      | Some schema => _get_type_hint schema true
      | None => scan_responses responses rest
      end
  end.

Definition parse_response_type (operation : json) : result string :=
  responses <- py_get operation "responses" (JObj []) ;;
  scan_responses responses response_statuses.

(** [WAHAGenerator._parse_endpoint]. *)
Definition _parse_endpoint (spec : json) (path method : string)
    (operation : json) (tag : string) : result EndpointInfo :=
  operation_id <- py_get operation "operationId" (JStr (method ++ "_" ++ path)) ;;
  operation_id <- as_str TypeError operation_id ;;
  let python_name := snake_case operation_id in
  params <- py_get operation "parameters" (JArr []) ;;
  params <- py_iter params ;;
  parameters <- parse_parameters spec params ;;
  body <- parse_body operation ;;
  response_type <- parse_response_type operation ;;
  summary <- py_get operation "summary" (JStr "") ;;
  description <- py_get operation "description" (JStr "") ;;
  Ok (mkEndpoint operation_id python_name (upper method) path summary
        description tag parameters body response_type).

(** [self.endpoints]: tag to endpoint list, tags in order of first
    appearance. *)
Definition endpoint_map : Type := list (string * list EndpointInfo).

Fixpoint endpoints_of (tag : string) (m : endpoint_map) : option (list EndpointInfo) :=
  match m with
  | [] => None
  | (t, l) :: r => if String.eqb t tag then Some l else endpoints_of tag r
  end.

(** [if tag not in self.endpoints: self.endpoints[tag] = []]. *)
Definition ensure_tag (tag : string) (m : endpoint_map) : endpoint_map :=
  match endpoints_of tag m with
  | Some _ => m
  | None => (m ++ [(tag, [])])%list
  end.

(** [self.endpoints[tag].append(endpoint)]. *)
Fixpoint append_endpoint (tag : string) (e : EndpointInfo) (m : endpoint_map)
  : endpoint_map :=
  match m with
  | [] => []
  | (t, l) :: r =>
      if String.eqb t tag then (t, (l ++ [e])%list) :: r
      else (t, l) :: append_endpoint tag e r
  end.

Definition http_methods : list string :=
  ["get"; "post"; "put"; "patch"; "delete"].

(** The tag of an operation: [sanitize_name(tags[0])]. *)
Definition operation_tag (operation : json) : result string :=
  tags <- py_get operation "tags" (JArr [JStr "default"]) ;;
  first <- py_first tags ;;
  first <- as_str TypeError first ;;
  Ok (sanitize_name first).

(** The body of the inner loop of [_parse_endpoints]. *)
Definition parse_operation (spec : json) (path : string) (path_item : json)
    (endpoints : endpoint_map) (method : string) : result endpoint_map :=
  present <- py_in method path_item ;;
  if negb present then Ok endpoints
  else
    operation <- py_getitem path_item method ;;
    tag <- operation_tag operation ;;
    let endpoints := ensure_tag tag endpoints in
    endpoint <- _parse_endpoint spec path method operation tag ;;
    Ok (append_endpoint tag endpoint endpoints).

Definition parse_path (spec : json) (endpoints : endpoint_map)
    (entry : string * json) : result endpoint_map :=
  foldM (parse_operation spec (fst entry) (snd entry)) endpoints http_methods.

(** [WAHAGenerator._parse_endpoints]; [self.endpoints] starts empty. *)
Definition _parse_endpoints (spec : json) : result endpoint_map :=
  paths <- py_get spec "paths" (JObj []) ;;
  paths <- py_items paths ;;
  foldM (parse_path spec) [] paths.

(** ** Entity parser *)

Definition entity_key : string := "x-waha-entity".

(** The body of the loop of [_parse_entities]: [None] is the [continue]. *)
Definition parse_entity (schema_name : string) (schema : json)
  : result (option EntityInfo) :=
  entity_config <- py_get schema entity_key JNull ;;
  if negb (truthy entity_config) then Ok None
  else
    class_name <- py_get entity_config "class_name" (JStr (pascal_case schema_name)) ;;
    req <- py_get schema "required" (JArr []) ;;
    required_fields <- py_set req ;;
    properties <- py_get schema "properties" (JObj []) ;;
    properties <- py_items properties ;;
    properties <- parse_properties required_fields properties ;;
    description <- py_get schema "description" (JStr "") ;;
    Ok (Some (mkEntity class_name schema_name properties description)).

Definition somes {A : Type} (l : list (option A)) : list A :=
  flat_map (fun o => match o with Some a => [a] | None => [] end) l.

(** [WAHAGenerator._parse_entities]. *)
Definition _parse_entities (spec : json) : result (list EntityInfo) :=
  schemas <- schemas_of spec ;;
  parsed <- mapM (fun kv => parse_entity (fst kv) (snd kv)) schemas ;;
  Ok (somes parsed).

(** ** The parsed state of the generator *)

Record GeneratorState : Type := mkState {
  st_endpoints : endpoint_map;
  st_models : list ModelInfo;
  st_enums : list EnumInfo;
  st_entities : list EntityInfo
}.

(** [WAHAGenerator.parse]. *)
Definition parse (py_str : json -> string) (spec : json) : result GeneratorState :=
  '(enums, models) <- _parse_schemas py_str spec ;;
  endpoints <- _parse_endpoints spec ;;
  entities <- _parse_entities spec ;;
  Ok (mkState endpoints models enums entities).

(** ** Vocabulary of the properties *)

(** A computation that does not stop for lack of fuel. *)
Definition fueled {A : Type} (m : result A) : Prop := m <> Raise OutOfFuel.

(** [c in s] for a character [c]. *)
Fixpoint has_char (c : ascii) (s : string) : bool :=
  match s with
  | EmptyString => false
  | String c' r => Ascii.eqb c' c || has_char c r
  end.

(** The marker that [required = false] adds. *)
Definition optional (m : result string) : result string :=
  t <- m ;; Ok (t ++ " | None").

(** A node that is neither a reference, a composition nor a disjunction. *)
Definition plain_node (kvs : list (string * json)) : Prop :=
  lookup "$ref" kvs = None /\ lookup "allOf" kvs = None /\
  lookup "oneOf" kvs = None /\ lookup "anyOf" kvs = None.

(** The value of a key, or the default of [dict.get]. *)
Definition or_default (d : json) (o : option json) : json :=
  match o with
  | Some v => v
  | None => d
  end.

(** The responses [rs] declare [status] with JSON content, whose schema
    (the empty schema when the media type gives none) is [schema]. *)
Definition declares_json (rs : list (string * json)) (status : string)
    (schema : json) : Prop :=
  exists r c m,
    lookup status rs = Some (JObj r) /\
    lookup "content" r = Some (JObj c) /\
    lookup "application/json" c = Some (JObj m) /\
    schema = or_default (JObj []) (lookup "schema" m).

(** The responses [rs] do not declare [status], or declare it without JSON
    content. *)
Definition no_json (rs : list (string * json)) (status : string) : Prop :=
  lookup status rs = None \/
  exists r,
    lookup status rs = Some (JObj r) /\
    (lookup "content" r = None \/
     exists c, lookup "content" r = Some (JObj c) /\
               lookup "application/json" c = None).

(** ** Example documents *)

(** The responses of an operation that declares its 201 before its 200,
    both with JSON content. *)
Definition created_then_ok : list (string * json) :=
  [("201", JObj [("content", JObj [("application/json",
             JObj [("schema", JObj [("type", JStr "integer")])])])]);
   ("200", JObj [("content", JObj [("application/json",
             JObj [("schema", JObj [("$ref", JStr "#/components/schemas/Chat")])])])])].

(** A path parameter that declares itself optional. *)
Definition chat_id_param : json :=
  JObj [("name", JStr "chatId"); ("in", JStr "path"); ("required", JBool false)].

(** A document whose operation declares its parameter by reference. *)
Definition chat_id_ref : json :=
  JObj [("$ref", JStr "#/components/parameters/ChatId")].

Definition doc_with_parameter : json :=
  JObj [("components", JObj [("parameters", JObj [("ChatId", chat_id_param)])])].

(** Schemas carrying the entity extension: one with a payload, whose
    [allOf] member declares a property and requires [size], and one with an
    empty payload. *)
Definition group_member : json :=
  JObj [("properties", JObj [("id", JObj [("type", JStr "string")])]);
        ("required", JArr [JStr "size"])].

Definition group_schema : list (string * json) :=
  [("type", JStr "object");
   ("x-waha-entity", JObj [("class_name", JStr "Group")]);
   ("allOf", JArr [group_member]);
   ("required", JArr [JStr "subject"]);
   ("properties", JObj [("subject", JObj [("type", JStr "string")]);
                        ("size", JObj [("type", JStr "integer")])])].

Definition unmarked_schema : list (string * json) :=
  [("type", JStr "object"); ("x-waha-entity", JObj []);
   ("properties", JObj [("id", JObj [("type", JStr "string")])])].

Definition doc_with_entities : json :=
  JObj [("components", JObj [("schemas",
          JObj [("GroupInfo", JObj group_schema);
                ("chat_summary", JObj unmarked_schema)])])].

(** The entity that [group_schema] yields under the name [GroupInfo]: the
    property [id] of its [allOf] member is not part of it, and [size] is
    optional. *)
Definition group_entity : EntityInfo :=
  mkEntity (JStr "Group") "GroupInfo"
    [mkProperty "subject" "subject" "str" (JBool true) JNull (JStr "") JNull false;
     mkProperty "size" "size" "int | None" (JBool false) JNull (JStr "") JNull false]
    (JStr "").

(** The properties of the model of [group_schema]: [size] is required. *)
Definition group_model_properties : list PropertyInfo :=
  [mkProperty "id" "id" "str | None" (JBool false) JNull (JStr "") JNull false;
   mkProperty "subject" "subject" "str" (JBool true) JNull (JStr "") JNull false;
   mkProperty "size" "size" "int" (JBool true) JNull (JStr "") JNull false].

(** Letters and digits, and the strings that contain one. *)
Definition is_alnum (c : ascii) : bool :=
  is_upper c || is_lower c || is_digit c.

Fixpoint has_alnum (s : string) : bool :=
  match s with
  | EmptyString => false
  | String c r => is_alnum c || has_alnum r
  end.

(** The input of [sanitize_name] after the first two steps: characters
    outside the word, space and hyphen classes removed, then trimmed. *)
Definition stripped (name : string) : string :=
  strip is_space (filter_string is_kept name).

(** The endpoint [e] is in the list of its tag. *)
Definition registered (e : EndpointInfo) (m : endpoint_map) : Prop :=
  exists l, endpoints_of (ep_tag e) m = Some l /\ In e l.

(** The operation fields of an OpenAPI path item: the HTTP verbs that a
    document can declare under a path. *)
Definition openapi_verbs : list string :=
  ["get"; "put"; "post"; "delete"; "options"; "head"; "patch"; "trace"].

(** A document with one path and three operations: a GET without tags, a
    POST with a tag, and a HEAD. *)
Definition sessions_get : json :=
  JObj [("operationId", JStr "listSessions")].

Definition sessions_post : json :=
  JObj [("operationId", JStr "startSession"); ("tags", JArr [JStr "Sessions API"])].

Definition sessions_head : json :=
  JObj [("operationId", JStr "probeSessions"); ("tags", JArr [JStr "Sessions API"])].

Definition sessions_item : list (string * json) :=
  [("post", sessions_post); ("get", sessions_get)].

Definition doc_with_paths : json :=
  JObj [("paths", JObj [("/api/sessions", JObj sessions_item)])].

Definition doc_with_head : json :=
  JObj [("paths", JObj [("/api/sessions", JObj [("head", sessions_head)])])].

Definition list_sessions : EndpointInfo :=
  mkEndpoint "listSessions" "list_sessions" "GET" "/api/sessions" (JStr "")
    (JStr "") "default" [] None "Any".

Definition start_session : EndpointInfo :=
  mkEndpoint "startSession" "start_session" "POST" "/api/sessions" (JStr "")
    (JStr "") "sessions_api" [] None "Any".

(** What the parser made of the operation that [path_item] declares under
    [method]. *)
Definition parsed_operation (spec : json) (path : string)
    (pkvs : list (string * json)) (method : string) (m : endpoint_map) : Prop :=
  exists operation e,
    lookup method pkvs = Some operation /\
    operation_tag operation = Ok (ep_tag e) /\
    _parse_endpoint spec path method operation (ep_tag e) = Ok e /\
    registered e m.

(** The required set in the words of the specification: the schema's own
    [required] list united with the [required] list of every member of its
    [allOf] list. *)
Definition add_required (s : list json) (item : json) : result (list json) :=
  req <- py_get item "required" (JArr []) ;;
  set_update s req.

Definition required_union (schema : json) : result (list json) :=
  own <- py_get schema "required" (JArr []) ;;
  own <- py_set own ;;
  has_allof <- py_in "allOf" schema ;;
  if has_allof then
    members <- py_getitem schema "allOf" ;;
    members <- py_iter members ;;
    foldM add_required own members
  else Ok own.

(** The properties that a member of an [allOf] list declares. *)
Definition member_properties (item : json) : list (string * json) :=
  match item with
  | JObj ikvs =>
      match lookup "properties" ikvs with
      | Some (JObj properties) => properties
      | _ => []
      end
  | _ => []
  end.

(** A composed schema: the second member declares the property [breed] and
    requires it. *)
Definition dog_schema : json :=
  JObj [("allOf",
         JArr [JObj [("$ref", JStr "#/components/schemas/Pet")];
               JObj [("type", JStr "object");
                     ("properties", JObj [("breed", JObj [("type", JStr "string")])]);
                     ("required", JArr [JStr "breed"])]])].

Definition doc_with_composition : json :=
  JObj [("components", JObj [("schemas", JObj [("Dog", dog_schema)])])].

(** ** Vocabulary of the further properties *)

(** Strings over the code points below 128. *)
Definition is_ascii_char (c : ascii) : bool := (code c <? 128)%nat.

Fixpoint all_chars (p : ascii -> bool) (s : string) : bool :=
  match s with
  | EmptyString => true
  | String c r => p c && all_chars p r
  end.

Definition is_ascii (s : string) : bool := all_chars is_ascii_char s.

(** The first and the last character of a string satisfy [p]. *)
Definition starts_with (p : ascii -> bool) (s : string) : bool :=
  match s with
  | EmptyString => false
  | String c _ => p c
  end.

Fixpoint ends_with (p : ascii -> bool) (s : string) : bool :=
  match s with
  | EmptyString => false
  | String c EmptyString => p c
  | String _ r => ends_with p r
  end.

(** The alphabets of the snake-cased and of the kebab-cased names. *)
Definition is_snake_char (c : ascii) : bool :=
  is_lower c || is_digit c || is_underscore c.

Definition is_hyphen (c : ascii) : bool := (code c =? 45)%nat.

Definition is_kebab_char (c : ascii) : bool :=
  is_lower c || is_digit c || is_hyphen c.

Definition not_sep (c : ascii) : bool := negb (is_sep c).

Definition not_upper (c : ascii) : bool := negb (is_upper c).

(** A schema node all of whose nested schemas are nodes too: the node is a
    dict; its [$ref], if any, is a string; its [allOf], [oneOf] and [anyOf],
    if any, are lists of such nodes; its [items] and
    [additionalProperties], if any, are such nodes. *)
#[warnings="-register-all"]
Inductive schema_ok : json -> Prop :=
| schema_ok_node kvs :
    (forall r, lookup "$ref" kvs = Some r -> exists s, r = JStr s) ->
    (forall k v, In k ["allOf"; "oneOf"; "anyOf"] -> lookup k kvs = Some v ->
                 exists ms, v = JArr ms /\ Forall schema_ok ms) ->
    (forall k v, In k ["items"; "additionalProperties"] ->
                 lookup k kvs = Some v -> schema_ok v) ->
    schema_ok (JObj kvs).

(** Values that are neither a dict, a list nor a string. *)
Definition is_scalar (j : json) : bool :=
  match j with
  | JNull | JBool _ | JInt _ | JFloat _ => true
  | _ => false
  end.

(** An array of references to a schema, and an object that allows any
    additional property. *)
Definition chat_list_schema : json :=
  JObj [("type", JStr "array");
        ("items", JObj [("$ref", JStr "#/components/schemas/Chat")])].

Definition open_object_schema : list (string * json) :=
  [("type", JStr "object"); ("additionalProperties", JBool true)].

(** The three kinds of named schemas, as [_parse_schemas] tells them apart:
    a schema with an [enum] key is an enum; another schema is a model when
    its type is [object] or it has a [properties] or an [allOf] key. *)
Definition has (k : string) (j : json) : bool :=
  match py_in k j with
  | Ok b => b
  | Raise _ => false
  end.

Definition is_enum_schema (schema : json) : bool := has "enum" schema.

Definition is_model_schema (schema : json) : bool :=
  negb (is_enum_schema schema) &&
  (match py_get schema "type" JNull with
   | Ok ty => eq_str ty "object"
   | Raise _ => false
   end || has "properties" schema || has "allOf" schema).

(** The values of an enum schema: [for v in schema["enum"]]. *)
Definition enum_members (schema : json) : result (list json) :=
  vs <- py_getitem schema "enum" ;;
  py_iter vs.

(** What [_parse_property] guarantees of a property: its identifier is the
    snake-cased name, marked when reserved, and is no reserved word; its
    flag is a boolean, and an optional property has a type hint that ends
    with the marker. *)
Definition property_invariant (p : PropertyInfo) : Prop :=
  prop_python_name p = property_python_name (prop_name p) /\
  is_reserved (prop_python_name p) = false /\
  prop_is_body p = false /\
  exists b t, prop_required p = JBool b /\ prop_type_hint p = mark b t.

(** A document with an enum that also has properties, a model and a schema
    that is neither. *)
Definition doc_with_schemas : json :=
  JObj [("components", JObj [("schemas",
          JObj [("Status", JObj [("type", JStr "string");
                                 ("enum", JArr [JStr "up"; JStr "down"; JStr "up"]);
                                 ("properties", JObj [("x", JObj [])])]);
                ("Chat", JObj [("properties",
                                JObj [("from", JObj [("type", JStr "string")])])]);
                ("Id", JObj [("type", JStr "string")])])])].

(** [str()] on the values of the example documents, which are strings. *)
Definition str_of_string (j : json) : string :=
  match j with
  | JStr s => s
  | _ => ""
  end.

(** The inner loop body of [_parse_endpoints] without the update of
    [self.endpoints]: the endpoint of the operation that [path_item]
    declares under [method], if it declares one. *)
Definition scan_operation (spec : json) (op : string * json * string)
  : result (option EndpointInfo) :=
  let '(path, path_item, method) := op in
  present <- py_in method path_item ;;
  if negb present then Ok None
  else
    operation <- py_getitem path_item method ;;
    tag <- operation_tag operation ;;
    endpoint <- _parse_endpoint spec path method operation tag ;;
    Ok (Some endpoint).

(** The pairs of a path and a method in the order of the two loops. *)
Definition operations_of (paths : list (string * json))
  : list (string * json * string) :=
  flat_map (fun entry => map (fun method => (fst entry, snd entry, method))
                           http_methods) paths.

(** The update of [self.endpoints] by one endpoint, and by a list of
    endpoints from the empty map. *)
Definition add_endpoint (m : endpoint_map) (e : EndpointInfo) : endpoint_map :=
  append_endpoint (ep_tag e) e (ensure_tag (ep_tag e) m).

Definition group_by_tag (es : list EndpointInfo) : endpoint_map :=
  fold_left add_endpoint es [].

(** The elements of a list in the order of their first occurrence. *)
Fixpoint first_seen (l : list string) : list string :=
  match l with
  | [] => []
  | x :: r => x :: filter (fun y => negb (String.eqb y x)) (first_seen r)
  end.

(** The endpoints of a tag, in the order of the list. *)
Definition with_tag (t : string) (es : list EndpointInfo) : list EndpointInfo :=
  filter (fun e => String.eqb (ep_tag e) t) es.

(** [self.spec.get("paths", {}).items()]. *)
Definition paths_of (spec : json) : result (list (string * json)) :=
  paths <- py_get spec "paths" (JObj []) ;;
  py_items paths.

(** The methods of the parsed endpoints. *)
Definition upper_methods : list string := map upper http_methods.

(** The names of the files that [_generate_api] writes into its directory,
    in the order of the writes: one module for each tag of
    [self.endpoints], then the index.  The contents come from the template
    engine. *)
Definition api_filenames (m : endpoint_map) : list string :=
  (map (fun kv => (fst kv ++ ".py")%string) m ++ ["__init__.py"])%list.

(** The names of the files that [_generate_cli] writes: the entry point,
    then one module for each tag. *)
Definition cli_filenames (m : endpoint_map) : list string :=
  "__init__.py" :: map (fun kv => fst kv ++ ".py") m.

(** Operations with a request body: an optional JSON body, and a body that
    is a form. *)
Definition optional_body_operation : list (string * json) :=
  [("requestBody",
    JObj [("required", JBool false);
          ("content", JObj [("application/json",
             JObj [("schema", JObj [("$ref", JStr "#/components/schemas/Text")])])])])].

Definition form_body_operation : list (string * json) :=
  [("requestBody",
    JObj [("content", JObj [("multipart/form-data",
             JObj [("schema", JObj [("type", JStr "object")])])])])].

(** A query parameter without schema whose name is a reserved word. *)
Definition from_param : json :=
  JObj [("name", JStr "from"); ("in", JStr "query")].

(** The schemas that [_parse_entities] does not skip: those whose extension
    payload is truthy. *)
Definition is_entity_schema (schema : json) : bool :=
  match py_get schema entity_key JNull with
  | Ok entity_config => truthy entity_config
  | Raise _ => false
  end.

(** [d[k] = v] on a dict: the value of an existing key is replaced in
    place, a new key goes to the end. *)
Fixpoint dict_set (k : string) (v : json) (d : list (string * json))
  : list (string * json) :=
  match d with
  | [] => [(k, v)]
  | (k', v') :: r =>
      if String.eqb k' k then (k', v) :: r else (k', v') :: dict_set k v r
  end.

(** The mapping that [_generate_wrapper] hands to its template:
    [{e.schema_name: e.name for e in self.entities}]. *)
Definition schema_to_entity (entities : list EntityInfo) : list (string * json) :=
  fold_left (fun d e => dict_set (entity_schema_name e) (entity_name e) d)
    entities [].

(** ** The example programs *)

(** [find_groups_by_name] of [examples/download_stickers.py].  A group is a
    value of the generated client, of which the function reads the
    attribute [name] only: the type of the groups and the attribute are
    parameters.  [group.name in names] compares the name with the strings
    of the list. *)
Definition find_groups_by_name {Group : Type} (group_name : Group -> json)
    (groups : list Group) (names : list string) : list Group :=
  filter (fun group => existsb (eq_str (group_name group)) names) groups.

(** Groups as pairs of a name and an identifier. *)
Definition pair_name (g : string * string) : json := JStr (fst g).

(** The names of the files that [_generate_models] writes into its
    directory, in the order of the writes: one module for each model, one
    for each enum, then the index. *)
Definition model_modules (models : list ModelInfo) (enums : list EnumInfo)
  : list string :=
  (map (fun m => (snake_case (model_name m) ++ ".py")%string) models ++
   map (fun e => (snake_case (enum_name e) ++ ".py")%string) enums)%list.

Definition model_filenames (models : list ModelInfo) (enums : list EnumInfo)
  : list string :=
  (model_modules models enums ++ ["__init__.py"])%list.

(** The alphabet of the labels of an enum. *)
Definition is_label_char (c : ascii) : bool :=
  is_upper c || is_digit c || is_underscore c.

(** ** Example operations *)

(** An operation with a referenced path parameter, a query parameter, an
    optional JSON body and two answers; the same operation with the
    referenced parameter written inline; and the endpoint of both under the
    tag [chats]. *)
Definition chat_operation : list (string * json) :=
  [("operationId", JStr "getChat");
   ("parameters", JArr [chat_id_ref; from_param]);
   ("requestBody",
    JObj [("required", JBool false);
          ("content", JObj [("application/json",
             JObj [("schema", JObj [("$ref", JStr "#/components/schemas/Text")])])])]);
   ("responses", JObj created_then_ok)].

Definition chat_operation_inline : list (string * json) :=
  [("operationId", JStr "getChat");
   ("parameters", JArr [chat_id_param; from_param]);
   ("requestBody",
    JObj [("required", JBool false);
          ("content", JObj [("application/json",
             JObj [("schema", JObj [("$ref", JStr "#/components/schemas/Text")])])])]);
   ("responses", JObj created_then_ok)].

Definition get_chat : EndpointInfo :=
  mkEndpoint "getChat" "get_chat" "GET" "/api/chats/{chatId}" (JStr "") (JStr "")
    "chats"
    [mkProperty "chatId" "chat_id" "str" (JBool true) JNull (JStr "") JNull false;
     mkProperty "from" "from" "str | None" (JBool false) JNull (JStr "") JNull false]
    (Some (mkProperty "body" "body" "Text" (JBool false) JNull (JStr "") JNull true))
    "Chat".

(** Operations whose second parameter is a reference: to a parameter that
    the document does not have, and to one written with a file name before
    the [#]. *)
Definition missing_ref_operation : list (string * json) :=
  [("parameters",
    JArr [from_param; JObj [("$ref", JStr "#/components/parameters/Missing")]])].

Definition foreign_ref_operation : list (string * json) :=
  [("parameters",
    JArr [from_param;
          JObj [("$ref", JStr "other.json#/components/parameters/ChatId")]])].

(** The endpoints of [optional_body_operation] and of
    [form_body_operation], which have no [operationId]. *)
Definition send_text : EndpointInfo :=
  mkEndpoint "post_/api/sendText" "post__api_send_text" "POST" "/api/sendText"
    (JStr "") (JStr "") "chatting" []
    (Some (mkProperty "body" "body" "Text" (JBool false) JNull (JStr "") JNull true))
    "Any".

Definition send_file : EndpointInfo :=
  mkEndpoint "post_/api/sendFile" "post__api_send_file" "POST" "/api/sendFile"
    (JStr "") (JStr "") "chatting" [] None "Any".

(** * Properties *)

(** ** The error monad *)

Lemma bind_Ok {A B : Type} (m : result A) (f : A -> result B) (b : B) :
  bind m f = Ok b -> exists a, m = Ok a /\ f a = Ok b.
Proof.
  destruct m as [a|e]; simpl; intros H; [exists a; auto | discriminate].
Qed.

(** Inversion of a chain of binds that returned. *)
Ltac invert_bind H :=
  repeat match type of H with
    | bind ?m _ = Ok _ =>
        let E := fresh "E" in
        destruct m eqn:E; cbn [bind] in H; [|discriminate H]
    end.

Lemma mapM_ext {A B : Type} (f g : A -> result B) (l : list A) :
  (forall x, In x l -> f x = g x) -> mapM f l = mapM g l.
Proof.
  induction l as [|x r IH]; simpl; intros H; [reflexivity|].
  rewrite (H x (or_introl eq_refl)), IH; auto.
Qed.

Lemma mapM_app {A B : Type} (f : A -> result B) (l1 l2 : list A) :
  mapM f (l1 ++ l2)%list =
  (ys1 <- mapM f l1 ;; ys2 <- mapM f l2 ;; Ok (ys1 ++ ys2)%list).
Proof.
  induction l1 as [|x r IH]; simpl.
  - destruct (mapM f l2); reflexivity.
  - destruct (f x) as [y|e]; simpl; [|reflexivity].
    rewrite IH. destruct (mapM f r) as [ys|e]; simpl; [|reflexivity].
    destruct (mapM f l2); reflexivity.
Qed.

Lemma mapM_Ok_Forall2 {A B : Type} (f : A -> result B) (l : list A) (ys : list B) :
  mapM f l = Ok ys -> Forall2 (fun x y => f x = Ok y) l ys.
Proof.
  revert ys; induction l as [|x r IH]; simpl; intros ys H.
  - inversion H; constructor.
  - destruct (f x) as [y|e] eqn:Hx; simpl in H; [|discriminate].
    destruct (mapM f r) as [ys'|e] eqn:Hr; simpl in H; [|discriminate].
    inversion H; subst. constructor; auto.
Qed.

Lemma mapM_raises {A B : Type} (f : A -> result B) (l : list A) (e : pyerr) :
  mapM f l = Raise e -> exists x, In x l /\ f x = Raise e.
Proof.
  induction l as [|x r IH]; simpl; intros H; [discriminate|].
  destruct (f x) as [y|e'] eqn:Hx; simpl in H.
  - destruct (mapM f r) as [ys|e'] eqn:Hr; simpl in H; [discriminate|].
    inversion H; subst. destruct (IH eq_refl) as [x' [Hin Hx']].
    exists x'; auto.
  - inversion H; subst. exists x; auto.
Qed.

(** ** Depth of the values reached by the Python operations *)

Lemma depth_obj_cons k v r :
  depth (JObj ((k, v) :: r)) = Nat.max (S (depth v)) (depth (JObj r)).
Proof. reflexivity. Qed.

Lemma depth_arr_cons x r :
  depth (JArr (x :: r)) = Nat.max (S (depth x)) (depth (JArr r)).
Proof. reflexivity. Qed.

Lemma lookup_depth k kvs v :
  lookup k kvs = Some v -> depth v < depth (JObj kvs).
Proof.
  induction kvs as [|[k' v'] r IH]; [discriminate|].
  rewrite depth_obj_cons. cbn [lookup].
  destruct (String.eqb k' k); intros H.
  - inversion H; subst. lia.
  - specialize (IH H). lia.
Qed.

Lemma py_getitem_depth j k v :
  py_getitem j k = Ok v -> depth v < depth j.
Proof.
  destruct j as [| b | z | f | s | xs | kvs]; cbn [py_getitem]; try discriminate.
  destruct (lookup k kvs) eqn:Hl; [|discriminate].
  intros H; inversion H; subst. eapply lookup_depth; eauto.
Qed.

Lemma py_get_depth j k d v :
  py_get j k d = Ok v -> v = d \/ depth v < depth j.
Proof.
  destruct j as [| b | z | f | s | xs | kvs]; cbn [py_get]; try discriminate.
  destruct (lookup k kvs) eqn:Hl; intros H; inversion H; subst; auto.
  right. eapply lookup_depth; eauto.
Qed.

Lemma chars_depth s x : In x (chars s) -> depth x = 0.
Proof.
  induction s as [|c r IH]; simpl; [tauto|].
  intros [<-|H]; auto.
Qed.

Lemma py_iter_depth j xs x :
  py_iter j = Ok xs -> In x xs -> depth x <= depth j.
Proof.
  destruct j as [| b | z | f | s | ys | kvs]; cbn [py_iter]; try discriminate;
    intros H; inversion H; subst; clear H.
  - intros Hin. apply chars_depth in Hin. lia.
  - induction xs as [|y r IH]; [intros []|].
    rewrite depth_arr_cons. intros [->|Hin]; [lia|]. specialize (IH Hin). lia.
  - intros Hin. apply in_map_iff in Hin. destruct Hin as [kv [<- _]].
    cbn [depth]. lia.
Qed.

(** ** The type resolver is well defined *)

(** The body reads [rec] only at values nested in the schema. *)
Lemma type_hint_body_ext rec1 rec2 schema required :
  (forall j r, depth j < depth schema -> rec1 j r = rec2 j r) ->
  type_hint_body rec1 schema required = type_hint_body rec2 schema required.
Proof.
  intros Hrec. unfold type_hint_body.
  destruct (py_in "$ref" schema) as [[|]|]; simpl; try reflexivity.
  destruct (py_in "allOf" schema) as [[|]|]; simpl; try reflexivity.
  { destruct (py_getitem schema "allOf") as [ms|] eqn:Hms; simpl; [|reflexivity].
    apply py_getitem_depth in Hms.
    destruct (py_iter ms) as [[|item rest]|] eqn:Hit; simpl; try reflexivity.
    apply Hrec.
    pose proof (py_iter_depth _ _ item Hit (or_introl eq_refl)). lia. }
  destruct (py_in "oneOf" schema) as [has_oneof|]; simpl; [|reflexivity].
  destruct (if has_oneof then Ok true else py_in "anyOf" schema) as [[|]|];
    simpl; try reflexivity.
  { destruct (py_get schema "oneOf" JNull) as [one|] eqn:Hone; simpl; [|reflexivity].
    assert (Hitems : forall items,
               (if truthy one then Ok one else py_get schema "anyOf" (JArr []))
               = Ok items ->
               items = JArr [] \/ depth items < depth schema).
    { intros items. destruct (truthy one) eqn:Ht.
      - intros H; inversion H; subst.
        apply py_get_depth in Hone. destruct Hone as [->|]; [discriminate|auto].
      - intros H. apply py_get_depth in H. exact H. }
    destruct (if truthy one then Ok one else py_get schema "anyOf" (JArr []))
      as [items|]; simpl; [|reflexivity].
    specialize (Hitems items eq_refl).
    destruct (py_iter items) as [xs|] eqn:Hit; simpl; [|reflexivity].
    rewrite (mapM_ext (fun item => rec1 item true) (fun item => rec2 item true));
      [reflexivity|].
    intros x Hin. apply Hrec.
    destruct Hitems as [->|Hd].
    - simpl in Hit. inversion Hit; subst. destruct Hin.
    - pose proof (py_iter_depth _ _ x Hit Hin). lia. }
  destruct (py_in "type" schema) as [[|]|]; simpl; try reflexivity.
  destruct (py_getitem schema "type") as [ty|] eqn:Hty; simpl; [|reflexivity].
  apply py_getitem_depth in Hty.
  destruct (eq_str ty "string"); [reflexivity|].
  destruct (eq_str ty "integer"); [reflexivity|].
  destruct (eq_str ty "number"); [reflexivity|].
  destruct (eq_str ty "boolean"); [reflexivity|].
  destruct (eq_str ty "array").
  { destruct (py_get schema "items" (JObj [])) as [items|] eqn:Hi; simpl; [|reflexivity].
    rewrite (Hrec items true); [reflexivity|].
    apply py_get_depth in Hi. destruct Hi as [->|]; [simpl; lia|assumption]. }
  destruct (eq_str ty "object"); [|reflexivity].
  destruct (py_in "additionalProperties" schema) as [[|]|]; simpl; try reflexivity.
  destruct (py_getitem schema "additionalProperties") as [ap|] eqn:Hap; simpl;
    [|reflexivity].
  rewrite (Hrec ap true); [reflexivity|].
  eapply py_getitem_depth; eauto.
Qed.

(** More fuel than the depth of the schema never changes the result. *)
Lemma type_hint_fuel_enough n : forall m schema required,
  depth schema < n -> depth schema < m ->
  type_hint_fuel n schema required = type_hint_fuel m schema required.
Proof.
  induction n as [|n IH]; intros m schema required Hn Hm; [lia|].
  destruct m as [|m]; [lia|]. simpl.
  apply type_hint_body_ext. intros j r Hj. apply IH; lia.
Qed.

(** The defining equation of [_get_type_hint]: its body, with the function
    itself at the recursive calls. *)
Lemma _get_type_hint_eq schema required :
  _get_type_hint schema required = type_hint_body _get_type_hint schema required.
Proof.
  unfold _get_type_hint at 1. simpl.
  apply type_hint_body_ext. intros j r Hj.
  unfold _get_type_hint. apply type_hint_fuel_enough; lia.
Qed.

Lemma fueled_Ok {A : Type} (a : A) : fueled (Ok a).
Proof. discriminate. Qed.

Lemma fueled_bind {A B : Type} (m : result A) (f : A -> result B) :
  fueled m -> (forall a, m = Ok a -> fueled (f a)) -> fueled (bind m f).
Proof.
  unfold fueled. destruct m as [a|e]; simpl; intros Hm Hf;
    [exact (Hf a eq_refl) | intros H; apply Hm; congruence].
Qed.

Lemma fueled_py_in k j : fueled (py_in k j).
Proof. destruct j; discriminate. Qed.

Lemma fueled_py_getitem j k : fueled (py_getitem j k).
Proof.
  destruct j as [| b | z | f | s | xs | kvs]; try discriminate.
  simpl. destruct (lookup k kvs); discriminate.
Qed.

Lemma fueled_py_get j k d : fueled (py_get j k d).
Proof.
  destruct j as [| b | z | f | s | xs | kvs]; try discriminate.
  simpl. destruct (lookup k kvs); discriminate.
Qed.

Lemma fueled_py_iter j : fueled (py_iter j).
Proof. destruct j; discriminate. Qed.

Lemma fueled_as_str e j : e <> OutOfFuel -> fueled (as_str e j).
Proof. intros He. destruct j; simpl; try discriminate; congruence. Qed.

Lemma fueled_mapM {A B : Type} (f : A -> result B) (l : list A) :
  (forall x, In x l -> fueled (f x)) -> fueled (mapM f l).
Proof.
  intros H Hr. apply mapM_raises in Hr. destruct Hr as [x [Hin Hx]].
  exact (H x Hin Hx).
Qed.

Create HintDb fueled.
#[local] Hint Resolve fueled_Ok fueled_py_in fueled_py_getitem fueled_py_get
  fueled_py_iter : fueled.

Lemma type_hint_body_fueled rec schema required :
  (forall j r, depth j < depth schema -> fueled (rec j r)) ->
  fueled (type_hint_body rec schema required).
Proof.
  intros Hrec. unfold type_hint_body.
  apply fueled_bind; auto with fueled. intros [|] _.
  { apply fueled_bind; auto with fueled. intros r _.
    apply fueled_bind; auto with fueled. apply fueled_as_str; discriminate. }
  apply fueled_bind; auto with fueled. intros [|] _.
  { apply fueled_bind; auto with fueled. intros ms Hms.
    apply py_getitem_depth in Hms.
    apply fueled_bind; auto with fueled. intros [|item rest] Hit; auto with fueled.
    apply Hrec. pose proof (py_iter_depth _ _ item Hit (or_introl eq_refl)). lia. }
  apply fueled_bind; auto with fueled. intros has_oneof _.
  apply fueled_bind; [destruct has_oneof; auto with fueled|]. intros [|] _.
  { apply fueled_bind; auto with fueled. intros one Hone.
    apply fueled_bind; [destruct (truthy one); auto with fueled|].
    intros items Hitems.
    assert (Hd : items = JArr [] \/ depth items < depth schema).
    { destruct (truthy one) eqn:Ht.
      - inversion Hitems; subst. apply py_get_depth in Hone.
        destruct Hone as [->|]; [discriminate|auto].
      - apply py_get_depth in Hitems. exact Hitems. }
    apply fueled_bind; auto with fueled. intros xs Hit.
    apply fueled_bind; auto with fueled. apply fueled_mapM. intros x Hin.
    apply Hrec. destruct Hd as [->|Hd].
    - simpl in Hit. inversion Hit; subst. destruct Hin.
    - pose proof (py_iter_depth _ _ x Hit Hin). lia. }
  apply fueled_bind; auto with fueled. intros [|] _; simpl; auto with fueled.
  apply fueled_bind; auto with fueled. intros ty Hty.
  apply py_getitem_depth in Hty.
  destruct (eq_str ty "string").
  { apply fueled_bind; auto with fueled. intros [|] _; auto with fueled.
    apply fueled_bind; auto with fueled. intros fmt _.
    destruct (eq_str fmt "date-time"); auto with fueled.
    destruct (eq_str fmt "date"); auto with fueled.
    destruct (eq_str fmt "binary"); auto with fueled. }
  destruct (eq_str ty "integer"); auto with fueled.
  destruct (eq_str ty "number"); auto with fueled.
  destruct (eq_str ty "boolean"); auto with fueled.
  destruct (eq_str ty "array").
  { apply fueled_bind; auto with fueled. intros items Hi.
    apply fueled_bind; auto with fueled. apply Hrec.
    apply py_get_depth in Hi. destruct Hi as [->|]; [simpl; lia|assumption]. }
  destruct (eq_str ty "object"); auto with fueled.
  apply fueled_bind; auto with fueled. intros [|] _; auto with fueled.
  apply fueled_bind; auto with fueled. intros ap Hap.
  apply fueled_bind; auto with fueled. apply Hrec.
  eapply py_getitem_depth; eauto.
Qed.

(** [_get_type_hint] is total: it returns a type hint or raises one of
    Python's exceptions, and never stops for lack of fuel. *)
Lemma _get_type_hint_no_fuel_error schema required :
  _get_type_hint schema required <> Raise OutOfFuel.
Proof.
  remember (depth schema) as d eqn:Hd.
  revert schema required Hd.
  induction d as [d IH] using lt_wf_ind. intros schema required ->.
  rewrite _get_type_hint_eq. apply type_hint_body_fueled.
  intros j r Hj. exact (IH (depth j) Hj j r eq_refl).
Qed.

(** ** Reference names and the optional marker *)

Lemma split_on_nonempty sep s : split_on sep s <> [].
Proof.
  destruct s as [|c r]; simpl; [discriminate|].
  destruct (Ascii.eqb c sep); [discriminate|].
  destruct (split_on sep r); discriminate.
Qed.

Lemma split_on_no_sep sep s : has_char sep s = false -> split_on sep s = [s].
Proof.
  induction s as [|c r IH]; simpl; [reflexivity|].
  destruct (Ascii.eqb c sep); simpl; [discriminate|].
  intros H. rewrite (IH H). reflexivity.
Qed.

Lemma split_on_app sep pre seg :
  split_on sep (pre ++ String sep seg) =
  (split_on sep pre ++ split_on sep seg)%list.
Proof.
  induction pre as [|c p IH]; simpl.
  - rewrite Ascii.eqb_refl. reflexivity.
  - destruct (Ascii.eqb c sep); rewrite IH; [reflexivity|].
    pose proof (split_on_nonempty sep p) as Hne.
    destruct (split_on sep p) as [|w ws]; [congruence|reflexivity].
Qed.

Lemma last_app_nonempty {A : Type} (l1 l2 : list A) (d : A) :
  l2 <> [] -> last (l1 ++ l2)%list d = last l2 d.
Proof.
  intros Hne. induction l1 as [|x r IH]; [reflexivity|].
  simpl. destruct (r ++ l2)%list eqn:Heq; [|exact IH].
  apply app_eq_nil in Heq. destruct Heq; congruence.
Qed.

(** The name that a reference resolves to is the text after its last
    slash. *)
Lemma last_segment pre seg :
  has_char "/" seg = false ->
  last (split_on "/" (pre ++ String "/" seg)) "" = seg.
Proof.
  intros H. rewrite split_on_app, last_app_nonempty by apply split_on_nonempty.
  rewrite (split_on_no_sep _ _ H). reflexivity.
Qed.

Lemma py_in_obj k kvs : py_in k (JObj kvs) = Ok (has_key k kvs).
Proof. reflexivity. Qed.

Lemma has_key_None k kvs : lookup k kvs = None -> has_key k kvs = false.
Proof. unfold has_key. intros ->. reflexivity. Qed.

Lemma has_key_Some k kvs v : lookup k kvs = Some v -> has_key k kvs = true.
Proof. unfold has_key. intros ->. reflexivity. Qed.

Lemma hint_of_reference kvs r required :
  lookup "$ref" kvs = Some (JStr r) ->
  _get_type_hint (JObj kvs) required
  = Ok (mark required (last (split_on "/" r) "")).
Proof.
  intros H. rewrite _get_type_hint_eq. unfold type_hint_body.
  cbn [py_in bind]. rewrite (has_key_Some _ _ _ H). cbn [py_getitem].
  rewrite H. reflexivity.
Qed.

Lemma optional_mark t : optional (Ok (mark true t)) = Ok (mark false t).
Proof. reflexivity. Qed.

Lemma type_hint_body_optional rec schema :
  (forall j, depth j < depth schema -> rec j false = optional (rec j true)) ->
  type_hint_body rec schema false = optional (type_hint_body rec schema true).
Proof.
  intros Hrec. unfold type_hint_body.
  destruct (py_in "$ref" schema) as [[|]|]; cbn [bind]; try reflexivity.
  { destruct (py_getitem schema "$ref") as [r|]; cbn [bind]; [|reflexivity].
    destruct (as_str AttributeError r); reflexivity. }
  destruct (py_in "allOf" schema) as [[|]|]; cbn [bind]; try reflexivity.
  { destruct (py_getitem schema "allOf") as [ms|] eqn:Hms; cbn [bind]; [|reflexivity].
    apply py_getitem_depth in Hms.
    destruct (py_iter ms) as [[|item rest]|] eqn:Hit; cbn [bind]; try reflexivity.
    apply Hrec.
    pose proof (py_iter_depth _ _ item Hit (or_introl eq_refl)). lia. }
  destruct (py_in "oneOf" schema) as [has_oneof|]; cbn [bind]; [|reflexivity].
  destruct (if has_oneof then Ok true else py_in "anyOf" schema) as [[|]|];
    cbn [bind]; try reflexivity.
  { destruct (py_get schema "oneOf" JNull) as [one|]; cbn [bind]; [|reflexivity].
    destruct (if truthy one then Ok one else py_get schema "anyOf" (JArr []))
      as [items|]; cbn [bind]; [|reflexivity].
    destruct (py_iter items) as [xs|]; cbn [bind]; [|reflexivity].
    destruct (mapM (fun item => rec item true) xs); reflexivity. }
  destruct (py_in "type" schema) as [[|]|]; cbn [bind negb]; try reflexivity.
  destruct (py_getitem schema "type") as [ty|] eqn:Hty; cbn [bind]; [|reflexivity].
  destruct (eq_str ty "string").
  { destruct (py_in "enum" schema) as [[|]|]; cbn [bind]; try reflexivity.
    destruct (py_get schema "format" JNull) as [fmt|]; cbn [bind]; [|reflexivity].
    destruct (eq_str fmt "date-time"); [reflexivity|].
    destruct (eq_str fmt "date"); [reflexivity|].
    destruct (eq_str fmt "binary"); reflexivity. }
  destruct (eq_str ty "integer"); [reflexivity|].
  destruct (eq_str ty "number"); [reflexivity|].
  destruct (eq_str ty "boolean"); [reflexivity|].
  destruct (eq_str ty "array").
  { destruct (py_get schema "items" (JObj [])) as [items|]; cbn [bind]; [|reflexivity].
    destruct (rec items true); reflexivity. }
  destruct (eq_str ty "object"); [|reflexivity].
  destruct (py_in "additionalProperties" schema) as [[|]|]; cbn [bind];
    try reflexivity.
  destruct (py_getitem schema "additionalProperties") as [ap|]; cbn [bind];
    [|reflexivity].
  destruct (rec ap true); reflexivity.
Qed.

(** Resolving with [required = false] is resolving with [required = true]
    and appending the marker once, at the end. *)
Lemma hint_optional_outermost schema :
  _get_type_hint schema false = optional (_get_type_hint schema true).
Proof.
  remember (depth schema) as d eqn:Hd. revert schema Hd.
  induction d as [d IH] using lt_wf_ind. intros schema ->.
  rewrite (_get_type_hint_eq schema false), (_get_type_hint_eq schema true).
  apply type_hint_body_optional.
  intros j Hj. exact (IH (depth j) Hj j eq_refl).
Qed.

Lemma hint_of_plain kvs required ty :
  plain_node kvs -> lookup "type" kvs = Some ty ->
  _get_type_hint (JObj kvs) required =
  if eq_str ty "string" then
    if has_key "enum" kvs then Ok (mark required "str")
    else
      fmt <- py_get (JObj kvs) "format" JNull ;;
      if eq_str fmt "date-time" then Ok (mark required "datetime")
      else if eq_str fmt "date" then Ok (mark required "date")
      else if eq_str fmt "binary" then Ok (mark required "bytes")
      else Ok (mark required "str")
  else if eq_str ty "integer" then Ok (mark required "int")
  else if eq_str ty "number" then Ok (mark required "float")
  else if eq_str ty "boolean" then Ok (mark required "bool")
  else if eq_str ty "array" then
    items <- py_get (JObj kvs) "items" (JObj []) ;;
    item_type <- _get_type_hint items true ;;
    Ok (mark required ("list[" ++ item_type ++ "]"))
  else if eq_str ty "object" then
    if has_key "additionalProperties" kvs then
      ap <- py_getitem (JObj kvs) "additionalProperties" ;;
      value_type <- _get_type_hint ap true ;;
      Ok (mark required ("dict[str, " ++ value_type ++ "]"))
    else Ok (mark required "dict[str, Any]")
  else Ok (mark required "Any").
Proof.
  intros (Href & Hall & Hone & Hany) Hty.
  rewrite _get_type_hint_eq. unfold type_hint_body.
  cbn [py_in bind].
  rewrite (has_key_None _ _ Href), (has_key_None _ _ Hall),
    (has_key_None _ _ Hone), (has_key_None _ _ Hany), (has_key_Some _ _ _ Hty).
  cbn [bind negb py_getitem]. rewrite Hty. cbn [bind].
  destruct (eq_str ty "string"); [destruct (has_key "enum" kvs); reflexivity|].
  destruct (eq_str ty "integer"); [reflexivity|].
  destruct (eq_str ty "number"); [reflexivity|].
  destruct (eq_str ty "boolean"); [reflexivity|].
  destruct (eq_str ty "array"); [reflexivity|].
  destruct (eq_str ty "object"); [|reflexivity].
  destruct (has_key "additionalProperties" kvs); reflexivity.
Qed.

Lemma hint_of_union kvs required items :
  lookup "$ref" kvs = None -> lookup "allOf" kvs = None ->
  (lookup "oneOf" kvs = Some (JArr items) /\ items <> [] \/
   lookup "oneOf" kvs = None /\ lookup "anyOf" kvs = Some (JArr items)) ->
  _get_type_hint (JObj kvs) required =
  (types <- mapM (fun item => _get_type_hint item true) items ;;
   Ok (mark required (join " | " types))).
Proof.
  intros Href Hall Hcase.
  rewrite _get_type_hint_eq. unfold type_hint_body. cbn [py_in bind].
  rewrite (has_key_None _ _ Href), (has_key_None _ _ Hall).
  destruct Hcase as [[Hone Hne] | [Hone Hany]].
  - rewrite (has_key_Some _ _ _ Hone). cbn [bind py_get]. rewrite Hone.
    destruct items as [|i r]; [congruence|]. reflexivity.
  - rewrite (has_key_None _ _ Hone), (has_key_Some _ _ _ Hany).
    cbn [bind py_get]. rewrite Hone. cbn [truthy bind]. rewrite Hany.
    reflexivity.
Qed.

Lemma hint_of_composition kvs required members :
  lookup "$ref" kvs = None -> lookup "allOf" kvs = Some (JArr members) ->
  _get_type_hint (JObj kvs) required =
  match members with
  | item :: _ => _get_type_hint item required
  | [] => Ok (mark required "Any")
  end.
Proof.
  intros Href Hall.
  rewrite _get_type_hint_eq. unfold type_hint_body at 1. cbn [py_in bind].
  rewrite (has_key_None _ _ Href), (has_key_Some _ _ _ Hall).
  cbn [py_getitem]. rewrite Hall. reflexivity.
Qed.

(** C7.  A node with a [$ref] key resolves to the last path segment of the
    reference string (the text after its last slash), marked optional when
    [required] is false.  The marker is added once, to the finished type
    string, exactly when [required] is false; the items of an array, the
    values of a map and the members of a union are resolved with
    [required = true]. *)
Theorem reference_name_and_outermost_marker :
  (forall kvs r required,
      lookup "$ref" kvs = Some (JStr r) ->
      _get_type_hint (JObj kvs) required
      = Ok (mark required (last (split_on "/" r) ""))) /\
  (forall pre seg,
      has_char "/" seg = false ->
      last (split_on "/" (pre ++ String "/" seg)) "" = seg) /\
  (forall schema,
      _get_type_hint schema false = optional (_get_type_hint schema true)) /\
  (forall kvs required items,
      plain_node kvs -> lookup "type" kvs = Some (JStr "array") ->
      lookup "items" kvs = Some items ->
      _get_type_hint (JObj kvs) required =
      (item_type <- _get_type_hint items true ;;
       Ok (mark required ("list[" ++ item_type ++ "]")))) /\
  (forall kvs required ap,
      plain_node kvs -> lookup "type" kvs = Some (JStr "object") ->
      lookup "additionalProperties" kvs = Some ap ->
      _get_type_hint (JObj kvs) required =
      (value_type <- _get_type_hint ap true ;;
       Ok (mark required ("dict[str, " ++ value_type ++ "]")))) /\
  (forall kvs required items,
      lookup "$ref" kvs = None -> lookup "allOf" kvs = None ->
      (lookup "oneOf" kvs = Some (JArr items) /\ items <> [] \/
       lookup "oneOf" kvs = None /\ lookup "anyOf" kvs = Some (JArr items)) ->
      _get_type_hint (JObj kvs) required =
      (types <- mapM (fun item => _get_type_hint item true) items ;;
       Ok (mark required (join " | " types)))).
Proof.
  split; [exact hint_of_reference|].
  split; [exact last_segment|].
  split; [exact hint_optional_outermost|].
  split; [|split].
  - intros kvs required items Hplain Hty Hitems.
    rewrite (hint_of_plain kvs required _ Hplain Hty).
    cbn [eq_str String.eqb Ascii.eqb Bool.eqb py_get bind]. rewrite Hitems.
    reflexivity.
  - intros kvs required ap Hplain Hty Hap.
    rewrite (hint_of_plain kvs required _ Hplain Hty).
    cbn [eq_str String.eqb Ascii.eqb Bool.eqb py_getitem bind].
    rewrite (has_key_Some _ _ _ Hap), Hap. reflexivity.
  - exact hint_of_union.
Qed.

(** The reference of the specification's example, optional: the name is
    [Foo] and the marker follows it. *)
Lemma reference_name_and_outermost_marker_witness :
  _get_type_hint (JObj [("$ref", JStr "#/components/schemas/Foo")]) false
  = Ok "Foo | None" /\
  _get_type_hint
    (JObj [("type", JStr "array");
           ("items", JObj [("$ref", JStr "#/components/schemas/Foo")])]) false
  = Ok "list[Foo] | None".
Proof.
  split.
  - exact (proj1 reference_name_and_outermost_marker
             [("$ref", JStr "#/components/schemas/Foo")]
             "#/components/schemas/Foo" false eq_refl).
  - vm_compute. reflexivity.
Defined.

(** C6, as stated, fails on a node that has both keys: the reference is
    tested first, and the node resolves to the referenced name, not to the
    type of the first member of its [allOf] list. *)
Lemma reference_shadows_composition :
  _get_type_hint
    (JObj [("$ref", JStr "#/components/schemas/Foo");
           ("allOf", JArr [JObj [("type", JStr "string")]])]) true
  = Ok "Foo" /\
  _get_type_hint (JObj [("type", JStr "string")]) true = Ok "str".
Proof. split; vm_compute; reflexivity. Qed.

(** C6, amended.  A node with an [allOf] key and no [$ref] key, whose
    [allOf] list is not empty, resolves to the type of the first member of
    the list, resolved with the same [required] flag; the later members are
    not read. *)
Theorem composition_resolves_to_first_member kvs item rest required :
  lookup "$ref" kvs = None ->
  lookup "allOf" kvs = Some (JArr (item :: rest)) ->
  _get_type_hint (JObj kvs) required = _get_type_hint item required.
Proof.
  intros Href Hall. exact (hint_of_composition kvs required _ Href Hall).
Qed.

Lemma composition_resolves_to_first_member_witness :
  _get_type_hint
    (JObj [("allOf", JArr [JObj [("type", JStr "integer")];
                           JObj [("type", JStr "string")]])]) false
  = _get_type_hint (JObj [("type", JStr "integer")]) false /\
  _get_type_hint (JObj [("type", JStr "integer")]) false = Ok "int | None".
Proof.
  split.
  - exact (composition_resolves_to_first_member
             [("allOf", JArr [JObj [("type", JStr "integer")];
                              JObj [("type", JStr "string")]])]
             (JObj [("type", JStr "integer")])
             [JObj [("type", JStr "string")]] false eq_refl eq_refl).
  - vm_compute. reflexivity.
Defined.

(** ** Response type *)

Lemma py_get_obj kvs k d :
  py_get (JObj kvs) k d = Ok (or_default d (lookup k kvs)).
Proof. cbn [py_get]. destruct (lookup k kvs); reflexivity. Qed.

Lemma response_schema_declared rs status schema :
  declares_json rs status schema ->
  response_schema (JObj rs) status = Ok (Some schema).
Proof.
  intros (r & c & m & Hr & Hc & Hm & ->).
  unfold response_schema, json_schema. cbn [py_in bind].
  rewrite (has_key_Some _ _ _ Hr). cbn [py_getitem]. rewrite Hr.
  cbn [bind py_get]. rewrite Hc. cbn [bind py_in].
  rewrite (has_key_Some _ _ _ Hm). cbn [py_getitem]. rewrite Hm.
  cbn [bind py_get]. destruct (lookup "schema" m); reflexivity.
Qed.

Lemma response_schema_none rs status :
  no_json rs status -> response_schema (JObj rs) status = Ok None.
Proof.
  unfold response_schema, json_schema. cbn [py_in bind].
  intros [Habs | (r & Hr & Hcontent)].
  - rewrite (has_key_None _ _ Habs). reflexivity.
  - rewrite (has_key_Some _ _ _ Hr). cbn [py_getitem]. rewrite Hr.
    cbn [bind py_get].
    destruct Hcontent as [Hc | (c & Hc & Hj)]; rewrite Hc; cbn [bind py_in].
    + reflexivity.
    + rewrite (has_key_None _ _ Hj). reflexivity.
Qed.

Lemma scan_responses_skip responses pre rest :
  (forall s, In s pre -> response_schema responses s = Ok None) ->
  scan_responses responses (pre ++ rest)%list = scan_responses responses rest.
Proof.
  induction pre as [|s pre IH]; intros H; [reflexivity|].
  cbn [app scan_responses]. rewrite (H s (or_introl eq_refl)). cbn [bind].
  apply IH. intros s' Hin. apply H. right. exact Hin.
Qed.

(** ** The endpoint of an operation *)

(** What a returned endpoint holds: the results of the three parts of
    [_parse_endpoint] on the operation. *)
Lemma _parse_endpoint_parts spec path method operation tag e :
  _parse_endpoint spec path method operation tag = Ok e ->
  exists okvs params,
    operation = JObj okvs /\
    py_iter (or_default (JArr []) (lookup "parameters" okvs)) = Ok params /\
    parse_parameters spec params = Ok (ep_parameters e) /\
    parse_body operation = Ok (ep_body e) /\
    parse_response_type operation = Ok (ep_response_type e).
Proof.
  unfold _parse_endpoint.
  destruct operation as [| b | z | f | s | xs | okvs];
    try (cbn [py_get bind]; discriminate).
  intros H. invert_bind H. inversion H; subst e.
  cbn [ep_parameters ep_body ep_response_type].
  match goal with
  | Hget : py_get _ "parameters" _ = Ok _ |- _ =>
      rewrite py_get_obj in Hget; inversion Hget; subst
  end.
  exists okvs. eexists. repeat split; eassumption.
Qed.

(** The first parameter that raises ends the run with its exception. *)
Lemma _parse_endpoint_parameter_raises
    spec path method okvs tag name before param after ps err :
  or_default (JStr (method ++ "_" ++ path)) (lookup "operationId" okvs) = JStr name ->
  or_default (JArr []) (lookup "parameters" okvs) = JArr (before ++ param :: after)%list ->
  parse_parameters spec before = Ok ps ->
  parse_param spec param = Raise err ->
  _parse_endpoint spec path method (JObj okvs) tag = Raise err.
Proof.
  intros Hname Hparams Hps Herr. unfold _parse_endpoint.
  rewrite py_get_obj.
  change (or_default (JStr (method ++ String "_" path)) (lookup "operationId" okvs))
    with (or_default (JStr (method ++ "_" ++ path)) (lookup "operationId" okvs)).
  rewrite Hname. cbn [bind as_str].
  rewrite py_get_obj, Hparams. cbn [bind py_iter].
  unfold parse_parameters in *. rewrite mapM_app, Hps. cbn [bind mapM].
  rewrite Herr. reflexivity.
Qed.

(** The operation is read through its keys only. *)
Lemma parse_body_ext okvs okvs' :
  lookup "requestBody" okvs' = lookup "requestBody" okvs ->
  parse_body (JObj okvs') = parse_body (JObj okvs).
Proof.
  intros H. unfold parse_body. cbn [py_in py_getitem]. unfold has_key.
  rewrite H. reflexivity.
Qed.

Lemma parse_response_type_ext okvs okvs' :
  lookup "responses" okvs' = lookup "responses" okvs ->
  parse_response_type (JObj okvs') = parse_response_type (JObj okvs).
Proof.
  intros H. unfold parse_response_type. rewrite !py_get_obj, H. reflexivity.
Qed.

Lemma _parse_endpoint_ext spec path method tag okvs okvs' :
  (forall k, k <> "parameters" -> lookup k okvs' = lookup k okvs) ->
  (params <- py_iter (or_default (JArr []) (lookup "parameters" okvs')) ;;
   parse_parameters spec params)
  = (params <- py_iter (or_default (JArr []) (lookup "parameters" okvs)) ;;
     parse_parameters spec params) ->
  _parse_endpoint spec path method (JObj okvs') tag
  = _parse_endpoint spec path method (JObj okvs) tag.
Proof.
  intros Hsame Hparams. unfold _parse_endpoint.
  rewrite (parse_body_ext okvs okvs'), (parse_response_type_ext okvs okvs')
    by (apply Hsame; discriminate).
  cbn [py_get].
  rewrite !(Hsame "operationId"), !(Hsame "summary"), !(Hsame "description")
    by discriminate.
  destruct (match lookup "operationId" okvs with Some v => Ok v | None => _ end)
    as [oid|]; cbn [bind]; [|reflexivity].
  destruct (as_str TypeError oid) as [name|]; cbn [bind]; [|reflexivity].
  change (match lookup "parameters" okvs' with Some v => Ok v | None => Ok (JArr []) end)
    with (py_get (JObj okvs') "parameters" (JArr [])).
  change (match lookup "parameters" okvs with Some v => Ok v | None => Ok (JArr []) end)
    with (py_get (JObj okvs) "parameters" (JArr [])).
  rewrite !py_get_obj. cbn [bind].
  destruct (py_iter (or_default (JArr []) (lookup "parameters" okvs'))) as [ps'|e'];
    destruct (py_iter (or_default (JArr []) (lookup "parameters" okvs))) as [ps|e0];
    cbn [bind] in Hparams |- *.
  - rewrite Hparams. reflexivity.
  - rewrite Hparams. reflexivity.
  - rewrite <- Hparams. reflexivity.
  - congruence.
Qed.

Lemma Forall2_nth_middle {A B : Type} (R : A -> B -> Prop) before x after ys :
  Forall2 R (before ++ x :: after)%list ys ->
  exists y, nth_error ys (List.length before) = Some y /\ R x y.
Proof.
  intros H. apply Forall2_app_inv_l in H.
  destruct H as (ys1 & ys2 & H1 & H2 & ->).
  inversion H2 as [|? y ? ys2' Hxy _]; subst.
  exists y. split; [|exact Hxy].
  rewrite (Forall2_length H1), nth_error_app2, Nat.sub_diag by apply Nat.le_refl.
  reflexivity.
Qed.

(** The response type computed from the responses [rs] of an operation,
    none when it has no [responses] key. *)
Lemma response_type_of_operation okvs rs :
  or_default (JObj []) (lookup "responses" okvs) = JObj rs ->
  (forall pre status post schema,
      response_statuses = (pre ++ status :: post)%list ->
      (forall s, In s pre -> no_json rs s) ->
      declares_json rs status schema ->
      parse_response_type (JObj okvs) = _get_type_hint schema true) /\
  ((forall s, In s response_statuses -> no_json rs s) ->
   parse_response_type (JObj okvs) = Ok "Any") /\
  (forall schema200 schema201,
      declares_json rs "200" schema200 ->
      declares_json rs "201" schema201 ->
      parse_response_type (JObj okvs) = _get_type_hint schema200 true).
Proof.
  intros Hrs.
  assert (Hparse : parse_response_type (JObj okvs)
                   = scan_responses (JObj rs) response_statuses).
  { unfold parse_response_type. rewrite py_get_obj, Hrs. reflexivity. }
  assert (Hfirst : forall pre status post schema,
             response_statuses = (pre ++ status :: post)%list ->
             (forall s, In s pre -> no_json rs s) ->
             declares_json rs status schema ->
             parse_response_type (JObj okvs) = _get_type_hint schema true).
  { intros pre status post schema Hsplit Hpre Hdecl.
    rewrite Hparse, Hsplit, scan_responses_skip.
    - cbn [scan_responses]. rewrite (response_schema_declared _ _ _ Hdecl).
      reflexivity.
    - intros s Hin. apply response_schema_none. auto. }
  split; [exact Hfirst|]. split.
  - intros Hnone. rewrite Hparse.
    rewrite <- (app_nil_r response_statuses), scan_responses_skip; [reflexivity|].
    intros s Hin. apply response_schema_none. auto.
  - intros schema200 schema201 H200 _.
    apply (Hfirst [] "200" ["201"; "default"] schema200); auto.
    intros s [].
Qed.

(** C2.  The response type that [_parse_endpoint] stores in the endpoint of
    an operation is the type of the JSON schema declared under the first of
    the statuses 200, 201, default (in this order) that the responses
    declare with [application/json] content, resolved with
    [required = true]; when none of the three does, it is [Any]; a 200 with
    JSON content wins over a 201.  The responses [rs] are those of the
    operation, none when it has no [responses] key. *)
Theorem response_type_priority spec path method okvs tag e rs :
  _parse_endpoint spec path method (JObj okvs) tag = Ok e ->
  or_default (JObj []) (lookup "responses" okvs) = JObj rs ->
  (forall pre status post schema,
      response_statuses = (pre ++ status :: post)%list ->
      (forall s, In s pre -> no_json rs s) ->
      declares_json rs status schema ->
      _get_type_hint schema true = Ok (ep_response_type e)) /\
  ((forall s, In s response_statuses -> no_json rs s) ->
   ep_response_type e = "Any") /\
  (forall schema200 schema201,
      declares_json rs "200" schema200 ->
      declares_json rs "201" schema201 ->
      _get_type_hint schema200 true = Ok (ep_response_type e)).
Proof.
  intros He Hrs.
  destruct (_parse_endpoint_parts _ _ _ _ _ _ He)
    as (okvs' & params & Hop & _ & _ & _ & Hresp).
  destruct (response_type_of_operation okvs rs Hrs) as (Hfirst & Hnone & Hwins).
  split; [|split].
  - intros pre status post schema Hsplit Hpre Hdecl.
    rewrite <- Hresp. symmetry. exact (Hfirst pre status post schema Hsplit Hpre Hdecl).
  - intros Hno. rewrite (Hnone Hno) in Hresp. inversion Hresp. reflexivity.
  - intros schema200 schema201 H200 H201.
    rewrite <- Hresp. symmetry. exact (Hwins schema200 schema201 H200 H201).
Qed.

(** An operation that answers 201 before 200 in the document, both with
    JSON content: the response type of its endpoint is the one of the 200. *)
Lemma response_type_priority_witness :
  _parse_endpoint doc_with_parameter "/api/chats/{chatId}" "get"
    (JObj chat_operation) "chats" = Ok get_chat /\
  _get_type_hint (JObj [("$ref", JStr "#/components/schemas/Chat")]) true
  = Ok (ep_response_type get_chat) /\
  ep_response_type get_chat = "Chat".
Proof.
  split; [vm_compute; reflexivity|]. split; [|reflexivity].
  refine (proj2 (proj2 (response_type_priority doc_with_parameter
                          "/api/chats/{chatId}" "get" chat_operation "chats"
                          get_chat created_then_ok eq_refl eq_refl))
            _ (JObj [("type", JStr "integer")]) _ _).
  - eexists _, _, _. repeat split; reflexivity.
  - eexists _, _, _. repeat split; reflexivity.
Defined.

(** ** Parameters *)

Lemma eq_str_true j s : eq_str j s = true <-> j = JStr s.
Proof.
  destruct j as [| b | z | f | s' | xs | kvs]; simpl;
    try (split; [discriminate | intros H; discriminate H]).
  rewrite String.eqb_eq. split; [intros ->; reflexivity | intros H; congruence].
Qed.

Lemma param_property_required target p :
  param_property target = Ok p ->
  exists kvs,
    target = JObj kvs /\
    (lookup "in" kvs = Some (JStr "path") -> prop_required p = JBool true) /\
    (lookup "in" kvs <> Some (JStr "path") ->
     prop_required p = or_default (JBool false) (lookup "required" kvs)).
Proof.
  destruct target as [| b | z | f | s | xs | kvs]; try discriminate.
  intros H. exists kvs. split; [reflexivity|].
  unfold param_property, param_required in H. cbn [py_get bind] in H.
  assert (Hreq : prop_required p =
                 if eq_str (or_default JNull (lookup "in" kvs)) "path"
                 then JBool true
                 else or_default (JBool false) (lookup "required" kvs)).
  { destruct (lookup "schema" kvs), (lookup "required" kvs), (lookup "in" kvs);
      cbn [bind or_default] in H |- *;
      repeat match type of H with
        | bind ?m _ = Ok _ => destruct m; cbn [bind] in H; [|discriminate]
        end;
      inversion H; reflexivity. }
  rewrite Hreq. split.
  - intros ->. reflexivity.
  - intros Hin. destruct (eq_str _ "path") eqn:He; [|reflexivity].
    apply eq_str_true in He. destruct (lookup "in" kvs); simpl in He; congruence.
Qed.

(** The required flag of one parsed parameter, read from the parameter
    object that reference resolution gives. *)
Lemma parse_param_required spec param p :
  parse_param spec param = Ok p ->
  exists kvs,
    resolve_param spec param = Ok (JObj kvs) /\
    (lookup "in" kvs = Some (JStr "path") -> prop_required p = JBool true) /\
    (lookup "in" kvs <> Some (JStr "path") ->
     prop_required p = or_default (JBool false) (lookup "required" kvs)).
Proof.
  unfold parse_param. intros H. apply bind_Ok in H.
  destruct H as (target & Hres & Hprop).
  destruct (param_property_required _ _ Hprop) as (kvs & -> & Hpath & Hother).
  exists kvs. auto.
Qed.

(** C3.  In the endpoint that [_parse_endpoint] returns, the parameters
    correspond one for one to those the operation declares, and a parameter
    located in the path is required, whatever flag it declares; every other
    parameter has the flag it declares, and [false] when it declares none.
    The parameter object is the one read after reference resolution. *)
Theorem path_parameter_required spec path method okvs tag e :
  _parse_endpoint spec path method (JObj okvs) tag = Ok e ->
  exists params,
    py_iter (or_default (JArr []) (lookup "parameters" okvs)) = Ok params /\
    Forall2
      (fun param p =>
         exists kvs,
           resolve_param spec param = Ok (JObj kvs) /\
           (lookup "in" kvs = Some (JStr "path") -> prop_required p = JBool true) /\
           (lookup "in" kvs <> Some (JStr "path") ->
            prop_required p = or_default (JBool false) (lookup "required" kvs)))
      params (ep_parameters e).
Proof.
  intros He.
  destruct (_parse_endpoint_parts _ _ _ _ _ _ He)
    as (okvs' & params & Hop & Hiter & Hparams & _).
  inversion Hop; subst okvs'. exists params. split; [exact Hiter|].
  apply mapM_Ok_Forall2 in Hparams.
  refine (Forall2_impl _ _ Hparams).
  intros param p Hp. exact (parse_param_required spec param p Hp).
Qed.

(** A path parameter that declares [required: false]. *)
Lemma path_parameter_required_witness :
  _parse_endpoint doc_with_parameter "/api/chats/{chatId}" "get"
    (JObj chat_operation_inline) "chats" = Ok get_chat /\
  exists p rest,
    ep_parameters get_chat = p :: rest /\
    lookup "required" [("name", JStr "chatId"); ("in", JStr "path");
                       ("required", JBool false)] = Some (JBool false) /\
    prop_required p = JBool true /\ prop_type_hint p = "str".
Proof.
  split; [vm_compute; reflexivity|].
  destruct (path_parameter_required doc_with_parameter "/api/chats/{chatId}" "get"
              chat_operation_inline "chats" get_chat eq_refl)
    as (params & Hiter & Hall).
  vm_compute in Hiter. inversion Hiter; subst params.
  inversion Hall as [|param p ps rest Hhead Htail]; subst.
  destruct Hhead as (kvs & Hres & Hpath & _).
  eexists _, _. split; [reflexivity|]. split; [reflexivity|].
  split; [|reflexivity].
  apply Hpath. vm_compute in Hres. inversion Hres. reflexivity.
Defined.

Lemma resolve_param_reference spec pkvs r :
  lookup "$ref" pkvs = Some (JStr r) ->
  resolve_param spec (JObj pkvs) = foldM py_getitem spec (tl (split_on "/" r)).
Proof.
  intros H. unfold resolve_param, resolve_ref. cbn [py_in bind].
  rewrite (has_key_Some _ _ _ H). cbn [py_getitem]. rewrite H. reflexivity.
Qed.

Lemma resolve_param_inline spec kvs :
  lookup "$ref" kvs = None -> resolve_param spec (JObj kvs) = Ok (JObj kvs).
Proof.
  intros H. unfold resolve_param. cbn [py_in bind].
  rewrite (has_key_None _ _ H). reflexivity.
Qed.

(** One turn of the parameter loop on a reference and on its target. *)
Lemma parse_param_of_reference spec pkvs r tkvs :
  lookup "$ref" pkvs = Some (JStr r) ->
  foldM py_getitem spec (tl (split_on "/" r)) = Ok (JObj tkvs) ->
  lookup "$ref" tkvs = None ->
  parse_param spec (JObj pkvs) = parse_param spec (JObj tkvs) /\
  forall before after,
    parse_parameters spec (before ++ JObj pkvs :: after)%list
    = parse_parameters spec (before ++ JObj tkvs :: after)%list.
Proof.
  intros Href Hwalk Hinline.
  assert (Hone : parse_param spec (JObj pkvs) = parse_param spec (JObj tkvs)).
  { unfold parse_param.
    rewrite (resolve_param_reference spec pkvs r Href), Hwalk.
    rewrite (resolve_param_inline spec tkvs Hinline). reflexivity. }
  split; [exact Hone|].
  intros before after. unfold parse_parameters.
  rewrite !mapM_app. cbn [mapM]. rewrite Hone. reflexivity.
Qed.

(** C8.  An operation that declares a parameter by a reference whose path
    leads, from the document root, to a parameter object that is not itself
    a reference has the endpoint (or raises the exception) of the same
    operation with the referenced object written inline at that position;
    the parameter of the returned endpoint at that position is the
    [PropertyInfo] built from the referenced object. *)
Theorem referenced_parameter_as_inline
    spec path method okvs tag before pkvs after r tkvs :
  lookup "parameters" okvs = Some (JArr (before ++ JObj pkvs :: after)%list) ->
  lookup "$ref" pkvs = Some (JStr r) ->
  foldM py_getitem spec (tl (split_on "/" r)) = Ok (JObj tkvs) ->
  lookup "$ref" tkvs = None ->
  (forall okvs',
      lookup "parameters" okvs' = Some (JArr (before ++ JObj tkvs :: after)%list) ->
      (forall k, k <> "parameters" -> lookup k okvs' = lookup k okvs) ->
      _parse_endpoint spec path method (JObj okvs) tag
      = _parse_endpoint spec path method (JObj okvs') tag) /\
  (forall e,
      _parse_endpoint spec path method (JObj okvs) tag = Ok e ->
      exists p,
        nth_error (ep_parameters e) (List.length before) = Some p /\
        param_property (JObj tkvs) = Ok p).
Proof.
  intros Hparams Href Hwalk Hinline.
  destruct (parse_param_of_reference spec pkvs r tkvs Href Hwalk Hinline)
    as [Hone Hlist].
  split.
  - intros okvs' Hparams' Hsame. symmetry.
    apply _parse_endpoint_ext; [exact Hsame|].
    rewrite Hparams, Hparams'. cbn [or_default py_iter bind].
    symmetry. apply Hlist.
  - intros e He.
    destruct (_parse_endpoint_parts _ _ _ _ _ _ He)
      as (okvs' & params & Hop & Hiter & Hps & _).
    inversion Hop; subst okvs'. rewrite Hparams in Hiter.
    cbn [or_default py_iter] in Hiter. inversion Hiter; subst params.
    apply mapM_Ok_Forall2 in Hps.
    destruct (Forall2_nth_middle _ _ _ _ _ Hps) as (p & Hnth & Hp).
    exists p. split; [exact Hnth|].
    rewrite Hone in Hp. unfold parse_param in Hp.
    rewrite (resolve_param_inline spec tkvs Hinline) in Hp. exact Hp.
Qed.

(** The operation [getChat] with its path parameter by reference and
    inline. *)
Lemma referenced_parameter_as_inline_witness :
  _parse_endpoint doc_with_parameter "/api/chats/{chatId}" "get"
    (JObj chat_operation) "chats" = Ok get_chat /\
  _parse_endpoint doc_with_parameter "/api/chats/{chatId}" "get"
    (JObj chat_operation) "chats"
  = _parse_endpoint doc_with_parameter "/api/chats/{chatId}" "get"
      (JObj chat_operation_inline) "chats" /\
  exists p,
    nth_error (ep_parameters get_chat) 0 = Some p /\
    param_property chat_id_param = Ok p /\
    prop_name p = "chatId" /\ prop_python_name p = "chat_id".
Proof.
  split; [vm_compute; reflexivity|].
  destruct (referenced_parameter_as_inline doc_with_parameter
              "/api/chats/{chatId}" "get" chat_operation "chats" []
              [("$ref", JStr "#/components/parameters/ChatId")] [from_param]
              "#/components/parameters/ChatId"
              [("name", JStr "chatId"); ("in", JStr "path");
               ("required", JBool false)]
              eq_refl eq_refl eq_refl eq_refl) as [Hsame Hparam].
  split.
  - apply Hsame; [reflexivity|]. intros k Hk.
    unfold chat_operation_inline, chat_operation. cbn [lookup].
    destruct (String.eqb "operationId" k); [reflexivity|].
    destruct (String.eqb "parameters" k) eqn:Hp; [|reflexivity].
    apply String.eqb_eq in Hp. congruence.
  - destruct (Hparam get_chat eq_refl) as (p & Hnth & Hp).
    exists p. split; [exact Hnth|]. split; [exact Hp|].
    cbn in Hnth. inversion Hnth. split; reflexivity.
Defined.

(** ** Properties of a schema *)

Lemma _parse_property_Ok name schema required p :
  _parse_property name schema required = Ok p ->
  prop_name p = name /\
  prop_python_name p = property_python_name name /\
  _get_type_hint schema required = Ok (prop_type_hint p) /\
  prop_required p = JBool required.
Proof.
  unfold _parse_property. intros H.
  destruct (_get_type_hint schema required) as [t|]; cbn [bind] in H; [|discriminate].
  destruct (py_get schema "default" JNull); cbn [bind] in H; [|discriminate].
  destruct (py_get schema "description" (JStr "")); cbn [bind] in H; [|discriminate].
  destruct (py_get schema "enum" JNull); cbn [bind] in H; [|discriminate].
  inversion H; subst; cbn. auto.
Qed.

Lemma parse_properties_Ok required_fields properties ps :
  parse_properties required_fields properties = Ok ps ->
  map prop_name ps = map fst properties /\
  Forall (fun p => prop_required p
                   = JBool (in_set (prop_name p) required_fields)) ps.
Proof.
  unfold parse_properties. intros H. apply mapM_Ok_Forall2 in H.
  induction H as [|kv p kvs ps Hp _ IH]; [split; constructor|].
  apply _parse_property_Ok in Hp. destruct Hp as (Hn & _ & _ & Hr).
  destruct IH as [IHn IHr]. split.
  - cbn [map]. rewrite Hn, IHn. reflexivity.
  - constructor; [rewrite Hr, Hn; reflexivity | exact IHr].
Qed.

Lemma py_get_Ok_obj j k d v : py_get j k d = Ok v -> exists kvs, j = JObj kvs.
Proof.
  destruct j as [| b | z | f | s | xs | kvs]; try discriminate.
  intros _. exists kvs. reflexivity.
Qed.

Lemma truthy_obj kvs : truthy (JObj kvs) = true <-> kvs <> [].
Proof.
  destruct kvs; cbn; split; intros H; congruence.
Qed.

(** ** Entities *)

(** C9, as stated, fails on a schema whose [allOf] member requires one of
    the schema's own properties: the model reads the union of the required
    lists and makes [size] required, the entity reads the schema's own list
    only and makes it optional. *)
Lemma entity_ignores_member_required_lists :
  model_properties_of (JObj group_schema) = Ok group_model_properties /\
  parse_entity "GroupInfo" (JObj group_schema) = Ok (Some group_entity).
Proof. split; vm_compute; reflexivity. Qed.

(** C9, amended.  An [EntityInfo] comes from a schema whose extension
    payload is a non-empty dict.  Its class name is the payload's
    [class_name] when given, else the Pascal-cased schema name.  Its
    properties are those of the schema's own [properties], in order, each
    parsed by [_parse_property] and required exactly when its name is in the
    schema's own [required] list; members of [allOf] contribute neither
    properties nor required names, and on a schema without [allOf] the list
    is the one of the model. *)
Theorem entity_view name schema e :
  parse_entity name schema = Ok (Some e) ->
  exists kvs ckvs required_fields own,
    schema = JObj kvs /\
    lookup entity_key kvs = Some (JObj ckvs) /\ ckvs <> [] /\
    entity_name e = or_default (JStr (pascal_case name)) (lookup "class_name" ckvs) /\
    entity_schema_name e = name /\
    py_set (or_default (JArr []) (lookup "required" kvs)) = Ok required_fields /\
    py_items (or_default (JObj []) (lookup "properties" kvs)) = Ok own /\
    parse_properties required_fields own = Ok (entity_properties e) /\
    map prop_name (entity_properties e) = map fst own /\
    Forall (fun p => prop_required p
                     = JBool (in_set (prop_name p) required_fields))
      (entity_properties e) /\
    (lookup "allOf" kvs = None ->
     model_properties_of (JObj kvs) = Ok (entity_properties e)).
Proof.
  unfold parse_entity. intros H.
  destruct (py_get schema entity_key JNull) as [cfg|] eqn:Hcfg;
    cbn [bind] in H; [|discriminate].
  destruct (py_get_Ok_obj _ _ _ _ Hcfg) as [kvs ->].
  rewrite py_get_obj in Hcfg.
  destruct (truthy cfg) eqn:Htruthy; cbn [negb] in H; [|discriminate].
  destruct (py_get cfg "class_name" (JStr (pascal_case name))) as [cn|] eqn:Hcn;
    cbn [bind] in H; [|discriminate].
  destruct (py_get_Ok_obj _ _ _ _ Hcn) as [ckvs ->].
  rewrite py_get_obj in Hcn.
  assert (Hlookup : lookup entity_key kvs = Some (JObj ckvs)).
  { destruct (lookup entity_key kvs) as [c|]; cbn [or_default] in Hcfg;
      [congruence | discriminate]. }
  rewrite !py_get_obj in H. cbn [bind] in H.
  destruct (py_set (or_default (JArr []) (lookup "required" kvs)))
    as [required_fields|] eqn:Hreq; cbn [bind] in H; [|discriminate].
  destruct (py_items (or_default (JObj []) (lookup "properties" kvs)))
    as [own|] eqn:Hown; cbn [bind] in H; [|discriminate].
  destruct (parse_properties required_fields own) as [ps|] eqn:Hps;
    cbn [bind] in H; [|discriminate].
  inversion H; subst e; clear H.
  cbn [entity_name entity_schema_name entity_properties].
  destruct (parse_properties_Ok _ _ _ Hps) as [Hnames Hflags].
  exists kvs, ckvs, required_fields, own.
  split; [reflexivity|]. split; [exact Hlookup|].
  split; [apply truthy_obj; exact Htruthy|].
  split; [congruence|]. split; [reflexivity|].
  split; [exact Hreq|]. split; [exact Hown|].
  split; [exact Hps|]. split; [exact Hnames|]. split; [exact Hflags|].
  intros Hall. unfold model_properties_of.
  rewrite !py_get_obj. cbn [bind]. rewrite Hreq. cbn [bind py_in].
  rewrite (has_key_None _ _ Hall). cbn [bind]. rewrite Hown. cbn [bind].
  rewrite Hps. reflexivity.
Qed.

Lemma entity_view_witness :
  parse_entity "GroupInfo" (JObj group_schema) = Ok (Some group_entity) /\
  parse_entity "chat-summary_v2" (JObj [("x-waha-entity", JObj [("wrap", JBool true)])])
  = Ok (Some (mkEntity (JStr "ChatSummaryV2") "chat-summary_v2" [] (JStr ""))) /\
  exists kvs ckvs required_fields own,
    JObj group_schema = JObj kvs /\
    lookup entity_key kvs = Some (JObj ckvs) /\ ckvs <> [] /\
    entity_name group_entity
    = or_default (JStr (pascal_case "GroupInfo")) (lookup "class_name" ckvs) /\
    entity_schema_name group_entity = "GroupInfo" /\
    py_set (or_default (JArr []) (lookup "required" kvs)) = Ok required_fields /\
    py_items (or_default (JObj []) (lookup "properties" kvs)) = Ok own /\
    parse_properties required_fields own = Ok (entity_properties group_entity) /\
    map prop_name (entity_properties group_entity) = map fst own /\
    Forall (fun p => prop_required p
                     = JBool (in_set (prop_name p) required_fields))
      (entity_properties group_entity) /\
    (lookup "allOf" kvs = None ->
     model_properties_of (JObj kvs) = Ok (entity_properties group_entity)).
Proof.
  split; [vm_compute; reflexivity|].
  split; [vm_compute; reflexivity|].
  exact (entity_view "GroupInfo" (JObj group_schema) group_entity eq_refl).
Defined.

Lemma parse_entity_schema_name name schema e :
  parse_entity name schema = Ok (Some e) -> entity_schema_name e = name.
Proof.
  unfold parse_entity. intros H. invert_bind H.
  match type of H with
  | (if ?b then _ else _) = _ => destruct b; [discriminate H|]
  end.
  invert_bind H. inversion H. reflexivity.
Qed.

Lemma parse_entity_falsy name kvs cfg :
  lookup entity_key kvs = Some cfg -> truthy cfg = false ->
  parse_entity name (JObj kvs) = Ok None.
Proof.
  intros Hcfg Hfalsy. unfold parse_entity. rewrite py_get_obj, Hcfg.
  cbn [or_default bind]. rewrite Hfalsy. reflexivity.
Qed.

Lemma somes_In {A : Type} (l : list (option A)) (a : A) :
  In a (somes l) <-> In (Some a) l.
Proof.
  unfold somes. rewrite in_flat_map. split.
  - intros ([x|] & Hin & Hx); cbn in Hx; [|tauto].
    destruct Hx as [->|[]]. exact Hin.
  - intros Hin. exists (Some a). split; [exact Hin | left; reflexivity].
Qed.

Lemma Forall2_In_r {A B : Type} (R : A -> B -> Prop) (l : list A) (l' : list B) y :
  Forall2 R l l' -> In y l' -> exists x, In x l /\ R x y.
Proof.
  induction 1 as [|x y' l l' Hxy _ IH]; [intros []|].
  intros [->|Hin].
  - exists x. split; [left; reflexivity | exact Hxy].
  - destruct (IH Hin) as (x' & Hx' & HR). exists x'. split; [right|]; assumption.
Qed.

Lemma NoDup_keys_functional {A B : Type} (l : list (A * B)) k v1 v2 :
  NoDup (map fst l) -> In (k, v1) l -> In (k, v2) l -> v1 = v2.
Proof.
  induction l as [|[k' v'] r IH]; [intros _ []|].
  cbn [map fst]. intros Hnd H1 H2. inversion Hnd as [|? ? Hnotin Hnd']; subst.
  destruct H1 as [H1|H1], H2 as [H2|H2].
  - congruence.
  - inversion H1; subst. exfalso. apply Hnotin.
    apply in_map_iff. exists (k, v2). auto.
  - inversion H2; subst. exfalso. apply Hnotin.
    apply in_map_iff. exists (k, v1). auto.
  - exact (IH Hnd' H1 H2).
Qed.

(** C10.  A schema whose extension key maps to a falsy payload (an empty
    object, [null], [false], zero, an empty string or list) is skipped: the
    loop body returns no entity, and no entity of the parsed document bears
    the name of such a schema (schema names are distinct, as the keys of a
    decoded dict are). *)
Theorem falsy_extension_yields_no_entity :
  (forall name kvs cfg,
      lookup entity_key kvs = Some cfg -> truthy cfg = false ->
      parse_entity name (JObj kvs) = Ok None) /\
  (forall spec schemas entities name kvs cfg,
      schemas_of spec = Ok schemas -> NoDup (map fst schemas) ->
      In (name, JObj kvs) schemas ->
      lookup entity_key kvs = Some cfg -> truthy cfg = false ->
      _parse_entities spec = Ok entities ->
      forall e, In e entities -> entity_schema_name e <> name).
Proof.
  split; [exact parse_entity_falsy|].
  intros spec schemas entities name kvs cfg Hs Hnd Hin Hcfg Hfalsy Hparse e He Hname.
  unfold _parse_entities in Hparse. rewrite Hs in Hparse. cbn [bind] in Hparse.
  invert_bind Hparse. inversion Hparse; subst entities; clear Hparse.
  apply somes_In in He. apply mapM_Ok_Forall2 in E.
  destruct (Forall2_In_r _ _ _ _ E He) as ([n s] & Hns & Hent).
  cbn [fst snd] in Hent.
  pose proof (parse_entity_schema_name _ _ _ Hent) as Hn.
  rewrite Hname in Hn. clear Hname. subst n.
  rewrite (NoDup_keys_functional _ _ _ _ Hnd Hns Hin) in Hent.
  rewrite (parse_entity_falsy name kvs cfg Hcfg Hfalsy) in Hent. discriminate.
Qed.

(** Of the two schemas of [doc_with_entities], the one with the empty
    payload yields no entity. *)
Lemma falsy_extension_yields_no_entity_witness :
  parse_entity "chat_summary" (JObj unmarked_schema) = Ok None /\
  _parse_entities doc_with_entities = Ok [group_entity].
Proof.
  split.
  - exact (proj1 falsy_extension_yields_no_entity "chat_summary"
             unmarked_schema (JObj []) eq_refl eq_refl).
  - vm_compute. reflexivity.
Defined.

(** ** Identifiers *)

Lemma has_alnum_nonempty s : has_alnum s = true -> s <> "".
Proof. intros H ->. discriminate H. Qed.

Lemma is_alnum_word c : is_alnum c = true -> is_word c = true.
Proof. unfold is_alnum, is_word. intros ->. reflexivity. Qed.

Lemma is_alnum_underscore : is_alnum "_" = false.
Proof. reflexivity. Qed.

Lemma is_alnum_lower_char c : is_alnum (lower_char c) = is_alnum c.
Proof.
  destruct c as [[|] [|] [|] [|] [|] [|] [|] [|]]; reflexivity.
Qed.

Lemma has_alnum_sub_acronym n : forall s run,
  String.length s <= n -> has_alnum (sub_acronym run s) = has_alnum s.
Proof.
  induction n as [|n IH]; intros s run Hlen.
  - destruct s; [reflexivity | cbn in Hlen; lia].
  - destruct s as [|c t]; [reflexivity|]. cbn [String.length] in Hlen.
    cbn [sub_acronym].
    destruct (run && is_lower c).
    + cbn [has_alnum]. rewrite IH by lia. reflexivity.
    + destruct t as [|u [|l t3]].
      * reflexivity.
      * reflexivity.
      * destruct (is_dot c && is_upper u && is_lower l).
        -- cbn [has_alnum]. rewrite is_alnum_underscore.
           rewrite IH by (cbn [String.length] in *; lia). reflexivity.
        -- cbn [has_alnum]. rewrite IH by (cbn [String.length] in *; lia).
           reflexivity.
Qed.

Lemma sub_camel_cons c t :
  sub_camel (String c t) =
  match t with
  | String u t2 =>
      if (is_lower c || is_digit c) && is_upper u
      then String c (String "_" (String u (sub_camel t2)))
      else String c (sub_camel t)
  | EmptyString => String c EmptyString
  end.
Proof. destruct t; reflexivity. Qed.

Lemma has_alnum_sub_camel n : forall s,
  String.length s <= n -> has_alnum (sub_camel s) = has_alnum s.
Proof.
  induction n as [|n IH]; intros s Hlen.
  - destruct s; [reflexivity | cbn in Hlen; lia].
  - destruct s as [|c t]; [reflexivity|].
    cbn [String.length] in Hlen. rewrite sub_camel_cons.
    destruct t as [|u t2]; [reflexivity|].
    destruct ((is_lower c || is_digit c) && is_upper u).
    + cbn [has_alnum String.length] in *. rewrite is_alnum_underscore.
      rewrite IH by lia. reflexivity.
    + cbn [has_alnum]. rewrite IH by lia. reflexivity.
Qed.

Lemma has_alnum_sub_nonword s : forall run,
  has_alnum (sub_nonword run s) = has_alnum s.
Proof.
  induction s as [|c t IH]; intros run; [reflexivity|].
  cbn [sub_nonword has_alnum].
  destruct (is_word c) eqn:Hw.
  - cbn [has_alnum]. rewrite IH. reflexivity.
  - assert (Ha : is_alnum c = false).
    { destruct (is_alnum c) eqn:Ha; [|reflexivity].
      apply is_alnum_word in Ha. congruence. }
    rewrite Ha. destruct run; [apply IH|].
    cbn [has_alnum]. rewrite is_alnum_underscore. apply IH.
Qed.

Lemma has_alnum_lower s : has_alnum (lower s) = has_alnum s.
Proof.
  induction s as [|c t IH]; [reflexivity|].
  cbn [lower map_string has_alnum]. fold (lower t).
  rewrite is_alnum_lower_char, IH. reflexivity.
Qed.

Section Strip.

Variable p : ascii -> bool.
Hypothesis p_not_alnum : forall c, p c = true -> is_alnum c = false.

Lemma has_alnum_lstrip s : has_alnum (lstrip p s) = has_alnum s.
Proof.
  induction s as [|c t IH]; [reflexivity|].
  cbn [lstrip]. destruct (p c) eqn:Hp; [|reflexivity].
  cbn [has_alnum]. rewrite (p_not_alnum c Hp). exact IH.
Qed.

Lemma has_alnum_rstrip s : has_alnum (rstrip p s) = has_alnum s.
Proof.
  induction s as [|c t IH]; [reflexivity|].
  cbn [rstrip has_alnum]. rewrite <- IH.
  destruct (rstrip p t) as [|c' t'].
  - destruct (p c) eqn:Hp.
    + rewrite (p_not_alnum c Hp). reflexivity.
    + reflexivity.
  - reflexivity.
Qed.

Lemma has_alnum_strip s : has_alnum (strip p s) = has_alnum s.
Proof. unfold strip. rewrite has_alnum_rstrip. apply has_alnum_lstrip. Qed.

End Strip.

Lemma has_alnum_filter p s :
  (forall c, is_alnum c = true -> p c = true) ->
  has_alnum (filter_string p s) = has_alnum s.
Proof.
  intros Hp. induction s as [|c t IH]; [reflexivity|].
  cbn [filter_string has_alnum]. destruct (p c) eqn:Hpc.
  - cbn [has_alnum]. rewrite IH. reflexivity.
  - destruct (is_alnum c) eqn:Ha; [|exact IH].
    rewrite (Hp c Ha) in Hpc. discriminate.
Qed.

Lemma underscore_not_alnum c : is_underscore c = true -> is_alnum c = false.
Proof.
  destruct c as [[|] [|] [|] [|] [|] [|] [|] [|]]; cbn; intros H;
    first [reflexivity | discriminate H].
Qed.

Lemma space_not_alnum c : is_space c = true -> is_alnum c = false.
Proof.
  destruct c as [[|] [|] [|] [|] [|] [|] [|] [|]]; cbn; intros H;
    first [reflexivity | discriminate H].
Qed.

Lemma has_alnum_snake_case s : has_alnum (snake_case s) = has_alnum s.
Proof.
  unfold snake_case.
  rewrite (has_alnum_strip _ underscore_not_alnum), has_alnum_lower,
    has_alnum_sub_nonword.
  rewrite (has_alnum_sub_camel _ _ (le_n _)).
  apply (has_alnum_sub_acronym _ _ _ (le_n _)).
Qed.

Lemma has_alnum_stripped name : has_alnum (stripped name) = has_alnum name.
Proof.
  unfold stripped. rewrite (has_alnum_strip _ space_not_alnum).
  apply has_alnum_filter. intros c Hc. unfold is_kept.
  rewrite (is_alnum_word c Hc). reflexivity.
Qed.

Lemma sanitize_name_fallback name :
  stripped name = "" -> sanitize_name name = "default".
Proof.
  unfold sanitize_name. fold (stripped name). intros ->. reflexivity.
Qed.

Lemma sanitize_name_alnum name :
  has_alnum name = true -> sanitize_name name <> "".
Proof.
  intros H. unfold sanitize_name. fold (stripped name).
  rewrite <- has_alnum_stripped in H.
  destruct (String.eqb (stripped name) "") eqn:He.
  - apply String.eqb_eq in He. rewrite He in H. discriminate H.
  - apply has_alnum_nonempty. rewrite has_alnum_snake_case. exact H.
Qed.

Lemma append_nonempty s t : s <> "" -> s ++ t <> "".
Proof. destruct s; [congruence | discriminate]. Qed.

Lemma reserved_with_marker s :
  is_reserved s = true -> is_reserved (s ++ "_") = false.
Proof.
  unfold is_reserved. intros H. apply existsb_exists in H.
  destruct H as (w & Hin & Heq). apply String.eqb_eq in Heq. subst w.
  cbn in Hin.
  repeat (destruct Hin as [<-|Hin]; [reflexivity|]). destruct Hin.
Qed.

(** C5, as stated, fails twice: a tag made of a hyphen survives the
    stripping, so that the fallback is not taken, and snake-casing then
    empties it; a property named by an underscore has an empty
    identifier. *)
Lemma identifiers_can_be_empty :
  sanitize_name "-" = "" /\ property_python_name "_" = "".
Proof. split; reflexivity. Qed.

(** C5, amended.  [sanitize_name] returns a non-empty identifier for every
    input that contains a letter or a digit, and for every input whose
    stripped form is empty, where it returns the fallback [default]; the
    identifier of a property whose name contains a letter or a digit is
    non-empty; the identifier of a property is never a reserved word, a
    collision being marked by a trailing underscore. *)
Theorem sanitized_identifiers name :
  (has_alnum name = true \/ stripped name = "" -> sanitize_name name <> "") /\
  (stripped name = "" -> sanitize_name name = "default") /\
  (has_alnum name = true -> property_python_name name <> "") /\
  is_reserved (property_python_name name) = false /\
  (is_reserved (snake_case name) = true ->
   property_python_name name = snake_case name ++ "_").
Proof.
  split; [|split; [|split; [|split]]].
  - intros [H|H]; [exact (sanitize_name_alnum name H)|].
    rewrite (sanitize_name_fallback name H). discriminate.
  - exact (sanitize_name_fallback name).
  - intros H. unfold property_python_name.
    assert (Hne : snake_case name <> "").
    { apply has_alnum_nonempty. rewrite has_alnum_snake_case. exact H. }
    destruct (is_reserved (snake_case name)); [apply append_nonempty|]; exact Hne.
  - unfold property_python_name.
    destruct (is_reserved (snake_case name)) eqn:Hr; [|exact Hr].
    exact (reserved_with_marker _ Hr).
  - unfold property_python_name. intros ->. reflexivity.
Qed.

Lemma sanitized_identifiers_witness :
  sanitize_name "!?" = "default" /\
  sanitize_name "Chatting & Groups!" = "chatting__groups" /\
  property_python_name "from" = "from_" /\
  is_reserved (property_python_name "Type") = false.
Proof.
  split; [|split; [|split]].
  - exact (proj1 (proj2 (sanitized_identifiers "!?")) eq_refl).
  - reflexivity.
  - exact (proj2 (proj2 (proj2 (proj2 (sanitized_identifiers "from")))) eq_refl).
  - exact (proj1 (proj2 (proj2 (proj2 (sanitized_identifiers "Type"))))).
Defined.

(** ** Endpoints *)

Lemma foldM_preserves {A S : Type} (f : S -> A -> result S) (P : S -> Prop) :
  (forall st x st', f st x = Ok st' -> P st -> P st') ->
  forall l st st', foldM f st l = Ok st' -> P st -> P st'.
Proof.
  intros Hstep. induction l as [|x r IH]; cbn [foldM]; intros st st' H HP.
  - inversion H; subst. exact HP.
  - apply bind_Ok in H. destruct H as (st1 & Hx & Hr).
    exact (IH st1 st' Hr (Hstep st x st1 Hx HP)).
Qed.

Lemma foldM_establishes {A S : Type} (f : S -> A -> result S) (P : S -> Prop) x :
  (forall st st', f st x = Ok st' -> P st') ->
  (forall st y st', f st y = Ok st' -> P st -> P st') ->
  forall l st st', In x l -> foldM f st l = Ok st' -> P st'.
Proof.
  intros Hnew Hstep. induction l as [|y r IH]; cbn [foldM]; intros st st' Hin H.
  - destruct Hin.
  - apply bind_Ok in H. destruct H as (st1 & Hy & Hr).
    destruct Hin as [->|Hin].
    + exact (foldM_preserves f P Hstep r st1 st' Hr (Hnew st st1 Hy)).
    + exact (IH st1 st' Hin Hr).
Qed.

Lemma endpoints_of_app tag m tag' l :
  endpoints_of tag (m ++ [(tag', l)])%list =
  match endpoints_of tag m with
  | Some l0 => Some l0
  | None => if String.eqb tag' tag then Some l else None
  end.
Proof.
  induction m as [|[t l0] r IH]; cbn [app endpoints_of]; [reflexivity|].
  destruct (String.eqb t tag); [reflexivity | exact IH].
Qed.

Lemma endpoints_of_ensure_same tag m :
  exists l, endpoints_of tag (ensure_tag tag m) = Some l.
Proof.
  unfold ensure_tag. destruct (endpoints_of tag m) as [l|] eqn:H.
  - exists l. exact H.
  - exists []. rewrite endpoints_of_app, H, String.eqb_refl. reflexivity.
Qed.

Lemma endpoints_of_ensure_mono t tag m l :
  endpoints_of t m = Some l -> endpoints_of t (ensure_tag tag m) = Some l.
Proof.
  intros H. unfold ensure_tag. destruct (endpoints_of tag m); [exact H|].
  rewrite endpoints_of_app, H. reflexivity.
Qed.

Lemma endpoints_of_append t tag e m :
  endpoints_of t (append_endpoint tag e m) =
  match endpoints_of t m with
  | Some l => Some (if String.eqb t tag then (l ++ [e])%list else l)
  | None => None
  end.
Proof.
  induction m as [|[t' l'] r IH]; [reflexivity|].
  cbn [append_endpoint]. destruct (String.eqb t' tag) eqn:Htag.
  - cbn [endpoints_of]. destruct (String.eqb t' t) eqn:Ht.
    + apply String.eqb_eq in Htag, Ht. subst. rewrite String.eqb_refl.
      reflexivity.
    + destruct (endpoints_of t r) as [l|] eqn:Hr; [|reflexivity].
      (* a later binding of [tag] is not reached: dict keys are distinct,
         and [append_endpoint] stops at the first one *)
      destruct (String.eqb t tag) eqn:Htt; [|reflexivity].
      apply String.eqb_eq in Htag, Htt. subst.
      rewrite String.eqb_refl in Ht. discriminate.
  - cbn [endpoints_of]. destruct (String.eqb t' t) eqn:Ht.
    + apply String.eqb_eq in Ht. subst. rewrite Htag. reflexivity.
    + exact IH.
Qed.

Lemma registered_step_mono e0 tag e m :
  registered e0 m -> registered e0 (append_endpoint tag e (ensure_tag tag m)).
Proof.
  intros (l & Hl & Hin). unfold registered.
  rewrite endpoints_of_append, (endpoints_of_ensure_mono _ tag _ _ Hl).
  eexists. split; [reflexivity|].
  destruct (String.eqb (ep_tag e0) tag); [apply in_or_app; left|]; exact Hin.
Qed.

Lemma registered_step_new e m :
  registered e (append_endpoint (ep_tag e) e (ensure_tag (ep_tag e) m)).
Proof.
  unfold registered. rewrite endpoints_of_append.
  destruct (endpoints_of_ensure_same (ep_tag e) m) as [l ->].
  rewrite String.eqb_refl. eexists. split; [reflexivity|].
  apply in_or_app. right. left. reflexivity.
Qed.

Lemma _parse_endpoint_Ok spec path method operation tag e :
  _parse_endpoint spec path method operation tag = Ok e ->
  ep_tag e = tag /\ ep_path e = path /\ ep_method e = upper method.
Proof.
  unfold _parse_endpoint. intros H. invert_bind H. inversion H. auto.
Qed.

Lemma parse_operation_mono spec path path_item method m m' e0 :
  parse_operation spec path path_item m method = Ok m' ->
  registered e0 m -> registered e0 m'.
Proof.
  unfold parse_operation. intros H Hreg.
  destruct (py_in method path_item) as [[|]|]; cbn [bind negb] in H;
    try discriminate.
  - invert_bind H. inversion H; subst. apply registered_step_mono. exact Hreg.
  - inversion H; subst. exact Hreg.
Qed.

Lemma parse_operation_new spec path pkvs method operation m m' :
  lookup method pkvs = Some operation ->
  parse_operation spec path (JObj pkvs) m method = Ok m' ->
  parsed_operation spec path pkvs method m'.
Proof.
  intros Hop H. unfold parse_operation in H. cbn [py_in bind] in H.
  rewrite (has_key_Some _ _ _ Hop) in H. cbn [negb py_getitem] in H.
  rewrite Hop in H. cbn [bind] in H. invert_bind H. inversion H; subst m'.
  match goal with
  | Hp : _parse_endpoint _ _ _ _ ?t = Ok ?e |- _ =>
      destruct (_parse_endpoint_Ok _ _ _ _ _ _ Hp) as (Htag & _ & _);
      exists operation, e; rewrite Htag;
      repeat split; try assumption;
      rewrite <- Htag; apply registered_step_new
  end.
Qed.

Lemma parsed_operation_mono spec path pkvs method path' item' method' m m' :
  parse_operation spec path' item' m method' = Ok m' ->
  parsed_operation spec path pkvs method m ->
  parsed_operation spec path pkvs method m'.
Proof.
  intros H (operation & e & Hop & Htag & He & Hreg).
  exists operation, e. repeat split; try assumption.
  exact (parse_operation_mono _ _ _ _ _ _ _ H Hreg).
Qed.

Lemma parse_path_mono spec path pkvs method entry m m' :
  parse_path spec m entry = Ok m' ->
  parsed_operation spec path pkvs method m ->
  parsed_operation spec path pkvs method m'.
Proof.
  unfold parse_path. intros H.
  apply (foldM_preserves _ (parsed_operation spec path pkvs method)) with (1 := fun st x st' Hx => parsed_operation_mono _ _ _ _ _ _ _ _ _ Hx) (2 := H).
Qed.

Lemma operation_tag_default okvs :
  lookup "tags" okvs = None -> operation_tag (JObj okvs) = Ok "default".
Proof.
  intros H. unfold operation_tag. rewrite py_get_obj, H. reflexivity.
Qed.

Lemma operation_tag_first okvs first rest :
  lookup "tags" okvs = Some (JArr (JStr first :: rest)) ->
  operation_tag (JObj okvs) = Ok (sanitize_name first).
Proof.
  intros H. unfold operation_tag. rewrite py_get_obj, H. reflexivity.
Qed.

(** C4, as stated, fails on a verb outside the five that the parser scans:
    a path that declares only a HEAD operation yields no endpoint. *)
Lemma head_operation_is_not_parsed :
  existsb (String.eqb "head") openapi_verbs = true /\
  lookup "head" [("head", sessions_head)] = Some sessions_head /\
  _parse_endpoints doc_with_head = Ok [].
Proof. repeat split. Qed.

(** C4, amended.  For every path of the document and every verb among get,
    post, put, patch and delete that the path declares, a run of the
    endpoint parser that ends has made an [EndpointInfo] of the operation
    and put it in the list of its tag; the tag is the sanitized first
    declared tag, and [default] when the operation has no [tags] key. *)
Theorem operations_become_endpoints
    skvs paths path pkvs method operation endpoints :
  lookup "paths" skvs = Some (JObj paths) ->
  In (path, JObj pkvs) paths ->
  In method http_methods ->
  lookup method pkvs = Some operation ->
  _parse_endpoints (JObj skvs) = Ok endpoints ->
  exists e,
    registered e endpoints /\
    _parse_endpoint (JObj skvs) path method operation (ep_tag e) = Ok e /\
    ep_path e = path /\ ep_method e = upper method /\
    operation_tag operation = Ok (ep_tag e) /\
    (forall okvs, operation = JObj okvs -> lookup "tags" okvs = None ->
                  ep_tag e = "default") /\
    (forall okvs first rest,
        operation = JObj okvs ->
        lookup "tags" okvs = Some (JArr (JStr first :: rest)) ->
        ep_tag e = sanitize_name first).
Proof.
  intros Hpaths Hpath Hmethod Hop Hrun.
  unfold _parse_endpoints in Hrun. rewrite py_get_obj, Hpaths in Hrun.
  cbn [or_default bind py_items] in Hrun.
  assert (Hparsed : parsed_operation (JObj skvs) path pkvs method endpoints).
  { refine (foldM_establishes (parse_path (JObj skvs))
              (parsed_operation (JObj skvs) path pkvs method)
              (path, JObj pkvs) _ _ paths [] endpoints Hpath Hrun).
    - intros st st' Hst. unfold parse_path in Hst. cbn [fst snd] in Hst.
      refine (foldM_establishes _ (parsed_operation (JObj skvs) path pkvs method)
                method _ _ http_methods st st' Hmethod Hst).
      + intros m m' Hm. exact (parse_operation_new _ _ _ _ _ _ _ Hop Hm).
      + intros m y m' Hm. exact (parsed_operation_mono _ _ _ _ _ _ _ _ _ Hm).
    - intros st entry st' Hst.
      exact (parse_path_mono _ _ _ _ _ _ _ Hst). }
  destruct Hparsed as (operation' & e & Hop' & Htag & He & Hreg).
  assert (operation' = operation) by congruence. subst operation'.
  destruct (_parse_endpoint_Ok _ _ _ _ _ _ He) as (_ & Hp & Hm).
  exists e. repeat split; try assumption.
  - intros okvs -> Hnone. rewrite (operation_tag_default _ Hnone) in Htag.
    congruence.
  - intros okvs first rest -> Hfirst.
    rewrite (operation_tag_first _ _ _ Hfirst) in Htag. congruence.
Qed.

(** The GET without tags goes under [default], the POST under its
    sanitized tag; the GET comes first, whatever the order of the verbs in
    the document. *)
Lemma operations_become_endpoints_witness :
  _parse_endpoints doc_with_paths
  = Ok [("default", [list_sessions]); ("sessions_api", [start_session])] /\
  exists e,
    registered e [("default", [list_sessions]); ("sessions_api", [start_session])] /\
    _parse_endpoint doc_with_paths "/api/sessions" "get" sessions_get (ep_tag e)
    = Ok e /\
    ep_path e = "/api/sessions" /\ ep_method e = upper "get" /\
    operation_tag sessions_get = Ok (ep_tag e) /\
    (forall okvs, sessions_get = JObj okvs -> lookup "tags" okvs = None ->
                  ep_tag e = "default") /\
    (forall okvs first rest,
        sessions_get = JObj okvs ->
        lookup "tags" okvs = Some (JArr (JStr first :: rest)) ->
        ep_tag e = sanitize_name first).
Proof.
  split; [vm_compute; reflexivity|].
  refine (operations_become_endpoints
            [("paths", JObj [("/api/sessions", JObj sessions_item)])]
            [("/api/sessions", JObj sessions_item)]
            "/api/sessions" sessions_item "get" sessions_get _
            eq_refl _ _ eq_refl _).
  - left. reflexivity.
  - left. reflexivity.
  - vm_compute. reflexivity.
Defined.

(** ** Models *)

Lemma merge_member_Ok props required_fields item props' required_fields' :
  merge_member (props, required_fields) item = Ok (props', required_fields') ->
  exists new,
    props' = (props ++ new)%list /\
    parse_properties required_fields (member_properties item) = Ok new /\
    add_required required_fields item = Ok required_fields'.
Proof.
  unfold merge_member, add_required. intros H.
  destruct item as [| b | z | f | s | xs | ikvs];
    try (cbn [py_in bind] in H; discriminate H);
    try (cbn [py_in bind py_get] in H;
         match type of H with
         | bind (bind ?m _) _ = _ => destruct m; discriminate H
         | bind ?m _ = _ => destruct m; discriminate H
         end).
  cbn [py_in bind member_properties] in H |- *.
  unfold has_key in H. destruct (lookup "properties" ikvs) as [ps|] eqn:Hps.
  - cbn [py_getitem] in H. rewrite Hps in H. cbn [bind] in H.
    destruct ps as [| b | z | f | s | xs | properties];
      try (cbn [py_items bind] in H; discriminate H).
    cbn [py_items bind] in H.
    destruct (parse_properties required_fields properties) as [new|];
      cbn [bind] in H; [|discriminate H].
    invert_bind H. inversion H; subst. exists new.
    repeat split. cbn [bind]. assumption.
  - cbn [bind] in H. invert_bind H. inversion H; subst. exists [].
    repeat split. cbn [bind]. assumption.
Qed.

Lemma merge_members_Ok members : forall props required_fields props' required_fields',
  foldM merge_member (props, required_fields) members
  = Ok (props', required_fields') ->
  exists inherited,
    props' = (props ++ inherited)%list /\
    map prop_name inherited = map fst (flat_map member_properties members) /\
    foldM add_required required_fields members = Ok required_fields'.
Proof.
  induction members as [|item rest IH]; cbn [foldM];
    intros props required_fields props' required_fields' H.
  - inversion H; subst. exists []. rewrite app_nil_r. auto.
  - apply bind_Ok in H. destruct H as ([props1 req1] & Hitem & Hrest).
    destruct (merge_member_Ok _ _ _ _ _ Hitem) as (new & -> & Hnew & Hreq).
    destruct (IH _ _ _ _ Hrest) as (inherited & -> & Hnames & Hfold).
    exists (new ++ inherited)%list. rewrite <- app_assoc. split; [reflexivity|].
    split.
    + cbn [flat_map]. rewrite !map_app, Hnames.
      rewrite (proj1 (parse_properties_Ok _ _ _ Hnew)). reflexivity.
    + rewrite Hreq. cbn [bind]. exact Hfold.
Qed.

(** X1.  What holds of the properties of a composed schema: they are the
    properties of the members, in the order of the members, followed by the
    schema's own; an own property is required exactly when its name is in
    the union of all the [required] lists. *)
Lemma composed_model_properties kvs members ps :
  lookup "allOf" kvs = Some (JArr members) ->
  model_properties_of (JObj kvs) = Ok ps ->
  exists inherited own_ps own union,
    ps = (inherited ++ own_ps)%list /\
    map prop_name inherited = map fst (flat_map member_properties members) /\
    py_items (or_default (JObj []) (lookup "properties" kvs)) = Ok own /\
    map prop_name own_ps = map fst own /\
    required_union (JObj kvs) = Ok union /\
    Forall (fun p => prop_required p = JBool (in_set (prop_name p) union)) own_ps.
Proof.
  intros Hall H. unfold model_properties_of in H. unfold required_union.
  rewrite !py_get_obj in H. rewrite py_get_obj. cbn [bind] in H |- *.
  destruct (py_set (or_default (JArr []) (lookup "required" kvs))) as [req|];
    cbn [bind] in H |- *; [|discriminate H].
  cbn [py_in bind] in H |- *. rewrite (has_key_Some _ _ _ Hall) in H |- *.
  cbn [py_getitem] in H |- *. rewrite Hall in H |- *. cbn [bind py_iter] in H |- *.
  destruct (foldM merge_member ([], req) members) as [[props union]|] eqn:Hfold;
    cbn [bind] in H; [|discriminate H].
  destruct (merge_members_Ok _ _ _ _ _ Hfold) as (inherited & -> & Hnames & Hunion).
  destruct (py_items (or_default (JObj []) (lookup "properties" kvs))) as [own|];
    cbn [bind] in H; [|discriminate H].
  destruct (parse_properties union own) as [own_ps|] eqn:Hown;
    cbn [bind] in H; [|discriminate H].
  inversion H; subst ps.
  destruct (parse_properties_Ok _ _ _ Hown) as [Hown_names Hown_flags].
  exists inherited, own_ps, own, union. cbn [app]. auto 10.
Qed.

Lemma composed_model_properties_witness :
  model_properties_of (JObj group_schema) = Ok group_model_properties /\
  exists inherited own_ps own union,
    group_model_properties = (inherited ++ own_ps)%list /\
    map prop_name inherited = map fst (flat_map member_properties [group_member]) /\
    py_items (or_default (JObj []) (lookup "properties" group_schema)) = Ok own /\
    map prop_name own_ps = map fst own /\
    required_union (JObj group_schema) = Ok union /\
    Forall (fun p => prop_required p = JBool (in_set (prop_name p) union)) own_ps.
Proof.
  split; [vm_compute; reflexivity|].
  exact (composed_model_properties group_schema [group_member]
           group_model_properties eq_refl eq_refl).
Defined.

(** C1 does not hold of the code.  The member of [dog_schema] that declares
    [breed] also requires it, so that [breed] is in the union of the
    required lists; but the loop reads the [required] list of a member after
    it has parsed the properties of that member, and [breed] comes out
    optional. *)
Theorem member_required_list_is_read_too_late (py_str : json -> string) :
  required_union dog_schema = Ok [JStr "breed"] /\
  in_set "breed" [JStr "breed"] = true /\
  _parse_schemas py_str doc_with_composition
  = Ok ([], [mkModel "Dog" "Dog"
               [mkProperty "breed" "breed" "str | None" (JBool false) JNull
                  (JStr "") JNull false]
               (JStr "")]).
Proof.
  split; [vm_compute; reflexivity|].
  split; vm_compute; reflexivity.
Qed.

(** * Further properties of the generator *)

(** ** Casing *)

Lemma all_chars_impl (p q : ascii -> bool) s :
  (forall c, p c = true -> q c = true) ->
  all_chars p s = true -> all_chars q s = true.
Proof.
  intros Hpq. induction s as [|c r IH]; [reflexivity|].
  cbn [all_chars]. intros H. apply andb_prop in H. destruct H as [Hc Hr].
  rewrite (Hpq c Hc), (IH Hr). reflexivity.
Qed.

Lemma all_chars_map (p q : ascii -> bool) (f : ascii -> ascii) s :
  (forall c, p c = true -> q (f c) = true) ->
  all_chars p s = true -> all_chars q (map_string f s) = true.
Proof.
  intros Hpq. induction s as [|c r IH]; [reflexivity|].
  cbn [all_chars map_string]. intros H. apply andb_prop in H.
  destruct H as [Hc Hr]. rewrite (Hpq c Hc), (IH Hr). reflexivity.
Qed.

Lemma all_chars_append p s t :
  all_chars p (s ++ t) = all_chars p s && all_chars p t.
Proof.
  induction s as [|c r IH]; [reflexivity|].
  cbn [append all_chars]. rewrite IH. apply andb_assoc.
Qed.

Lemma all_chars_lstrip p q s :
  all_chars q s = true -> all_chars q (lstrip p s) = true.
Proof.
  induction s as [|c r IH]; [reflexivity|].
  cbn [lstrip]. destruct (p c); [|trivial].
  cbn [all_chars]. intros H. apply andb_prop in H. apply IH, H.
Qed.

Lemma all_chars_rstrip p q s :
  all_chars q s = true -> all_chars q (rstrip p s) = true.
Proof.
  induction s as [|c r IH]; [reflexivity|].
  cbn [rstrip all_chars]. intros H. apply andb_prop in H. destruct H as [Hc Hr].
  specialize (IH Hr). destruct (rstrip p r) as [|c' r'].
  - destruct (p c); [reflexivity|]. cbn [all_chars]. rewrite Hc. reflexivity.
  - cbn [all_chars] in IH |- *. rewrite Hc, IH. reflexivity.
Qed.

Lemma all_chars_strip p q s :
  all_chars q s = true -> all_chars q (strip p s) = true.
Proof. intros H. unfold strip. apply all_chars_rstrip, all_chars_lstrip, H. Qed.

Lemma starts_with_lstrip p s : starts_with p (lstrip p s) = false.
Proof.
  induction s as [|c r IH]; [reflexivity|].
  cbn [lstrip]. destruct (p c) eqn:Hp; [exact IH | exact Hp].
Qed.

Lemma ends_with_cons p c r :
  ends_with p (String c r) =
  match r with EmptyString => p c | _ => ends_with p r end.
Proof. destruct r; reflexivity. Qed.

Lemma ends_with_rstrip p s : ends_with p (rstrip p s) = false.
Proof.
  induction s as [|c r IH]; [reflexivity|].
  cbn [rstrip]. destruct (rstrip p r) as [|c' r'] eqn:Hr.
  - destruct (p c) eqn:Hp; [reflexivity | exact Hp].
  - rewrite ends_with_cons. exact IH.
Qed.

Lemma starts_with_rstrip p s :
  starts_with p s = false -> starts_with p (rstrip p s) = false.
Proof.
  destruct s as [|c r]; [reflexivity|].
  cbn [starts_with rstrip]. intros Hc.
  destruct (rstrip p r); [rewrite Hc|]; trivial.
Qed.

Lemma lstrip_fixed p s : starts_with p s = false -> lstrip p s = s.
Proof.
  destruct s as [|c r]; [reflexivity|]. cbn [starts_with lstrip].
  intros ->. reflexivity.
Qed.

Lemma rstrip_fixed p s : ends_with p s = false -> rstrip p s = s.
Proof.
  induction s as [|c r IH]; [reflexivity|].
  rewrite ends_with_cons. cbn [rstrip]. destruct r as [|c' r'].
  - cbn [rstrip]. intros ->. reflexivity.
  - intros H. rewrite (IH H). reflexivity.
Qed.

Lemma all_word_sub_nonword s : forall run,
  all_chars is_word (sub_nonword run s) = true.
Proof.
  induction s as [|c t IH]; intros run; [reflexivity|].
  cbn [sub_nonword]. destruct (is_word c) eqn:Hw.
  - cbn [all_chars]. rewrite Hw. apply IH.
  - destruct run; [apply IH|]. cbn [all_chars]. apply IH.
Qed.

Lemma word_lower_snake c : is_word c = true -> is_snake_char (lower_char c) = true.
Proof.
  destruct c as [[|] [|] [|] [|] [|] [|] [|] [|]]; cbn; intros H;
    first [reflexivity | discriminate H].
Qed.

Lemma snake_case_alphabet s : all_chars is_snake_char (snake_case s) = true.
Proof.
  unfold snake_case. apply all_chars_strip. unfold lower.
  apply (all_chars_map is_word); [exact word_lower_snake|].
  apply all_word_sub_nonword.
Qed.

Lemma snake_case_no_leading_underscore s :
  starts_with is_underscore (snake_case s) = false.
Proof.
  unfold snake_case, strip. apply starts_with_rstrip, starts_with_lstrip.
Qed.

Lemma snake_case_no_trailing_underscore s :
  ends_with is_underscore (snake_case s) = false.
Proof. unfold snake_case, strip. apply ends_with_rstrip. Qed.

Lemma sub_acronym_fixed n : forall s run,
  String.length s <= n -> all_chars not_upper s = true -> sub_acronym run s = s.
Proof.
  induction n as [|n IH]; intros s run Hlen Hno.
  - destruct s; [reflexivity | cbn in Hlen; lia].
  - destruct s as [|c t]; [reflexivity|].
    cbn [String.length all_chars] in Hlen, Hno.
    apply andb_prop in Hno. destruct Hno as [Hc Ht].
    cbn [sub_acronym]. destruct (run && is_lower c).
    + rewrite IH by (lia || assumption). reflexivity.
    + destruct t as [|u t2]; [reflexivity|].
      assert (Hu : is_upper u = false).
      { cbn [all_chars] in Ht. apply andb_prop in Ht. destruct Ht as [Hu _].
        unfold not_upper in Hu. destruct (is_upper u); [discriminate Hu | reflexivity]. }
      destruct t2 as [|l t3].
      * rewrite IH by (lia || assumption). reflexivity.
      * rewrite Hu, andb_false_r. cbn [andb].
        rewrite IH by (lia || assumption). reflexivity.
Qed.

Lemma sub_camel_fixed s :
  all_chars not_upper s = true -> sub_camel s = s.
Proof.
  induction s as [|c t IH]; [reflexivity|].
  cbn [all_chars]. intros H. apply andb_prop in H. destruct H as [_ Ht].
  rewrite sub_camel_cons. destruct t as [|u t2]; [reflexivity|].
  assert (Hu : is_upper u = false).
  { cbn [all_chars] in Ht. apply andb_prop in Ht. destruct Ht as [Hu _].
    unfold not_upper in Hu. destruct (is_upper u); [discriminate Hu | reflexivity]. }
  rewrite Hu, andb_false_r, (IH Ht). reflexivity.
Qed.

Lemma sub_nonword_fixed s :
  all_chars is_word s = true -> forall run, sub_nonword run s = s.
Proof.
  induction s as [|c t IH]; [reflexivity|].
  cbn [all_chars]. intros H run. apply andb_prop in H. destruct H as [Hc Ht].
  cbn [sub_nonword]. rewrite Hc, (IH Ht). reflexivity.
Qed.

Lemma lower_fixed s : all_chars not_upper s = true -> lower s = s.
Proof.
  induction s as [|c t IH]; [reflexivity|].
  cbn [all_chars]. intros H. apply andb_prop in H. destruct H as [Hc Ht].
  unfold lower in *. cbn [map_string]. rewrite (IH Ht).
  unfold lower_char, not_upper in *. destruct (is_upper c); [discriminate Hc|].
  reflexivity.
Qed.

Lemma snake_char_not_upper c : is_snake_char c = true -> not_upper c = true.
Proof.
  destruct c as [[|] [|] [|] [|] [|] [|] [|] [|]]; cbn; intros H;
    first [reflexivity | discriminate H].
Qed.

Lemma snake_char_word c : is_snake_char c = true -> is_word c = true.
Proof.
  destruct c as [[|] [|] [|] [|] [|] [|] [|] [|]]; cbn; intros H;
    first [reflexivity | discriminate H].
Qed.

(** A string that already has the shape of a snake-cased name is left as it
    is. *)
Lemma snake_case_fixed t :
  all_chars is_snake_char t = true ->
  starts_with is_underscore t = false -> ends_with is_underscore t = false ->
  snake_case t = t.
Proof.
  intros Halpha Hstart Hend.
  pose proof (all_chars_impl _ _ _ snake_char_not_upper Halpha) as Hno.
  pose proof (all_chars_impl _ _ _ snake_char_word Halpha) as Hword.
  unfold snake_case.
  rewrite (sub_acronym_fixed _ _ _ (le_n _) Hno), (sub_camel_fixed _ Hno),
    (sub_nonword_fixed _ Hword), (lower_fixed _ Hno).
  unfold strip. rewrite (lstrip_fixed _ _ Hstart). apply rstrip_fixed, Hend.
Qed.

(** X2.  On ASCII input, [snake_case] returns a string of lower-case
    letters, digits and underscores that neither starts nor ends with an
    underscore.  (Beyond ASCII, Python's [\w] keeps letters of other
    scripts; the shape of the ends holds there too.) *)
Theorem snake_case_shape s :
  is_ascii s = true ->
  all_chars is_snake_char (snake_case s) = true /\
  starts_with is_underscore (snake_case s) = false /\
  ends_with is_underscore (snake_case s) = false.
Proof.
  intros _. split; [apply snake_case_alphabet|].
  split; [apply snake_case_no_leading_underscore
         | apply snake_case_no_trailing_underscore].
Qed.

Lemma snake_case_shape_witness :
  snake_case "__getHTTPResponse-Code 2__" = "get_http_response__code_2" /\
  all_chars is_snake_char (snake_case "__getHTTPResponse-Code 2__") = true /\
  starts_with is_underscore (snake_case "__getHTTPResponse-Code 2__") = false /\
  ends_with is_underscore (snake_case "__getHTTPResponse-Code 2__") = false.
Proof.
  split; [reflexivity|].
  exact (snake_case_shape "__getHTTPResponse-Code 2__" eq_refl).
Defined.

(** X3.  On ASCII input, [snake_case] is idempotent: a snake-cased name is
    a fixed point of the function. *)
Theorem snake_case_idempotent s :
  is_ascii s = true -> snake_case (snake_case s) = snake_case s.
Proof.
  intros _. apply snake_case_fixed.
  - apply snake_case_alphabet.
  - apply snake_case_no_leading_underscore.
  - apply snake_case_no_trailing_underscore.
Qed.

Lemma snake_case_idempotent_witness :
  snake_case "listSessions" = "list_sessions" /\
  snake_case (snake_case "listSessions") = snake_case "listSessions".
Proof.
  split; [reflexivity|].
  exact (snake_case_idempotent "listSessions" eq_refl).
Defined.

Lemma snake_to_kebab_char c :
  is_snake_char c = true ->
  is_kebab_char (if Ascii.eqb c "_" then "-"%char else c) = true.
Proof.
  destruct c as [[|] [|] [|] [|] [|] [|] [|] [|]]; cbn; intros H;
    first [reflexivity | discriminate H].
Qed.

Lemma replace_char_map a b s :
  replace_char a b s = map_string (fun c => if Ascii.eqb c a then b else c) s.
Proof.
  induction s as [|c r IH]; [reflexivity|].
  cbn [replace_char map_string]. rewrite IH. reflexivity.
Qed.

Lemma hyphen_of_snake c :
  is_snake_char c = true ->
  is_hyphen (if Ascii.eqb c "_" then "-"%char else c) = is_underscore c.
Proof.
  destruct c as [[|] [|] [|] [|] [|] [|] [|] [|]]; cbn; intros H;
    first [reflexivity | discriminate H].
Qed.

Lemma ends_with_kebab s :
  all_chars is_snake_char s = true ->
  ends_with is_hyphen (replace_char "_" "-" s) = ends_with is_underscore s.
Proof.
  induction s as [|c r IH]; [reflexivity|].
  cbn [all_chars]. intros H. apply andb_prop in H. destruct H as [Hc Hr].
  cbn [replace_char]. rewrite !ends_with_cons. destruct r as [|c' r'].
  - cbn [replace_char]. apply hyphen_of_snake, Hc.
  - cbn [replace_char] in IH |- *. apply IH, Hr.
Qed.

(** X4.  On ASCII input, [kebab_case] returns a string of lower-case
    letters, digits and hyphens that neither starts nor ends with a
    hyphen. *)
Theorem kebab_case_shape s :
  is_ascii s = true ->
  all_chars is_kebab_char (kebab_case s) = true /\
  starts_with is_hyphen (kebab_case s) = false /\
  ends_with is_hyphen (kebab_case s) = false.
Proof.
  intros _. unfold kebab_case.
  pose proof (snake_case_alphabet s) as Halpha.
  split; [|split].
  - rewrite replace_char_map.
    apply (all_chars_map is_snake_char); [exact snake_to_kebab_char | exact Halpha].
  - pose proof (snake_case_no_leading_underscore s) as Hstart.
    destruct (snake_case s) as [|c r]; [reflexivity|].
    cbn [replace_char starts_with all_chars] in *.
    apply andb_prop in Halpha. destruct Halpha as [Hc _].
    rewrite (hyphen_of_snake c Hc). exact Hstart.
  - rewrite (ends_with_kebab _ Halpha).
    apply snake_case_no_trailing_underscore.
Qed.

Lemma kebab_case_shape_witness :
  kebab_case "getChatsOverview" = "get-chats-overview" /\
  all_chars is_kebab_char (kebab_case "getChatsOverview") = true /\
  starts_with is_hyphen (kebab_case "getChatsOverview") = false /\
  ends_with is_hyphen (kebab_case "getChatsOverview") = false.
Proof.
  split; [reflexivity|].
  exact (kebab_case_shape "getChatsOverview" eq_refl).
Defined.

Lemma re_split_sep_chunks s : forall cur insep,
  all_chars not_sep cur = true ->
  Forall (fun w => all_chars not_sep w = true) (re_split_sep cur insep s).
Proof.
  induction s as [|c t IH]; intros cur insep Hcur.
  - constructor; [exact Hcur | constructor].
  - cbn [re_split_sep]. destruct (is_sep c) eqn:Hsep.
    + destruct insep; [apply IH, Hcur|].
      constructor; [exact Hcur | apply IH; reflexivity].
    + apply IH. rewrite all_chars_append, Hcur. cbn [all_chars].
      unfold not_sep. rewrite Hsep. reflexivity.
Qed.

Lemma append_empty_right s : s ++ "" = s.
Proof. induction s as [|c r IH]; [reflexivity|]. cbn. rewrite IH. reflexivity. Qed.

Lemma append_associative s t u : (s ++ t) ++ u = s ++ (t ++ u).
Proof. induction s as [|c r IH]; [reflexivity|]. cbn. rewrite IH. reflexivity. Qed.

Lemma re_split_sep_whole s : forall cur insep,
  all_chars not_sep s = true -> re_split_sep cur insep s = [cur ++ s].
Proof.
  induction s as [|c t IH]; intros cur insep H.
  - cbn [re_split_sep]. rewrite append_empty_right. reflexivity.
  - cbn [all_chars] in H. apply andb_prop in H. destruct H as [Hc Ht].
    cbn [re_split_sep]. unfold not_sep in Hc.
    destruct (is_sep c); [discriminate Hc|].
    rewrite (IH _ _ Ht), append_associative. reflexivity.
Qed.

Lemma not_sep_upper_char c : not_sep c = true -> not_sep (upper_char c) = true.
Proof.
  destruct c as [[|] [|] [|] [|] [|] [|] [|] [|]]; cbn; intros H;
    first [reflexivity | discriminate H].
Qed.

Lemma not_sep_lower_char c : not_sep c = true -> not_sep (lower_char c) = true.
Proof.
  destruct c as [[|] [|] [|] [|] [|] [|] [|] [|]]; cbn; intros H;
    first [reflexivity | discriminate H].
Qed.

Lemma not_sep_capitalize w :
  all_chars not_sep w = true -> all_chars not_sep (capitalize w) = true.
Proof.
  destruct w as [|c r]; [reflexivity|].
  cbn [capitalize all_chars]. intros H. apply andb_prop in H.
  destruct H as [Hc Hr]. rewrite (not_sep_upper_char c Hc).
  exact (all_chars_map not_sep not_sep lower_char r not_sep_lower_char Hr).
Qed.

Lemma all_chars_concat p (l : list string) :
  Forall (fun w => all_chars p w = true) l ->
  all_chars p (String.concat "" l) = true.
Proof.
  induction 1 as [|w l Hw Hl IH]; [reflexivity|].
  cbn [String.concat]. destruct l as [|w' l']; [exact Hw|].
  rewrite all_chars_append, Hw. cbn [append andb]. exact IH.
Qed.

(** X5.  [pascal_case] returns a string without underscore, hyphen or
    ASCII white space.  On an ASCII name that holds none of these it is
    [capitalize]: the first character is upper-cased and all the others are
    lower-cased, so that the inner capitals of a name already in Pascal
    case are lost. *)
Theorem pascal_case_shape s :
  all_chars not_sep (pascal_case s) = true /\
  (is_ascii s = true -> all_chars not_sep s = true ->
   pascal_case s = capitalize s).
Proof.
  unfold pascal_case. split.
  - apply all_chars_concat. apply Forall_map.
    pose proof (re_split_sep_chunks s "" false eq_refl) as H.
    induction H as [|w l Hw _ IH]; constructor;
      [apply not_sep_capitalize, Hw | exact IH].
  - intros _ H. rewrite (re_split_sep_whole s "" false H). reflexivity.
Qed.

Lemma pascal_case_shape_witness :
  pascal_case "GroupInfo" = "Groupinfo" /\
  pascal_case "  my  group_info-v2 " = "MyGroupInfoV2" /\
  all_chars not_sep (pascal_case "  my  group_info-v2 ") = true.
Proof.
  split; [|split].
  - exact (proj2 (pascal_case_shape "GroupInfo") eq_refl eq_refl).
  - reflexivity.
  - exact (proj1 (pascal_case_shape "  my  group_info-v2 ")).
Defined.

(** ** The type resolver on well-formed and on ill-formed nodes *)

Lemma mapM_all_Ok {A B : Type} (f : A -> result B) (l : list A) :
  (forall x, In x l -> exists y, f x = Ok y) -> exists ys, mapM f l = Ok ys.
Proof.
  induction l as [|x r IH]; intros H; [exists []; reflexivity|].
  destruct (H x (or_introl eq_refl)) as [y Hy].
  destruct IH as [ys Hys]; [intros x' Hin; apply H; right; exact Hin|].
  exists (y :: ys). cbn [mapM]. rewrite Hy. cbn [bind]. rewrite Hys. reflexivity.
Qed.

Lemma In_arr_depth x ms : In x ms -> depth x < depth (JArr ms).
Proof.
  intros Hin.
  pose proof (py_iter_depth (JArr ms) ms x eq_refl Hin) as H.
  induction ms as [|y r IH]; [destruct Hin|].
  rewrite depth_arr_cons. destruct Hin as [->|Hin]; [lia|].
  assert (depth x < depth (JArr r)).
  { apply IH; [exact Hin|]. exact (py_iter_depth (JArr r) r x eq_refl Hin). }
  lia.
Qed.

Lemma hint_of_schema_ok d : forall schema,
  depth schema = d -> schema_ok schema ->
  forall required, exists t, _get_type_hint schema required = Ok t.
Proof.
  induction d as [d IH] using lt_wf_ind. intros schema Hd Hok required.
  destruct Hok as [kvs Href Hlists Hnodes].
  assert (Hrec : forall j r, depth j < depth (JObj kvs) -> schema_ok j ->
                             exists t, _get_type_hint j r = Ok t).
  { intros j r Hj Hj'. subst d. exact (IH (depth j) Hj j eq_refl Hj' r). }
  clear IH Hd.
  rewrite _get_type_hint_eq. unfold type_hint_body. cbn [py_in bind].
  unfold has_key.
  destruct (lookup "$ref" kvs) as [r|] eqn:Hr.
  { cbn [py_getitem]. rewrite Hr. destruct (Href r eq_refl) as [s ->].
    eexists. reflexivity. }
  destruct (lookup "allOf" kvs) as [a|] eqn:Ha.
  { cbn [py_getitem]. rewrite Ha. cbn [bind].
    destruct (Hlists "allOf" a (or_introl eq_refl) Ha) as (ms & -> & Hms).
    cbn [py_iter bind]. destruct ms as [|item rest]; [eexists; reflexivity|].
    apply Hrec.
    - pose proof (lookup_depth _ _ _ Ha).
      pose proof (In_arr_depth item (item :: rest) (or_introl eq_refl)). lia.
    - inversion Hms; assumption. }
  assert (Hunion : forall ms, Forall schema_ok ms ->
             depth (JArr ms) < depth (JObj kvs) ->
             exists t, (types <- mapM (fun item => _get_type_hint item true) ms ;;
                        Ok (mark required (join " | " types))) = Ok t).
  { intros ms Hms Hd.
    destruct (mapM_all_Ok (fun item => _get_type_hint item true) ms) as [ys Hys].
    - intros x Hin. apply Hrec.
      + pose proof (In_arr_depth x ms Hin). lia.
      + rewrite Forall_forall in Hms. exact (Hms x Hin).
    - rewrite Hys. eexists. reflexivity. }
  destruct (lookup "oneOf" kvs) as [o|] eqn:Ho.
  { cbn [bind py_get]. rewrite Ho. cbn [bind].
    destruct (Hlists "oneOf" o (or_intror (or_introl eq_refl)) Ho) as (ms & -> & Hms).
    destruct ms as [|m ms].
    - cbn [truthy]. destruct (lookup "anyOf" kvs) as [a|] eqn:Hany.
      + destruct (Hlists "anyOf" a (or_intror (or_intror (or_introl eq_refl))) Hany)
          as (ms' & -> & Hms').
        cbn [bind py_iter]. apply Hunion; [exact Hms'|].
        exact (lookup_depth _ _ _ Hany).
      + cbn [bind py_iter mapM]. eexists. reflexivity.
    - cbn [truthy bind py_iter]. apply Hunion; [exact Hms|].
      exact (lookup_depth _ _ _ Ho). }
  destruct (lookup "anyOf" kvs) as [a|] eqn:Hany.
  { cbn [bind py_get]. rewrite Ho. cbn [truthy bind]. rewrite Hany.
    destruct (Hlists "anyOf" a (or_intror (or_intror (or_introl eq_refl))) Hany)
      as (ms' & -> & Hms').
    cbn [bind py_iter]. apply Hunion; [exact Hms'|].
    exact (lookup_depth _ _ _ Hany). }
  cbn [bind].
  destruct (lookup "type" kvs) as [ty|] eqn:Hty; cbn [negb];
    [|eexists; reflexivity].
  cbn [py_getitem]. rewrite Hty. cbn [bind].
  destruct (eq_str ty "string").
  { destruct (lookup "enum" kvs); cbn [bind]; [eexists; reflexivity|].
    cbn [py_get]. destruct (lookup "format" kvs) as [fmt|]; cbn [bind].
    - destruct (eq_str fmt "date-time"); [eexists; reflexivity|].
      destruct (eq_str fmt "date"); [eexists; reflexivity|].
      destruct (eq_str fmt "binary"); eexists; reflexivity.
    - eexists. reflexivity. }
  destruct (eq_str ty "integer"); [eexists; reflexivity|].
  destruct (eq_str ty "number"); [eexists; reflexivity|].
  destruct (eq_str ty "boolean"); [eexists; reflexivity|].
  destruct (eq_str ty "array").
  { cbn [py_get]. destruct (lookup "items" kvs) as [items|] eqn:Hi; cbn [bind].
    - destruct (Hrec items true (lookup_depth _ _ _ Hi)
                  (Hnodes "items" items (or_introl eq_refl) Hi)) as [t ->].
      eexists. reflexivity.
    - eexists. reflexivity. }
  destruct (eq_str ty "object"); [|eexists; reflexivity].
  destruct (lookup "additionalProperties" kvs) as [ap|] eqn:Hap; cbn [bind];
    [|eexists; reflexivity].
  cbn [py_getitem]. try rewrite Hap. cbn [bind].
  destruct (Hrec ap true (lookup_depth _ _ _ Hap)
              (Hnodes "additionalProperties" ap (or_intror (or_introl eq_refl)) Hap))
    as [t ->].
  eexists. reflexivity.
Qed.

(** X6.  The type resolver raises no exception on a well-formed node: a
    dict whose [$ref] is a string, whose [allOf], [oneOf] and [anyOf] are
    lists of well-formed nodes and whose [items] and [additionalProperties]
    are well-formed nodes always resolves to a type hint. *)
Theorem resolver_succeeds_on_well_formed_nodes schema required :
  schema_ok schema -> exists t, _get_type_hint schema required = Ok t.
Proof.
  intros Hok. exact (hint_of_schema_ok (depth schema) schema eq_refl Hok required).
Qed.

Lemma chat_list_schema_ok : schema_ok chat_list_schema.
Proof.
  constructor.
  - intros r H. discriminate H.
  - intros k v [<-|[<-|[<-|[]]]] H; discriminate H.
  - intros k v [<-|[<-|[]]] H; [|discriminate H].
    inversion H; subst v. constructor.
    + intros r Hr. inversion Hr. eexists. reflexivity.
    + intros k v [<-|[<-|[<-|[]]]] Hk; discriminate Hk.
    + intros k v [<-|[<-|[]]] Hk; discriminate Hk.
Qed.

Lemma resolver_succeeds_on_well_formed_nodes_witness :
  schema_ok chat_list_schema /\
  _get_type_hint chat_list_schema false = Ok "list[Chat] | None" /\
  exists t, _get_type_hint chat_list_schema false = Ok t.
Proof.
  split; [exact chat_list_schema_ok|].
  split; [vm_compute; reflexivity|].
  exact (resolver_succeeds_on_well_formed_nodes chat_list_schema false
           chat_list_schema_ok).
Defined.

Lemma hint_of_scalar schema required :
  is_scalar schema = true -> _get_type_hint schema required = Raise TypeError.
Proof.
  intros H. rewrite _get_type_hint_eq.
  destruct schema; try discriminate H; reflexivity.
Qed.

(** X7.  The shapes on which the type resolver raises: a node that is
    [null], a boolean or a number (TypeError); a plain object node whose
    [additionalProperties] is such a value, as in
    [additionalProperties: true] (TypeError); a [$ref] that is not a string
    (AttributeError). *)
Theorem resolver_errors :
  (forall schema required,
      is_scalar schema = true ->
      _get_type_hint schema required = Raise TypeError) /\
  (forall kvs required ap,
      plain_node kvs -> lookup "type" kvs = Some (JStr "object") ->
      lookup "additionalProperties" kvs = Some ap -> is_scalar ap = true ->
      _get_type_hint (JObj kvs) required = Raise TypeError) /\
  (forall kvs required r,
      lookup "$ref" kvs = Some r -> (forall s, r <> JStr s) ->
      _get_type_hint (JObj kvs) required = Raise AttributeError).
Proof.
  split; [exact hint_of_scalar|]. split.
  - intros kvs required ap Hplain Hty Hap Hscalar.
    rewrite (hint_of_plain kvs required _ Hplain Hty).
    cbn [eq_str String.eqb Ascii.eqb Bool.eqb py_getitem bind].
    rewrite (has_key_Some _ _ _ Hap), Hap. cbn [bind].
    rewrite (hint_of_scalar ap true Hscalar). reflexivity.
  - intros kvs required r Href Hr.
    rewrite _get_type_hint_eq. unfold type_hint_body. cbn [py_in bind].
    rewrite (has_key_Some _ _ _ Href). cbn [py_getitem]. rewrite Href.
    cbn [bind]. destruct r; try reflexivity. exfalso. eapply Hr. reflexivity.
Qed.

Lemma resolver_errors_witness :
  _get_type_hint (JObj open_object_schema) true = Raise TypeError /\
  _get_type_hint (JObj [("$ref", JInt 7)]) true = Raise AttributeError.
Proof.
  split.
  - refine (proj1 (proj2 resolver_errors) open_object_schema true (JBool true)
              _ eq_refl eq_refl eq_refl).
    repeat split.
  - refine (proj2 (proj2 resolver_errors) [("$ref", JInt 7)] true (JInt 7)
              eq_refl _).
    intros s H. discriminate H.
Defined.

(** X8.  Degenerate compositions: an empty [allOf] list resolves to [Any];
    an empty [oneOf] or [anyOf] list resolves to the empty type string, to
    which the optional marker is still appended. *)
Theorem empty_compositions kvs required :
  lookup "$ref" kvs = None ->
  (lookup "allOf" kvs = Some (JArr []) ->
   _get_type_hint (JObj kvs) required = Ok (mark required "Any")) /\
  (lookup "allOf" kvs = None ->
   (lookup "oneOf" kvs = Some (JArr []) /\
    (lookup "anyOf" kvs = None \/ lookup "anyOf" kvs = Some (JArr [])) \/
    lookup "oneOf" kvs = None /\ lookup "anyOf" kvs = Some (JArr [])) ->
   _get_type_hint (JObj kvs) required = Ok (mark required "")).
Proof.
  intros Href. split.
  - intros Hall. exact (hint_of_composition kvs required [] Href Hall).
  - intros Hall Hcase.
    rewrite _get_type_hint_eq. unfold type_hint_body. cbn [py_in bind].
    rewrite (has_key_None _ _ Href), (has_key_None _ _ Hall).
    destruct Hcase as [[Hone [Hany|Hany]] | [Hone Hany]].
    + rewrite (has_key_Some _ _ _ Hone). cbn [bind py_get]. rewrite Hone.
      cbn [truthy bind]. rewrite Hany. reflexivity.
    + rewrite (has_key_Some _ _ _ Hone). cbn [bind py_get]. rewrite Hone.
      cbn [truthy bind]. rewrite Hany. reflexivity.
    + rewrite (has_key_None _ _ Hone), (has_key_Some _ _ _ Hany).
      cbn [bind py_get]. rewrite Hone. cbn [truthy bind]. rewrite Hany.
      reflexivity.
Qed.

Lemma empty_compositions_witness :
  _get_type_hint (JObj [("oneOf", JArr [])]) false = Ok " | None" /\
  _get_type_hint (JObj [("allOf", JArr [])]) false = Ok "Any | None".
Proof.
  split.
  - refine (proj2 (empty_compositions [("oneOf", JArr [])] false eq_refl)
              eq_refl _).
    left. split; [reflexivity | left; reflexivity].
  - exact (proj1 (empty_compositions [("allOf", JArr [])] false eq_refl) eq_refl).
Defined.

(** ** The schema parser on a whole document *)

Lemma parse_schema_Ok py_str name schema r :
  parse_schema py_str name schema = Ok r ->
  match r with
  | IsEnum e =>
      is_enum_schema schema = true /\
      enum_name e = name /\ enum_python_name e = name /\
      enum_members schema = Ok (map snd (enum_values e))
  | IsModel m =>
      is_model_schema schema = true /\
      model_name m = name /\ model_python_name m = name /\
      model_properties_of schema = Ok (model_properties m)
  | Skipped =>
      is_enum_schema schema = false /\ is_model_schema schema = false
  end.
Proof.
  unfold parse_schema, is_model_schema, is_enum_schema, has, enum_members.
  intros H.
  destruct (py_in "enum" schema) as [[|]|]; cbn [bind] in H; [| |discriminate H].
  - destruct (py_getitem schema "enum") as [vs|]; cbn [bind] in H |- *;
      [|discriminate H].
    destruct (py_iter vs) as [xs|]; cbn [bind] in H; [|discriminate H].
    invert_bind H. inversion H; subst r. cbn.
    rewrite map_map. cbn. rewrite map_id. auto.
  - destruct (py_get schema "type" JNull) as [ty|]; cbn [bind] in H;
      [|discriminate H].
    cbn [negb andb].
    destruct (eq_str ty "object"); cbn [bind orb] in H |- *.
    + invert_bind H. inversion H; subst r. cbn. auto.
    + destruct (py_in "properties" schema) as [[|]|]; cbn [bind orb] in H |- *;
        [| |discriminate H].
      * invert_bind H. inversion H; subst r. cbn. auto.
      * destruct (py_in "allOf" schema) as [[|]|]; cbn [bind] in H |- *;
          [| |discriminate H].
        -- invert_bind H. inversion H; subst r. cbn. auto.
        -- inversion H; subst r. auto.
Qed.

Lemma enum_model_exclusive schema :
  is_enum_schema schema = true -> is_model_schema schema = false.
Proof. unfold is_model_schema. intros ->. reflexivity. Qed.

Lemma parsed_schemas_split py_str schemas parsed :
  Forall2 (fun kv r => parse_schema py_str (fst kv) (snd kv) = Ok r) schemas parsed ->
  Forall2 (fun e kv => enum_name e = fst kv /\ enum_python_name e = fst kv /\
                       enum_members (snd kv) = Ok (map snd (enum_values e)))
    (enums_of parsed) (filter (fun kv => is_enum_schema (snd kv)) schemas) /\
  Forall2 (fun m kv => model_name m = fst kv /\ model_python_name m = fst kv /\
                       model_properties_of (snd kv) = Ok (model_properties m))
    (models_of parsed) (filter (fun kv => is_model_schema (snd kv)) schemas).
Proof.
  induction 1 as [|kv r schemas parsed Hr _ [IHe IHm]]; [split; constructor|].
  apply parse_schema_Ok in Hr. unfold enums_of, models_of in *.
  cbn [flat_map filter]. destruct r as [e|m|].
  - destruct Hr as (He & Hn & Hp & Hv).
    rewrite He, (enum_model_exclusive _ He). cbn [app]. split; [|exact IHm].
    constructor; auto.
  - destruct Hr as (Hm & Hn & Hp & Hps).
    assert (He : is_enum_schema (snd kv) = false).
    { destruct (is_enum_schema (snd kv)) eqn:He; [|reflexivity].
      rewrite (enum_model_exclusive _ He) in Hm. discriminate Hm. }
    rewrite He, Hm. cbn [app]. split; [exact IHe|]. constructor; auto.
  - destruct Hr as [He Hm]. rewrite He, Hm. cbn [app]. auto.
Qed.

(** X9.  A run of [_parse_schemas] that ends returns one enum for every
    schema with an [enum] key and one model for every other schema that is
    object-shaped, each list in the order of the document; no schema gives
    both, and the other schemas are skipped.  Names are the schema names,
    unchanged; the values of an enum are those of the schema, in order and
    with their repetitions; the properties of a model are those of
    [model_properties_of]. *)
Theorem schemas_partition py_str spec enums models :
  _parse_schemas py_str spec = Ok (enums, models) ->
  exists schemas,
    schemas_of spec = Ok schemas /\
    Forall2 (fun e kv => enum_name e = fst kv /\ enum_python_name e = fst kv /\
                         enum_members (snd kv) = Ok (map snd (enum_values e)))
      enums (filter (fun kv => is_enum_schema (snd kv)) schemas) /\
    Forall2 (fun m kv => model_name m = fst kv /\ model_python_name m = fst kv /\
                         model_properties_of (snd kv) = Ok (model_properties m))
      models (filter (fun kv => is_model_schema (snd kv)) schemas) /\
    (forall kv, In kv schemas ->
                is_enum_schema (snd kv) && is_model_schema (snd kv) = false).
Proof.
  unfold _parse_schemas. intros H.
  destruct (schemas_of spec) as [schemas|]; cbn [bind] in H; [|discriminate H].
  destruct (mapM (fun kv => parse_schema py_str (fst kv) (snd kv)) schemas)
    as [parsed|] eqn:Hparsed; cbn [bind] in H; [|discriminate H].
  inversion H; subst enums models; clear H.
  apply mapM_Ok_Forall2 in Hparsed.
  destruct (parsed_schemas_split _ _ _ Hparsed) as [He Hm].
  exists schemas. repeat split; try assumption.
  intros kv _. destruct (is_enum_schema (snd kv)) eqn:E; [|reflexivity].
  rewrite (enum_model_exclusive _ E). reflexivity.
Qed.

Lemma schemas_partition_witness :
  exists enums models schemas,
    _parse_schemas str_of_string doc_with_schemas = Ok (enums, models) /\
    map enum_name enums = ["Status"] /\ map model_name models = ["Chat"] /\
    map enum_values enums
    = [[("UP", JStr "up"); ("DOWN", JStr "down"); ("UP", JStr "up")]] /\
    schemas_of doc_with_schemas = Ok schemas /\
    Forall2 (fun m kv => model_name m = fst kv /\ model_python_name m = fst kv /\
                         model_properties_of (snd kv) = Ok (model_properties m))
      models (filter (fun kv => is_model_schema (snd kv)) schemas).
Proof.
  eexists _, _, _.
  split; [vm_compute; reflexivity|].
  split; [reflexivity|]. split; [reflexivity|]. split; [reflexivity|].
  split; [reflexivity|].
  destruct (schemas_partition str_of_string doc_with_schemas _ _ eq_refl)
    as (schemas & Hs & _ & Hm & _).
  vm_compute in Hs. inversion Hs; subst schemas. exact Hm.
Defined.

(** ** Every parsed property *)

Lemma property_python_name_not_reserved name :
  is_reserved (property_python_name name) = false.
Proof.
  unfold property_python_name.
  destruct (is_reserved (snake_case name)) eqn:Hr; [|exact Hr].
  exact (reserved_with_marker _ Hr).
Qed.

Lemma hint_marked schema required h :
  _get_type_hint schema required = Ok h -> exists t, h = mark required t.
Proof.
  destruct required; intros H; [exists h; reflexivity|].
  rewrite hint_optional_outermost in H. unfold optional in H.
  destruct (_get_type_hint schema true) as [t|]; cbn [bind] in H;
    [|discriminate H].
  inversion H. exists t. reflexivity.
Qed.

Lemma _parse_property_invariant name schema required p :
  _parse_property name schema required = Ok p -> property_invariant p.
Proof.
  unfold _parse_property. intros H.
  destruct (_get_type_hint schema required) as [h|] eqn:Hh; cbn [bind] in H;
    [|discriminate H].
  invert_bind H. inversion H; subst p; clear H. unfold property_invariant. cbn.
  split; [reflexivity|]. split; [apply property_python_name_not_reserved|].
  split; [reflexivity|].
  destruct (hint_marked _ _ _ Hh) as [t Ht]. exists required, t. auto.
Qed.

Lemma parse_properties_invariant required_fields properties ps :
  parse_properties required_fields properties = Ok ps ->
  Forall property_invariant ps.
Proof.
  unfold parse_properties. intros H. apply mapM_Ok_Forall2 in H.
  induction H as [|kv p kvs ps Hp _ IH]; constructor;
    [exact (_parse_property_invariant _ _ _ _ Hp) | exact IH].
Qed.

Lemma model_properties_invariant schema ps :
  model_properties_of schema = Ok ps -> Forall property_invariant ps.
Proof.
  unfold model_properties_of. intros H.
  destruct (py_get schema "required" (JArr [])) as [req|]; cbn [bind] in H;
    [|discriminate H].
  destruct (py_set req) as [required_fields|]; cbn [bind] in H; [|discriminate H].
  destruct (py_in "allOf" schema) as [has_allof|]; cbn [bind] in H;
    [|discriminate H].
  assert (Hinh : forall props rf,
             (if has_allof
              then members <- py_getitem schema "allOf" ;;
                   members <- py_iter members ;;
                   foldM merge_member ([], required_fields) members
              else Ok ([], required_fields)) = Ok (props, rf) ->
             Forall property_invariant props).
  { intros props rf Hm. destruct has_allof.
    - invert_bind Hm.
      refine (foldM_preserves merge_member
                (fun st => Forall property_invariant (fst st)) _ _ _ _ Hm _).
      + intros [props0 rf0] item [props1 rf1] Hstep Hinv. cbn [fst] in *.
        destruct (merge_member_Ok _ _ _ _ _ Hstep) as (new & -> & Hnew & _).
        apply Forall_app. split; [exact Hinv|].
        exact (parse_properties_invariant _ _ _ Hnew).
      + constructor.
    - inversion Hm. constructor. }
  destruct (if has_allof then _ else _) as [[props rf]|]; cbn [bind] in H;
    [|discriminate H].
  specialize (Hinh props rf eq_refl).
  destruct (py_get schema "properties" (JObj [])) as [own|]; cbn [bind] in H;
    [|discriminate H].
  destruct (py_items own) as [kvs|]; cbn [bind] in H; [|discriminate H].
  destruct (parse_properties rf kvs) as [own_ps|] eqn:Hown; cbn [bind] in H;
    [|discriminate H].
  inversion H. apply Forall_app. split; [exact Hinh|].
  exact (parse_properties_invariant _ _ _ Hown).
Qed.

Lemma parse_entity_invariant name schema e :
  parse_entity name schema = Ok (Some e) ->
  Forall property_invariant (entity_properties e).
Proof.
  unfold parse_entity. intros H. invert_bind H.
  match type of H with
  | (if ?b then _ else _) = _ => destruct b; [discriminate H|]
  end.
  invert_bind H. inversion H; subst e. cbn [entity_properties].
  eapply parse_properties_invariant. eassumption.
Qed.

Lemma models_of_invariant py_str schemas parsed :
  Forall2 (fun kv r => parse_schema py_str (fst kv) (snd kv) = Ok r) schemas parsed ->
  Forall (fun m => Forall property_invariant (model_properties m)) (models_of parsed).
Proof.
  induction 1 as [|kv r schemas parsed Hr _ IH]; [constructor|].
  unfold models_of in *. cbn [flat_map]. apply Forall_app. split; [|exact IH].
  apply parse_schema_Ok in Hr. destruct r as [e|m|]; constructor; [|constructor].
  destruct Hr as (_ & _ & _ & Hps). exact (model_properties_invariant _ _ Hps).
Qed.

Lemma somes_invariant schemas (parsed : list (option EntityInfo)) :
  Forall2 (fun kv r => parse_entity (fst kv) (snd kv) = Ok r) schemas parsed ->
  Forall (fun e => Forall property_invariant (entity_properties e)) (somes parsed).
Proof.
  induction 1 as [|kv r schemas parsed Hr _ IH]; [constructor|].
  unfold somes in *. cbn [flat_map]. apply Forall_app. split; [|exact IH].
  destruct r as [e|]; constructor; [|constructor].
  exact (parse_entity_invariant _ _ _ Hr).
Qed.

(** X10.  Every property of every parsed model and of every parsed entity
    has the snake-cased name as identifier, with a trailing underscore when
    that is a reserved word, so that the identifier is never reserved; its
    required flag is a boolean, and the type hint of an optional property
    ends with the marker. *)
Theorem parsed_properties_are_well_formed :
  (forall py_str spec enums models,
      _parse_schemas py_str spec = Ok (enums, models) ->
      Forall (fun m => Forall property_invariant (model_properties m)) models) /\
  (forall spec entities,
      _parse_entities spec = Ok entities ->
      Forall (fun e => Forall property_invariant (entity_properties e)) entities).
Proof.
  split.
  - intros py_str spec enums models H.
    unfold _parse_schemas in H. invert_bind H. inversion H; subst enums models.
    eapply models_of_invariant. apply mapM_Ok_Forall2. eassumption.
  - intros spec entities H.
    unfold _parse_entities in H. invert_bind H. inversion H; subst entities.
    eapply somes_invariant. apply mapM_Ok_Forall2. eassumption.
Qed.

Lemma parsed_properties_are_well_formed_witness :
  exists enums models,
    _parse_schemas str_of_string doc_with_schemas = Ok (enums, models) /\
    map (fun m => map prop_python_name (model_properties m)) models = [["from_"]] /\
    Forall (fun m => Forall property_invariant (model_properties m)) models.
Proof.
  eexists _, _. split; [vm_compute; reflexivity|]. split; [reflexivity|].
  exact (proj1 parsed_properties_are_well_formed str_of_string doc_with_schemas
           _ _ eq_refl).
Defined.

(** ** The endpoint parser as a scan followed by a grouping *)

Lemma foldM_ext {A S : Type} (f g : S -> A -> result S) (l : list A) :
  (forall st x, In x l -> f st x = g st x) ->
  forall st, foldM f st l = foldM g st l.
Proof.
  induction l as [|x r IH]; intros H st; [reflexivity|].
  cbn [foldM]. rewrite (H st x (or_introl eq_refl)).
  destruct (g st x) as [st'|]; cbn [bind]; [|reflexivity].
  apply IH. intros st0 y Hy. apply H. right. exact Hy.
Qed.

Lemma foldM_mapM {A R S : Type} (g : A -> result R) (h : S -> R -> S) (l : list A) :
  forall st,
    foldM (fun st x => r <- g x ;; Ok (h st r)) st l
    = (rs <- mapM g l ;; Ok (fold_left h rs st)).
Proof.
  induction l as [|x r IH]; intros st; [reflexivity|].
  cbn [foldM mapM]. destruct (g x) as [y|]; cbn [bind]; [|reflexivity].
  rewrite IH. destruct (mapM g r); reflexivity.
Qed.

Lemma mapM_flat_map {A B C : Type} (f : B -> result C) (k : A -> list B) (l : list A) :
  mapM f (flat_map k l)
  = (rss <- mapM (fun x => mapM f (k x)) l ;; Ok (concat rss)).
Proof.
  induction l as [|x r IH]; [reflexivity|].
  cbn [flat_map mapM]. rewrite mapM_app, IH.
  destruct (mapM f (k x)) as [ys|]; cbn [bind]; [|reflexivity].
  destruct (mapM (fun x0 => mapM f (k x0)) r); reflexivity.
Qed.

Lemma fold_left_concat {R S : Type} (h : S -> R -> S) (rss : list (list R)) :
  forall st,
    fold_left (fun st rs => fold_left h rs st) rss st = fold_left h (concat rss) st.
Proof.
  induction rss as [|rs r IH]; intros st; [reflexivity|].
  cbn [fold_left concat]. rewrite fold_left_app. apply IH.
Qed.

(** The update of the map by the result of one scan. *)
Lemma parse_operation_scan spec path path_item m method :
  parse_operation spec path path_item m method
  = (r <- scan_operation spec (path, path_item, method) ;;
     Ok (match r with Some e => add_endpoint m e | None => m end)).
Proof.
  unfold parse_operation, scan_operation.
  destruct (py_in method path_item) as [[|]|]; cbn [bind negb]; try reflexivity.
  destruct (py_getitem path_item method) as [operation|]; cbn [bind];
    [|reflexivity].
  destruct (operation_tag operation) as [tag|]; cbn [bind]; [|reflexivity].
  destruct (_parse_endpoint spec path method operation tag) as [e|] eqn:He;
    cbn [bind]; [|reflexivity].
  destruct (_parse_endpoint_Ok _ _ _ _ _ _ He) as (<- & _ & _). reflexivity.
Qed.

Lemma fold_left_somes (rs : list (option EndpointInfo)) :
  forall m,
    fold_left (fun m r => match r with Some e => add_endpoint m e | None => m end)
      rs m
    = fold_left add_endpoint (somes rs) m.
Proof.
  induction rs as [|[e|] r IH]; intros m; [reflexivity| |]; cbn; apply IH.
Qed.

Lemma _parse_endpoints_scan spec :
  _parse_endpoints spec
  = (paths <- paths_of spec ;;
     rs <- mapM (scan_operation spec) (operations_of paths) ;;
     Ok (group_by_tag (somes rs))).
Proof.
  unfold _parse_endpoints, paths_of.
  destruct (py_get spec "paths" (JObj [])) as [ps|]; cbn [bind]; [|reflexivity].
  destruct (py_items ps) as [paths|]; cbn [bind]; [|reflexivity].
  set (step := fun (m : endpoint_map) (r : option EndpointInfo) =>
                 match r with Some e => add_endpoint m e | None => m end).
  rewrite (foldM_ext (parse_path spec)
             (fun m entry =>
                rs <- mapM (fun method =>
                              scan_operation spec (fst entry, snd entry, method))
                        http_methods ;;
                Ok (fold_left step rs m))).
  - rewrite foldM_mapM. unfold operations_of. rewrite mapM_flat_map.
    assert (Hinner : forall entry : string * json,
               mapM (scan_operation spec)
                 (map (fun method => (fst entry, snd entry, method)) http_methods)
               = mapM (fun method =>
                         scan_operation spec (fst entry, snd entry, method))
                   http_methods).
    { intros entry. induction http_methods as [|x r IH]; [reflexivity|].
      cbn [map mapM]. rewrite IH. reflexivity. }
    rewrite (mapM_ext _ _ paths (fun entry _ => Hinner entry)).
    destruct (mapM _ paths) as [rss|]; cbn [bind]; [|reflexivity].
    rewrite fold_left_concat. unfold group_by_tag.
    rewrite <- fold_left_somes. reflexivity.
  - intros m entry _. unfold parse_path.
    rewrite (foldM_ext _ _ http_methods
               (fun st method _ =>
                  parse_operation_scan spec (fst entry) (snd entry) st method)).
    apply (foldM_mapM
             (fun method => scan_operation spec (fst entry, snd entry, method))
             step).
Qed.

Lemma endpoints_of_None t m :
  endpoints_of t m = None <-> existsb (String.eqb t) (map fst m) = false.
Proof.
  induction m as [|[t' l] r IH]; cbn [endpoints_of map fst existsb];
    [tauto|].
  rewrite (String.eqb_sym t t'). destruct (String.eqb t' t); cbn [orb].
  - split; discriminate.
  - exact IH.
Qed.

Lemma keys_append tag e m : map fst (append_endpoint tag e m) = map fst m.
Proof.
  induction m as [|[t l] r IH]; [reflexivity|].
  cbn [append_endpoint]. destruct (String.eqb t tag); cbn [map fst];
    [reflexivity | rewrite IH; reflexivity].
Qed.

Lemma keys_add m e :
  map fst (add_endpoint m e)
  = if existsb (String.eqb (ep_tag e)) (map fst m) then map fst m
    else (map fst m ++ [ep_tag e])%list.
Proof.
  unfold add_endpoint. rewrite keys_append. unfold ensure_tag.
  destruct (endpoints_of (ep_tag e) m) as [l|] eqn:H.
  - destruct (existsb (String.eqb (ep_tag e)) (map fst m)) eqn:Hex; [reflexivity|].
    apply endpoints_of_None in Hex. congruence.
  - apply endpoints_of_None in H. rewrite H, map_app. reflexivity.
Qed.

Lemma endpoints_of_add m e t :
  endpoints_of t (add_endpoint m e)
  = if String.eqb t (ep_tag e)
    then Some (match endpoints_of t m with
               | Some l => (l ++ [e])%list
               | None => [e]
               end)
    else endpoints_of t m.
Proof.
  unfold add_endpoint. rewrite endpoints_of_append.
  destruct (String.eqb t (ep_tag e)) eqn:Ht.
  - apply String.eqb_eq in Ht. subst t. unfold ensure_tag.
    destruct (endpoints_of (ep_tag e) m) as [l|] eqn:H.
    + rewrite H. reflexivity.
    + rewrite endpoints_of_app, H, String.eqb_refl. reflexivity.
  - unfold ensure_tag. destruct (endpoints_of (ep_tag e) m) as [l0|].
    + destruct (endpoints_of t m); reflexivity.
    + rewrite endpoints_of_app. destruct (endpoints_of t m) as [l|]; [reflexivity|].
      rewrite String.eqb_sym, Ht. reflexivity.
Qed.

Lemma group_by_tag_snoc es e :
  group_by_tag (es ++ [e]) = add_endpoint (group_by_tag es) e.
Proof. unfold group_by_tag. rewrite fold_left_app. reflexivity. Qed.

Lemma first_seen_snoc l x :
  first_seen (l ++ [x])
  = if existsb (String.eqb x) l then first_seen l else (first_seen l ++ [x])%list.
Proof.
  induction l as [|y r IH]; [reflexivity|].
  cbn [app first_seen existsb]. rewrite IH.
  destruct (String.eqb x y) eqn:Hxy; cbn [orb].
  - apply String.eqb_eq in Hxy. subst y.
    destruct (existsb (String.eqb x) r); [reflexivity|].
    rewrite filter_app. cbn [filter]. rewrite String.eqb_refl. cbn [negb].
    rewrite app_nil_r. reflexivity.
  - destruct (existsb (String.eqb x) r); [reflexivity|].
    rewrite filter_app. cbn [filter]. rewrite Hxy. reflexivity.
Qed.

Lemma existsb_first_seen x l :
  existsb (String.eqb x) (first_seen l) = existsb (String.eqb x) l.
Proof.
  induction l as [|y r IH]; [reflexivity|].
  cbn [first_seen existsb]. rewrite <- IH.
  destruct (String.eqb x y) eqn:Hxy; [reflexivity|]. cbn [orb].
  generalize (first_seen r). intros l.
  induction l as [|z l IHl]; [reflexivity|].
  cbn [filter existsb]. destruct (String.eqb z y) eqn:Hzy; cbn [negb].
  - rewrite IHl. apply String.eqb_eq in Hzy. subst z. rewrite Hxy. reflexivity.
  - cbn [existsb]. rewrite IHl. reflexivity.
Qed.

Lemma first_seen_NoDup l : NoDup (first_seen l).
Proof.
  induction l as [|x r IH]; [constructor|].
  cbn [first_seen]. constructor.
  - intros Hin. apply filter_In in Hin. destruct Hin as [_ H].
    rewrite String.eqb_refl in H. discriminate H.
  - apply NoDup_filter. exact IH.
Qed.

Lemma group_keys es : map fst (group_by_tag es) = first_seen (map ep_tag es).
Proof.
  induction es as [|e es IH] using rev_ind; [reflexivity|].
  rewrite group_by_tag_snoc, keys_add, map_app. cbn [map].
  rewrite first_seen_snoc, IH, existsb_first_seen. reflexivity.
Qed.

Lemma group_lists es t :
  endpoints_of t (group_by_tag es)
  = if existsb (String.eqb t) (map ep_tag es) then Some (with_tag t es) else None.
Proof.
  induction es as [|e es IH] using rev_ind; [reflexivity|].
  rewrite group_by_tag_snoc, endpoints_of_add, IH.
  unfold with_tag. rewrite map_app, existsb_app, filter_app. cbn [map existsb filter].
  rewrite orb_false_r, (String.eqb_sym (ep_tag e) t).
  destruct (String.eqb t (ep_tag e)).
  - rewrite orb_true_r.
    destruct (existsb (String.eqb t) (map ep_tag es)) eqn:Hex; [reflexivity|].
    assert (Hnil : filter (fun e0 => String.eqb (ep_tag e0) t) es = []).
    { clear IH. induction es as [|e0 es IHes]; [reflexivity|].
      cbn [map existsb] in Hex. apply orb_false_elim in Hex.
      destruct Hex as [H0 Hes]. cbn [filter].
      rewrite String.eqb_sym, H0. exact (IHes Hes). }
    rewrite Hnil. reflexivity.
  - rewrite orb_false_r, app_nil_r. reflexivity.
Qed.

Lemma group_total es : length (concat (map snd (group_by_tag es))) = length es.
Proof.
  induction es as [|e es IH] using rev_ind; [reflexivity|].
  rewrite group_by_tag_snoc, length_app. cbn [length]. rewrite <- IH.
  generalize (group_by_tag es). intros m. unfold add_endpoint.
  assert (Happend : forall m0,
             endpoints_of (ep_tag e) m0 <> None ->
             length (concat (map snd (append_endpoint (ep_tag e) e m0)))
             = length (concat (map snd m0)) + 1).
  { induction m0 as [|[t l] r IHr]; [intros H; exfalso; apply H; reflexivity|].
    cbn [endpoints_of append_endpoint]. destruct (String.eqb t (ep_tag e)).
    - intros _. cbn [map snd concat]. rewrite !length_app. cbn [length]. lia.
    - intros H. cbn [map snd concat]. rewrite !length_app, (IHr H). lia. }
  rewrite Happend.
  - unfold ensure_tag. destruct (endpoints_of (ep_tag e) m); [reflexivity|].
    rewrite map_app, concat_app, length_app. cbn. lia.
  - destruct (endpoints_of_ensure_same (ep_tag e) m) as [l ->]. discriminate.
Qed.

Lemma endpoints_of_In t l m :
  NoDup (map fst m) -> In (t, l) m -> endpoints_of t m = Some l.
Proof.
  induction m as [|[t' l'] r IH]; [intros _ []|].
  cbn [map fst endpoints_of]. intros Hnd Hin. inversion Hnd as [|? ? Hnotin Hnd']; subst.
  destruct Hin as [Heq|Hin].
  - inversion Heq; subst. rewrite String.eqb_refl. reflexivity.
  - destruct (String.eqb t' t) eqn:Ht.
    + apply String.eqb_eq in Ht. subst t'. exfalso. apply Hnotin.
      apply in_map_iff. exists (t, l). auto.
    + exact (IH Hnd' Hin).
Qed.

Lemma endpoints_of_Some_In t l m : endpoints_of t m = Some l -> In (t, l) m.
Proof.
  induction m as [|[t' l'] r IH]; [discriminate|].
  cbn [endpoints_of]. destruct (String.eqb t' t) eqn:Ht.
  - apply String.eqb_eq in Ht. intros H. inversion H; subst. left. reflexivity.
  - intros H. right. exact (IH H).
Qed.

Lemma existsb_tag_In t es :
  existsb (String.eqb t) (map ep_tag es) = true <->
  exists e, In e es /\ ep_tag e = t.
Proof.
  rewrite existsb_exists. split.
  - intros (x & Hin & Heq). apply String.eqb_eq in Heq. subst x.
    apply in_map_iff in Hin. destruct Hin as (e & He & Hin). exists e. auto.
  - intros (e & Hin & <-). exists (ep_tag e). split.
    + apply in_map. exact Hin.
    + apply String.eqb_refl.
Qed.

Lemma with_tag_In t es e : In e (with_tag t es) <-> In e es /\ ep_tag e = t.
Proof.
  unfold with_tag. rewrite filter_In, String.eqb_eq. tauto.
Qed.

Lemma _parse_endpoints_Ok spec m :
  _parse_endpoints spec = Ok m ->
  exists paths rs,
    paths_of spec = Ok paths /\
    mapM (scan_operation spec) (operations_of paths) = Ok rs /\
    m = group_by_tag (somes rs).
Proof.
  rewrite _parse_endpoints_scan. intros H.
  destruct (paths_of spec) as [paths|] eqn:Hp; cbn [bind] in H; [|discriminate H].
  destruct (mapM (scan_operation spec) (operations_of paths)) as [rs|] eqn:Hrs;
    cbn [bind] in H; [|discriminate H].
  inversion H. exists paths, rs. split; [reflexivity|]. split; [exact Hrs|].
  reflexivity.
Qed.

Lemma group_entry es t l :
  In (t, l) (group_by_tag es) -> l = with_tag t es /\ l <> [].
Proof.
  intros Hin.
  assert (Hnd : NoDup (map fst (group_by_tag es))).
  { rewrite group_keys. apply first_seen_NoDup. }
  pose proof (endpoints_of_In _ _ _ Hnd Hin) as Hl. rewrite group_lists in Hl.
  destruct (existsb (String.eqb t) (map ep_tag es)) eqn:Hex; [|discriminate Hl].
  inversion Hl; subst l. split; [reflexivity|].
  apply existsb_tag_In in Hex. destruct Hex as (e & He & Ht).
  intros Hnil. assert (Hin' : In e (with_tag t es)) by (apply with_tag_In; auto).
  rewrite Hnil in Hin'. destruct Hin'.
Qed.

(** X11.  A run of [_parse_endpoints] that ends has filed the endpoints of
    the operations, scanned path by path and method by method, under their
    tags: the tags of the map are distinct and come in the order of their
    first endpoint; the list of a tag holds the endpoints of that tag, all
    of them and in the order of the scan, and is never empty; every scanned
    endpoint is in the map, and the map holds as many endpoints as the
    scan found. *)
Theorem endpoints_grouped_by_tag spec m :
  _parse_endpoints spec = Ok m ->
  exists paths rs,
    paths_of spec = Ok paths /\
    mapM (scan_operation spec) (operations_of paths) = Ok rs /\
    map fst m = first_seen (map ep_tag (somes rs)) /\
    NoDup (map fst m) /\
    (forall t l, In (t, l) m -> l = with_tag t (somes rs) /\ l <> []) /\
    (forall e, In e (somes rs) -> exists l, In (ep_tag e, l) m /\ In e l) /\
    length (concat (map snd m)) = length (somes rs).
Proof.
  intros H. destruct (_parse_endpoints_Ok _ _ H) as (paths & rs & Hp & Hrs & ->).
  exists paths, rs. split; [exact Hp|]. split; [exact Hrs|].
  split; [apply group_keys|].
  split; [rewrite group_keys; apply first_seen_NoDup|].
  split; [intros t l; apply group_entry|].
  split; [|apply group_total].
  intros e He. exists (with_tag (ep_tag e) (somes rs)). split.
  - apply endpoints_of_Some_In. rewrite group_lists.
    assert (Hex : existsb (String.eqb (ep_tag e)) (map ep_tag (somes rs)) = true).
    { apply existsb_tag_In. exists e. auto. }
    rewrite Hex. reflexivity.
  - apply with_tag_In. auto.
Qed.

Lemma endpoints_grouped_by_tag_witness :
  _parse_endpoints doc_with_paths
  = Ok [("default", [list_sessions]); ("sessions_api", [start_session])] /\
  exists paths rs,
    paths_of doc_with_paths = Ok paths /\
    mapM (scan_operation doc_with_paths) (operations_of paths) = Ok rs /\
    somes rs = [list_sessions; start_session] /\
    NoDup ["default"; "sessions_api"].
Proof.
  split; [vm_compute; reflexivity|].
  destruct (endpoints_grouped_by_tag doc_with_paths
              [("default", [list_sessions]); ("sessions_api", [start_session])]
              eq_refl)
    as (paths & rs & Hp & Hrs & _ & Hnd & _).
  exists paths, rs. split; [exact Hp|]. split; [exact Hrs|]. split; [|exact Hnd].
  vm_compute in Hp. inversion Hp; subst paths.
  vm_compute in Hrs. inversion Hrs. reflexivity.
Defined.

Lemma operation_tag_Ok operation tag :
  operation_tag operation = Ok tag -> exists first, tag = sanitize_name first.
Proof.
  unfold operation_tag. intros H. invert_bind H. inversion H.
  eexists. reflexivity.
Qed.

Lemma sanitize_name_no_leading_underscore name :
  starts_with is_underscore (sanitize_name name) = false.
Proof. unfold sanitize_name. apply snake_case_no_leading_underscore. Qed.

Lemma _parse_endpoint_fields spec path method operation tag e :
  _parse_endpoint spec path method operation tag = Ok e ->
  ep_python_name e = snake_case (ep_name e) /\
  exists okvs,
    operation = JObj okvs /\
    JStr (ep_name e)
    = or_default (JStr (method ++ "_" ++ path)) (lookup "operationId" okvs).
Proof.
  unfold _parse_endpoint. intros H. invert_bind H. inversion H; subst e.
  cbn [ep_python_name ep_name]. split; [reflexivity|].
  match goal with
  | Hget : py_get operation "operationId" _ = Ok _ |- _ =>
      destruct (py_get_Ok_obj _ _ _ _ Hget) as [okvs ->];
      rewrite py_get_obj in Hget; inversion Hget as [Hid]
  end.
  exists okvs. split; [reflexivity|].
  match goal with
  | Hstr : as_str TypeError ?j = Ok _ |- _ =>
      destruct j; try discriminate Hstr; inversion Hstr; subst;
      symmetry; exact Hid
  end.
Qed.

Lemma scan_operation_Ok spec path item method e :
  scan_operation spec (path, item, method) = Ok (Some e) ->
  ep_path e = path /\ ep_method e = upper method /\
  ep_python_name e = snake_case (ep_name e) /\
  (exists first, ep_tag e = sanitize_name first) /\
  exists okvs,
    py_getitem item method = Ok (JObj okvs) /\
    JStr (ep_name e)
    = or_default (JStr (method ++ "_" ++ path)) (lookup "operationId" okvs).
Proof.
  unfold scan_operation. intros H.
  destruct (py_in method item) as [[|]|]; cbn [bind negb] in H;
    try discriminate H.
  destruct (py_getitem item method) as [operation|]; cbn [bind] in H;
    [|discriminate H].
  destruct (operation_tag operation) as [tag|] eqn:Htag; cbn [bind] in H;
    [|discriminate H].
  destruct (_parse_endpoint spec path method operation tag) as [e'|] eqn:He;
    cbn [bind] in H; [|discriminate H].
  inversion H; subst e'.
  destruct (_parse_endpoint_Ok _ _ _ _ _ _ He) as (Ht & Hp & Hm).
  destruct (_parse_endpoint_fields _ _ _ _ _ _ He) as (Hpy & okvs & -> & Hid).
  destruct (operation_tag_Ok _ _ Htag) as [first Hfirst].
  repeat split; try assumption.
  - exists first. congruence.
  - exists okvs. auto.
Qed.

Lemma In_operations_of paths path item method :
  In (path, item, method) (operations_of paths) ->
  In (path, item) paths /\ In method http_methods.
Proof.
  unfold operations_of. rewrite in_flat_map. intros ([p i] & Hin & Hop).
  apply in_map_iff in Hop. destruct Hop as (m' & Heq & Hm).
  cbn [fst snd] in Heq. inversion Heq; subst. auto.
Qed.

Lemma scanned_endpoint spec paths rs e :
  mapM (scan_operation spec) (operations_of paths) = Ok rs ->
  In e (somes rs) ->
  exists path item method,
    In (path, item) paths /\ In method http_methods /\
    scan_operation spec (path, item, method) = Ok (Some e).
Proof.
  intros Hrs He. apply somes_In in He. apply mapM_Ok_Forall2 in Hrs.
  destruct (Forall2_In_r _ _ _ _ Hrs He) as ([[path item] method] & Hin & Hscan).
  destruct (In_operations_of _ _ _ _ Hin) as [Hp Hm].
  exists path, item, method. auto.
Qed.

(** X12.  Every endpoint of the parsed map is filed under its own tag,
    which is a sanitized name and does not start with an underscore; its
    method is one of GET, POST, PUT, PATCH, DELETE; its path is a path of
    the document; its name is the [operationId] of the operation, or the
    method joined to the path by an underscore when there is none; its
    identifier is the snake-cased name. *)
Theorem parsed_endpoint_fields spec m :
  _parse_endpoints spec = Ok m ->
  exists paths,
    paths_of spec = Ok paths /\
    forall t l e,
      In (t, l) m -> In e l ->
      ep_tag e = t /\
      (exists first, t = sanitize_name first) /\
      starts_with is_underscore t = false /\
      In (ep_method e) ["GET"; "POST"; "PUT"; "PATCH"; "DELETE"] /\
      ep_python_name e = snake_case (ep_name e) /\
      exists item method okvs,
        In (ep_path e, item) paths /\ In method http_methods /\
        ep_method e = upper method /\
        py_getitem item method = Ok (JObj okvs) /\
        JStr (ep_name e)
        = or_default (JStr (method ++ "_" ++ ep_path e)) (lookup "operationId" okvs).
Proof.
  intros H. destruct (_parse_endpoints_Ok _ _ H) as (paths & rs & Hp & Hrs & ->).
  exists paths. split; [exact Hp|]. intros t l e Hl He.
  destruct (group_entry _ _ _ Hl) as [-> _].
  apply with_tag_In in He. destruct He as [He Ht].
  destruct (scanned_endpoint _ _ _ _ Hrs He)
    as (path & item & method & Hpath & Hmethod & Hscan).
  destruct (scan_operation_Ok _ _ _ _ _ Hscan)
    as (Hep & Hem & Hpy & [first Hfirst] & okvs & Hop & Hid).
  split; [exact Ht|].
  split; [exists first; congruence|].
  split; [rewrite <- Ht, Hfirst; apply sanitize_name_no_leading_underscore|].
  split; [rewrite Hem; exact (in_map upper _ _ Hmethod)|].
  split; [exact Hpy|].
  exists item, method, okvs. rewrite Hep. auto 10.
Qed.

Lemma parsed_endpoint_fields_witness :
  _parse_endpoints doc_with_paths
  = Ok [("default", [list_sessions]); ("sessions_api", [start_session])] /\
  ep_name list_sessions = "listSessions" /\
  ep_python_name list_sessions = snake_case (ep_name list_sessions) /\
  In (ep_method list_sessions) ["GET"; "POST"; "PUT"; "PATCH"; "DELETE"].
Proof.
  split; [vm_compute; reflexivity|]. split; [reflexivity|].
  destruct (parsed_endpoint_fields doc_with_paths
              [("default", [list_sessions]); ("sessions_api", [start_session])]
              eq_refl) as (paths & _ & Hall).
  destruct (Hall "default" [list_sessions] list_sessions
              (or_introl eq_refl) (or_introl eq_refl))
    as (_ & _ & _ & Hm & Hpy & _).
  split; [exact Hpy | exact Hm].
Defined.

Lemma append_length_sum s t :
  String.length (s ++ t) = String.length s + String.length t.
Proof. induction s as [|c r IH]; [reflexivity|]. cbn. rewrite IH. reflexivity. Qed.

Lemma append_cancel_right x : forall s t, s ++ x = t ++ x -> s = t.
Proof.
  induction s as [|c s IH]; intros [|d t] H.
  - reflexivity.
  - apply (f_equal String.length) in H. cbn [append] in H.
    cbn [String.length] in H. rewrite append_length_sum in H. lia.
  - apply (f_equal String.length) in H. cbn [append] in H.
    cbn [String.length] in H. rewrite append_length_sum in H. lia.
  - cbn [append] in H. inversion H. f_equal. apply IH. assumption.
Qed.

Lemma NoDup_map_injective {A B : Type} (f : A -> B) (l : list A) :
  (forall x y, f x = f y -> x = y) -> NoDup l -> NoDup (map f l).
Proof.
  intros Hinj. induction 1 as [|x l Hnotin _ IH]; [constructor|].
  cbn [map]. constructor; [|exact IH].
  intros Hin. apply in_map_iff in Hin. destruct Hin as (y & Hy & Hin).
  apply Hinj in Hy. subst y. exact (Hnotin Hin).
Qed.

Lemma module_names_distinct (keys : list string) :
  NoDup keys ->
  (forall t, In t keys -> starts_with is_underscore t = false) ->
  NoDup (map (fun t => t ++ ".py") keys) /\
  ~ In "__init__.py" (map (fun t => t ++ ".py") keys).
Proof.
  intros Hnd Hkeys. split.
  - apply NoDup_map_injective; [|exact Hnd].
    intros x y. apply append_cancel_right.
  - intros Hin. apply in_map_iff in Hin. destruct Hin as (t & Heq & Hin).
    apply (append_cancel_right ".py" t "__init__") in Heq. subst t.
    specialize (Hkeys _ Hin). discriminate Hkeys.
Qed.

(** X13.  The files that [_generate_api] and [_generate_cli] write into
    their directories have pairwise distinct names: no two tags share a
    module, and no tag module is the index [__init__.py]. *)
Theorem tag_modules_do_not_collide spec m :
  _parse_endpoints spec = Ok m ->
  NoDup (api_filenames m) /\ NoDup (cli_filenames m).
Proof.
  intros H. destruct (_parse_endpoints_Ok _ _ H) as (paths & rs & Hp & Hrs & ->).
  assert (Hkeys : forall t, In t (map fst (group_by_tag (somes rs))) ->
                            starts_with is_underscore t = false).
  { intros t Hin. apply in_map_iff in Hin. destruct Hin as ([t' l] & <- & Hin).
    cbn [fst]. destruct (group_entry _ _ _ Hin) as [-> Hne].
    destruct (with_tag t' (somes rs)) as [|e l'] eqn:Hl; [congruence|].
    assert (He : In e (with_tag t' (somes rs))) by (rewrite Hl; left; reflexivity).
    apply with_tag_In in He. destruct He as [He <-].
    destruct (scanned_endpoint _ _ _ _ Hrs He) as (path & item & method & _ & _ & Hs).
    destruct (scan_operation_Ok _ _ _ _ _ Hs) as (_ & _ & _ & [first ->] & _).
    apply sanitize_name_no_leading_underscore. }
  assert (Hnd : NoDup (map fst (group_by_tag (somes rs)))).
  { rewrite group_keys. apply first_seen_NoDup. }
  destruct (module_names_distinct _ Hnd Hkeys) as [Hmods Hinit].
  unfold api_filenames, cli_filenames.
  rewrite <- (map_map fst (fun t => t ++ ".py")).
  split.
  - apply NoDup_app; [exact Hmods | repeat constructor; intros [] |].
    intros x Hx [<-|[]]. exact (Hinit Hx).
  - constructor; assumption.
Qed.

Lemma tag_modules_do_not_collide_witness :
  _parse_endpoints doc_with_paths
  = Ok [("default", [list_sessions]); ("sessions_api", [start_session])] /\
  api_filenames [("default", [list_sessions]); ("sessions_api", [start_session])]
  = ["default.py"; "sessions_api.py"; "__init__.py"] /\
  NoDup (api_filenames
           [("default", [list_sessions]); ("sessions_api", [start_session])]).
Proof.
  split; [vm_compute; reflexivity|]. split; [reflexivity|].
  exact (proj1 (tag_modules_do_not_collide doc_with_paths
                  [("default", [list_sessions]); ("sessions_api", [start_session])]
                  eq_refl)).
Defined.

(** ** Request bodies and parameters *)

Lemma json_schema_Some content schema :
  json_schema content = Ok (Some schema) ->
  py_in "application/json" content = Ok true /\
  exists media,
    py_getitem content "application/json" = Ok (JObj media) /\
    schema = or_default (JObj []) (lookup "schema" media).
Proof.
  unfold json_schema. intros H.
  destruct (py_in "application/json" content) as [[|]|]; cbn [bind] in H;
    try discriminate H.
  split; [reflexivity|].
  destruct (py_getitem content "application/json") as [media|]; cbn [bind] in H;
    [|discriminate H].
  destruct (py_get media "schema" (JObj [])) as [s|] eqn:Hs; cbn [bind] in H;
    [|discriminate H].
  destruct (py_get_Ok_obj _ _ _ _ Hs) as [mkvs ->].
  rewrite py_get_obj in Hs. inversion Hs. inversion H. subst.
  exists mkvs. auto.
Qed.

(** The cases of [parse_body]. *)
Lemma parse_body_cases okvs :
  (lookup "requestBody" okvs = None -> parse_body (JObj okvs) = Ok None) /\
  (forall rkvs,
      lookup "requestBody" okvs = Some (JObj rkvs) ->
      (lookup "content" rkvs = None \/
       exists c, lookup "content" rkvs = Some (JObj c) /\
                 lookup "application/json" c = None) ->
      parse_body (JObj okvs) = Ok None) /\
  (forall b,
      parse_body (JObj okvs) = Ok (Some b) ->
      exists rkvs content media,
        lookup "requestBody" okvs = Some (JObj rkvs) /\
        lookup "content" rkvs = Some content /\
        py_getitem content "application/json" = Ok (JObj media) /\
        _get_type_hint (or_default (JObj []) (lookup "schema" media)) true
        = Ok (prop_type_hint b) /\
        prop_required b = or_default (JBool true) (lookup "required" rkvs) /\
        prop_description b = or_default (JStr "") (lookup "description" rkvs) /\
        prop_name b = "body" /\ prop_python_name b = "body" /\
        prop_is_body b = true /\
        prop_default b = JNull /\ prop_enum_values b = JNull).
Proof.
  split; [|split].
  - intros H. unfold parse_body. cbn [py_in bind].
    rewrite (has_key_None _ _ H). reflexivity.
  - intros rkvs Hr Hcontent. unfold parse_body, json_schema. cbn [py_in bind].
    rewrite (has_key_Some _ _ _ Hr). cbn [py_getitem]. rewrite Hr.
    cbn [bind]. rewrite py_get_obj.
    destruct Hcontent as [Hc | (c & Hc & Hj)]; rewrite Hc; cbn [or_default bind py_in].
    + reflexivity.
    + rewrite (has_key_None _ _ Hj). reflexivity.
  - intros b H. unfold parse_body in H. cbn [py_in bind] in H.
    unfold has_key in H.
    destruct (lookup "requestBody" okvs) as [rb|] eqn:Hrb; [|discriminate H].
    cbn [py_getitem] in H. rewrite Hrb in H. cbn [bind] in H.
    destruct (py_get rb "content" (JObj [])) as [content|] eqn:Hc;
      cbn [bind] in H; [|discriminate H].
    destruct (py_get_Ok_obj _ _ _ _ Hc) as [rkvs ->].
    rewrite py_get_obj in Hc. inversion Hc as [Hcontent]; clear Hc.
    destruct (json_schema content) as [[schema|]|] eqn:Hs; cbn [bind] in H;
      try discriminate H.
    destruct (json_schema_Some _ _ Hs) as (Hin & media & Hmedia & ->).
    destruct (_get_type_hint (or_default (JObj []) (lookup "schema" media)) true)
      as [h|] eqn:Hh; cbn [bind] in H; [|discriminate H].
    rewrite !py_get_obj in H. cbn [bind] in H. inversion H; subst b; clear H.
    exists rkvs, content, media. cbn.
    split; [reflexivity|]. split.
    + destruct (lookup "content" rkvs) as [c|]; cbn [or_default] in Hcontent;
        [congruence|].
      subst content. discriminate Hin.
    + split; [exact Hmedia|]. repeat split; first [reflexivity | exact Hh].
Qed.

(** A request body with JSON content is never dropped. *)
Lemma parse_body_json okvs rkvs c media :
  lookup "requestBody" okvs = Some (JObj rkvs) ->
  lookup "content" rkvs = Some (JObj c) ->
  lookup "application/json" c = Some (JObj media) ->
  parse_body (JObj okvs) <> Ok None.
Proof.
  intros Hr Hc Hm. unfold parse_body, json_schema. cbn [py_in bind].
  rewrite (has_key_Some _ _ _ Hr). cbn [py_getitem]. rewrite Hr.
  cbn [bind]. rewrite py_get_obj, Hc. cbn [or_default bind py_in].
  rewrite (has_key_Some _ _ _ Hm). cbn [py_getitem]. rewrite Hm.
  cbn [bind]. rewrite py_get_obj. cbn [bind].
  destruct (_get_type_hint _ true); cbn [bind]; [|discriminate].
  rewrite !py_get_obj. cbn [bind]. discriminate.
Qed.

(** X14.  The request body of an endpoint.  The endpoint of an operation
    without [requestBody], or whose request body has no [application/json]
    content, has no body; the endpoint of an operation whose request body
    has JSON content has one.  The body is named [body], is flagged as
    body, has no default and no enum values, and is required unless the
    request body says otherwise; its type hint is that of the JSON schema
    resolved with [required = true], so that an optional body carries no
    optional marker. *)
Theorem body_of_operation spec path method okvs tag e :
  _parse_endpoint spec path method (JObj okvs) tag = Ok e ->
  (lookup "requestBody" okvs = None -> ep_body e = None) /\
  (forall rkvs,
      lookup "requestBody" okvs = Some (JObj rkvs) ->
      (lookup "content" rkvs = None \/
       exists c, lookup "content" rkvs = Some (JObj c) /\
                 lookup "application/json" c = None) ->
      ep_body e = None) /\
  (forall rkvs c media,
      lookup "requestBody" okvs = Some (JObj rkvs) ->
      lookup "content" rkvs = Some (JObj c) ->
      lookup "application/json" c = Some (JObj media) ->
      exists b, ep_body e = Some b) /\
  (forall b,
      ep_body e = Some b ->
      exists rkvs content media,
        lookup "requestBody" okvs = Some (JObj rkvs) /\
        lookup "content" rkvs = Some content /\
        py_getitem content "application/json" = Ok (JObj media) /\
        _get_type_hint (or_default (JObj []) (lookup "schema" media)) true
        = Ok (prop_type_hint b) /\
        prop_required b = or_default (JBool true) (lookup "required" rkvs) /\
        prop_description b = or_default (JStr "") (lookup "description" rkvs) /\
        prop_name b = "body" /\ prop_python_name b = "body" /\
        prop_is_body b = true /\
        prop_default b = JNull /\ prop_enum_values b = JNull).
Proof.
  intros He.
  destruct (_parse_endpoint_parts _ _ _ _ _ _ He)
    as (okvs' & params & Hop & _ & _ & Hbody & _).
  destruct (parse_body_cases okvs) as (Hnone & Hother & Hsome).
  split; [|split; [|split]].
  - intros H. rewrite (Hnone H) in Hbody. congruence.
  - intros rkvs Hr Hc. rewrite (Hother rkvs Hr Hc) in Hbody. congruence.
  - intros rkvs c media Hr Hc Hm.
    destruct (ep_body e) as [b|]; [exists b; reflexivity|].
    exfalso. exact (parse_body_json _ _ _ _ Hr Hc Hm Hbody).
  - intros b Hb. apply Hsome. rewrite Hbody, Hb. reflexivity.
Qed.

(** A form upload has no body; an optional JSON body is kept, without
    marker. *)
Lemma body_of_operation_witness :
  _parse_endpoint (JObj []) "/api/sendFile" "post" (JObj form_body_operation)
    "chatting" = Ok send_file /\
  ep_body send_file = None /\
  _parse_endpoint (JObj []) "/api/sendText" "post" (JObj optional_body_operation)
    "chatting" = Ok send_text /\
  exists b,
    ep_body send_text = Some b /\
    prop_required b = JBool false /\ prop_type_hint b = "Text".
Proof.
  split; [vm_compute; reflexivity|]. split.
  - refine (proj1 (proj2 (body_of_operation (JObj []) "/api/sendFile" "post"
                            form_body_operation "chatting" send_file eq_refl))
              _ eq_refl _).
    right. eexists. split; reflexivity.
  - split; [vm_compute; reflexivity|].
    destruct (proj1 (proj2 (proj2
                (body_of_operation (JObj []) "/api/sendText" "post"
                   optional_body_operation "chatting" send_text eq_refl)))
                _ _ _ eq_refl eq_refl eq_refl) as [b Hb].
    exists b. split; [exact Hb|]. inversion Hb. split; reflexivity.
Defined.

Lemma hint_of_bare_string required :
  _get_type_hint (JObj [("type", JStr "string")]) required
  = Ok (mark required "str").
Proof. destruct required; vm_compute; reflexivity. Qed.

Lemma param_property_fields target p :
  param_property target = Ok p ->
  prop_python_name p = snake_case (prop_name p) /\
  prop_is_body p = false /\
  exists kvs,
    target = JObj kvs /\
    lookup "name" kvs = Some (JStr (prop_name p)) /\
    _get_type_hint
      (or_default (JObj [("type", JStr "string")]) (lookup "schema" kvs))
      (truthy (prop_required p))
    = Ok (prop_type_hint p) /\
    (lookup "schema" kvs = None ->
     prop_type_hint p = mark (truthy (prop_required p)) "str" /\
     prop_default p = JNull /\ prop_enum_values p = JNull).
Proof.
  unfold param_property. intros H.
  destruct (py_get target "schema" (JObj [("type", JStr "string")]))
    as [schema|] eqn:Hschema; cbn [bind] in H; [|discriminate H].
  destruct (py_get_Ok_obj _ _ _ _ Hschema) as [kvs ->].
  rewrite py_get_obj in Hschema. inversion Hschema as [Hs]; clear Hschema.
  destruct (param_required (JObj kvs)) as [required|]; cbn [bind] in H;
    [|discriminate H].
  cbn [py_getitem] in H.
  destruct (lookup "name" kvs) as [name|] eqn:Hname; cbn [bind] in H;
    [|discriminate H].
  destruct name as [| | | | name | |]; cbn [as_str bind] in H;
    try discriminate H.
  destruct (_get_type_hint schema (truthy required)) as [h|] eqn:Hh;
    cbn [bind] in H; [|discriminate H].
  destruct (py_get schema "default" JNull) as [d|] eqn:Hd; cbn [bind] in H;
    [|discriminate H].
  rewrite py_get_obj in H. cbn [bind] in H.
  destruct (py_get schema "enum" JNull) as [en|] eqn:Hen; cbn [bind] in H;
    [|discriminate H].
  inversion H; subst p; clear H. cbn.
  split; [reflexivity|]. split; [reflexivity|].
  exists kvs. split; [reflexivity|]. split; [exact Hname|].
  split; [rewrite Hs; exact Hh|].
  intros Hnone. rewrite Hnone in Hs. cbn [or_default] in Hs. subst schema.
  rewrite hint_of_bare_string in Hh. inversion Hh.
  cbn in Hd, Hen. inversion Hd. inversion Hen. auto.
Qed.

(** The fields of one parsed parameter. *)
Lemma parse_param_fields spec param p :
  parse_param spec param = Ok p ->
  prop_python_name p = snake_case (prop_name p) /\
  (is_reserved (snake_case (prop_name p)) = true ->
   is_reserved (prop_python_name p) = true) /\
  prop_is_body p = false /\
  exists kvs,
    resolve_param spec param = Ok (JObj kvs) /\
    lookup "name" kvs = Some (JStr (prop_name p)) /\
    _get_type_hint
      (or_default (JObj [("type", JStr "string")]) (lookup "schema" kvs))
      (truthy (prop_required p))
    = Ok (prop_type_hint p) /\
    (lookup "schema" kvs = None ->
     prop_type_hint p = mark (truthy (prop_required p)) "str" /\
     prop_default p = JNull /\ prop_enum_values p = JNull).
Proof.
  intros H. unfold parse_param in H. apply bind_Ok in H.
  destruct H as (target & Hres & Hprop).
  destruct (param_property_fields _ _ Hprop) as (Hpy & Hbody & kvs & -> & Hrest).
  split; [exact Hpy|]. split; [rewrite Hpy; trivial|]. split; [exact Hbody|].
  exists kvs. split; [exact Hres | exact Hrest].
Qed.

(** X15.  The parameters of an endpoint.  They are those the operation
    declares, one for one and in order.  The identifier of a parameter is
    its snake-cased name and nothing more: unlike a property, a parameter
    whose name is a reserved word keeps the reserved word as identifier.
    Its type hint is that of its schema, resolved with the truth value of
    its required flag; a parameter without schema is a string. *)
Theorem parameter_fields spec path method okvs tag e :
  _parse_endpoint spec path method (JObj okvs) tag = Ok e ->
  exists params,
    py_iter (or_default (JArr []) (lookup "parameters" okvs)) = Ok params /\
    Forall2
      (fun param p =>
         prop_python_name p = snake_case (prop_name p) /\
         (is_reserved (snake_case (prop_name p)) = true ->
          is_reserved (prop_python_name p) = true) /\
         prop_is_body p = false /\
         exists kvs,
           resolve_param spec param = Ok (JObj kvs) /\
           lookup "name" kvs = Some (JStr (prop_name p)) /\
           _get_type_hint
             (or_default (JObj [("type", JStr "string")]) (lookup "schema" kvs))
             (truthy (prop_required p))
           = Ok (prop_type_hint p) /\
           (lookup "schema" kvs = None ->
            prop_type_hint p = mark (truthy (prop_required p)) "str" /\
            prop_default p = JNull /\ prop_enum_values p = JNull))
      params (ep_parameters e).
Proof.
  intros He.
  destruct (_parse_endpoint_parts _ _ _ _ _ _ He)
    as (okvs' & params & Hop & Hiter & Hparams & _).
  inversion Hop; subst okvs'. exists params. split; [exact Hiter|].
  apply mapM_Ok_Forall2 in Hparams.
  refine (Forall2_impl _ _ Hparams).
  intros param p Hp. exact (parse_param_fields spec param p Hp).
Qed.

(** The parameter [from] keeps its name. *)
Lemma parameter_fields_witness :
  _parse_endpoint doc_with_parameter "/api/chats/{chatId}" "get"
    (JObj chat_operation) "chats" = Ok get_chat /\
  map prop_name (ep_parameters get_chat) = ["chatId"; "from"] /\
  map prop_python_name (ep_parameters get_chat) = ["chat_id"; "from"] /\
  is_reserved "from" = true /\
  exists params,
    py_iter (or_default (JArr []) (lookup "parameters" chat_operation)) = Ok params /\
    params = [chat_id_ref; from_param] /\
    Forall2 (fun param p => prop_python_name p = snake_case (prop_name p))
      params (ep_parameters get_chat).
Proof.
  split; [vm_compute; reflexivity|]. do 3 (split; [reflexivity|]).
  destruct (parameter_fields doc_with_parameter "/api/chats/{chatId}" "get"
              chat_operation "chats" get_chat eq_refl)
    as (params & Hiter & Hall).
  exists params. split; [exact Hiter|].
  split; [vm_compute in Hiter; inversion Hiter; reflexivity|].
  refine (Forall2_impl _ _ Hall). intros param p H. exact (proj1 H).
Defined.

(** ** References *)

Lemma foldM_app {A S : Type} (f : S -> A -> result S) (l1 l2 : list A) :
  forall st,
    foldM f st (l1 ++ l2)%list = (st' <- foldM f st l1 ;; foldM f st' l2).
Proof.
  induction l1 as [|x r IH]; intros st; [reflexivity|].
  cbn [app foldM]. destruct (f st x) as [st1|]; cbn [bind]; [apply IH | reflexivity].
Qed.

Lemma walk_stops spec pre k post v :
  foldM py_getitem spec pre = Ok v ->
  foldM py_getitem spec (pre ++ k :: post)%list
  = (v' <- py_getitem v k ;; foldM py_getitem v' post).
Proof.
  intros H. rewrite foldM_app, H. reflexivity.
Qed.

(** The walk of one reference. *)
Lemma resolve_param_walk spec pkvs r :
  lookup "$ref" pkvs = Some (JStr r) ->
  (forall a rest,
      r = a ++ String "/" rest -> has_char "/" a = false ->
      resolve_param spec (JObj pkvs) = foldM py_getitem spec (split_on "/" rest)) /\
  (has_char "/" r = false -> resolve_param spec (JObj pkvs) = Ok spec) /\
  (forall pre k post kvs,
      tl (split_on "/" r) = (pre ++ k :: post)%list ->
      foldM py_getitem spec pre = Ok (JObj kvs) -> lookup k kvs = None ->
      parse_param spec (JObj pkvs) = Raise KeyError) /\
  (forall pre k post v,
      tl (split_on "/" r) = (pre ++ k :: post)%list ->
      foldM py_getitem spec pre = Ok v -> (forall kvs, v <> JObj kvs) ->
      parse_param spec (JObj pkvs) = Raise TypeError).
Proof.
  intros Href. pose proof (resolve_param_reference spec pkvs r Href) as Hres.
  split; [|split; [|split]].
  - intros a rest -> Ha. rewrite Hres, split_on_app, (split_on_no_sep _ _ Ha).
    reflexivity.
  - intros Hr. rewrite Hres, (split_on_no_sep _ _ Hr). reflexivity.
  - intros pre k post kvs Hsplit Hpre Hk. unfold parse_param.
    rewrite Hres, Hsplit, (walk_stops _ _ _ _ _ Hpre). cbn [py_getitem].
    rewrite Hk. reflexivity.
  - intros pre k post v Hsplit Hpre Hv. unfold parse_param.
    rewrite Hres, Hsplit, (walk_stops _ _ _ _ _ Hpre).
    destruct v; try reflexivity. exfalso. eapply Hv. reflexivity.
Qed.

(** X16.  The walk of a parameter reference in [_parse_endpoint].  The
    parameter of the returned endpoint is built from the value that the
    walk reaches.  The segment before the first slash is not read, whether
    it is [#] or not; a reference without slash yields the whole document;
    the other segments are followed by subscription, without unescaping.
    A segment that is not a key of the dict reached, or that is applied to
    a value that is not a dict, leaves the operation without endpoint: the
    run ends with KeyError, respectively TypeError, when the operation name
    is a string and the parameters before the reference parse. *)
Theorem reference_walk spec path method okvs tag before pkvs after r :
  lookup "parameters" okvs = Some (JArr (before ++ JObj pkvs :: after)%list) ->
  lookup "$ref" pkvs = Some (JStr r) ->
  (forall e,
      _parse_endpoint spec path method (JObj okvs) tag = Ok e ->
      exists target p,
        foldM py_getitem spec (tl (split_on "/" r)) = Ok target /\
        nth_error (ep_parameters e) (List.length before) = Some p /\
        param_property target = Ok p /\
        (forall a rest,
            r = a ++ String "/" rest -> has_char "/" a = false ->
            foldM py_getitem spec (split_on "/" rest) = Ok target) /\
        (has_char "/" r = false -> target = spec)) /\
  (forall pre k post kvs,
      tl (split_on "/" r) = (pre ++ k :: post)%list ->
      foldM py_getitem spec pre = Ok (JObj kvs) -> lookup k kvs = None ->
      (forall e, _parse_endpoint spec path method (JObj okvs) tag <> Ok e) /\
      (forall name ps,
          or_default (JStr (method ++ "_" ++ path)) (lookup "operationId" okvs)
          = JStr name ->
          parse_parameters spec before = Ok ps ->
          _parse_endpoint spec path method (JObj okvs) tag = Raise KeyError)) /\
  (forall pre k post v,
      tl (split_on "/" r) = (pre ++ k :: post)%list ->
      foldM py_getitem spec pre = Ok v -> (forall kvs, v <> JObj kvs) ->
      (forall e, _parse_endpoint spec path method (JObj okvs) tag <> Ok e) /\
      (forall name ps,
          or_default (JStr (method ++ "_" ++ path)) (lookup "operationId" okvs)
          = JStr name ->
          parse_parameters spec before = Ok ps ->
          _parse_endpoint spec path method (JObj okvs) tag = Raise TypeError)).
Proof.
  intros Hparams Href.
  destruct (resolve_param_walk spec pkvs r Href) as (Hskip & Hwhole & Hkey & Hty).
  assert (Hparsed : forall e,
             _parse_endpoint spec path method (JObj okvs) tag = Ok e ->
             exists p, nth_error (ep_parameters e) (List.length before) = Some p /\
                       parse_param spec (JObj pkvs) = Ok p).
  { intros e He.
    destruct (_parse_endpoint_parts _ _ _ _ _ _ He)
      as (okvs' & params & Hop & Hiter & Hps & _).
    inversion Hop; subst okvs'. rewrite Hparams in Hiter.
    cbn [or_default py_iter] in Hiter. inversion Hiter; subst params.
    apply mapM_Ok_Forall2 in Hps.
    destruct (Forall2_nth_middle _ _ _ _ _ Hps) as (p & Hnth & Hp).
    exists p. auto. }
  assert (Hraise : forall err,
             parse_param spec (JObj pkvs) = Raise err ->
             (forall e, _parse_endpoint spec path method (JObj okvs) tag <> Ok e) /\
             (forall name ps,
                 or_default (JStr (method ++ "_" ++ path)) (lookup "operationId" okvs)
                 = JStr name ->
                 parse_parameters spec before = Ok ps ->
                 _parse_endpoint spec path method (JObj okvs) tag = Raise err)).
  { intros err Herr. split.
    - intros e He. destruct (Hparsed e He) as (p & _ & Hp). congruence.
    - intros name ps Hname Hps.
      apply (_parse_endpoint_parameter_raises spec path method okvs tag name
               before (JObj pkvs) after ps err Hname); try assumption.
      rewrite Hparams. reflexivity. }
  split; [|split].
  - intros e He. destruct (Hparsed e He) as (p & Hnth & Hp).
    unfold parse_param in Hp. apply bind_Ok in Hp.
    destruct Hp as (target & Hres & Hprop).
    exists target, p.
    split; [rewrite <- (resolve_param_reference spec pkvs r Href); exact Hres|].
    split; [exact Hnth|]. split; [exact Hprop|]. split.
    + intros a rest Hr Ha. rewrite <- (Hskip a rest Hr Ha). exact Hres.
    + intros Hr. rewrite (Hwhole Hr) in Hres. inversion Hres. reflexivity.
  - intros pre k post kvs Hsplit Hpre Hk.
    exact (Hraise KeyError (Hkey pre k post kvs Hsplit Hpre Hk)).
  - intros pre k post v Hsplit Hpre Hv.
    exact (Hraise TypeError (Hty pre k post v Hsplit Hpre Hv)).
Qed.

(** A reference to a missing parameter, and one with a file name before
    the [#]. *)
Lemma reference_walk_witness :
  _parse_endpoint doc_with_parameter "/api/messages" "get"
    (JObj missing_ref_operation) "chatting" = Raise KeyError /\
  exists e target p,
    _parse_endpoint doc_with_parameter "/api/messages" "get"
      (JObj foreign_ref_operation) "chatting" = Ok e /\
    foldM py_getitem doc_with_parameter ["components"; "parameters"; "ChatId"]
    = Ok target /\
    target = chat_id_param /\
    nth_error (ep_parameters e) 1 = Some p /\
    param_property target = Ok p.
Proof.
  split.
  - refine (proj2 (proj1 (proj2
              (reference_walk doc_with_parameter "/api/messages" "get"
                 missing_ref_operation "chatting" [from_param]
                 [("$ref", JStr "#/components/parameters/Missing")] []
                 "#/components/parameters/Missing" eq_refl eq_refl))
              ["components"; "parameters"] "Missing" []
              [("ChatId", chat_id_param)] eq_refl eq_refl eq_refl)
              "get_/api/messages" _ eq_refl eq_refl).
  - destruct (_parse_endpoint doc_with_parameter "/api/messages" "get"
                (JObj foreign_ref_operation) "chatting") as [e|] eqn:He;
      [|vm_compute in He; discriminate He].
    destruct (proj1 (reference_walk doc_with_parameter "/api/messages" "get"
                       foreign_ref_operation "chatting" [from_param]
                       [("$ref", JStr "other.json#/components/parameters/ChatId")]
                       [] "other.json#/components/parameters/ChatId"
                       eq_refl eq_refl) e He)
      as (target & p & Hwalk & Hnth & Hprop & Hskip & _).
    exists e, target, p. split; [reflexivity|].
    pose proof (Hskip "other.json#" "components/parameters/ChatId" eq_refl eq_refl)
      as Hfrom.
    split; [exact Hfrom|]. split; [|split; assumption].
    vm_compute in Hfrom. inversion Hfrom. reflexivity.
Defined.

(** ** Entities of a whole document *)

Lemma parse_entity_Ok name schema r :
  parse_entity name schema = Ok r ->
  match r with
  | Some e => is_entity_schema schema = true /\ entity_schema_name e = name
  | None => is_entity_schema schema = false
  end.
Proof.
  intros H. unfold is_entity_schema. destruct r as [e|].
  - pose proof (parse_entity_schema_name _ _ _ H) as Hn.
    unfold parse_entity in H.
    destruct (py_get schema entity_key JNull) as [cfg|]; cbn [bind] in H;
      [|discriminate H].
    destruct (truthy cfg); [auto | discriminate H].
  - unfold parse_entity in H.
    destruct (py_get schema entity_key JNull) as [cfg|]; cbn [bind] in H;
      [|discriminate H].
    destruct (truthy cfg); [|reflexivity]. cbn [negb] in H.
    invert_bind H. discriminate H.
Qed.

Lemma parsed_entities_filter schemas parsed :
  Forall2 (fun kv r => parse_entity (fst kv) (snd kv) = Ok r) schemas parsed ->
  Forall2 (fun e kv => parse_entity (fst kv) (snd kv) = Ok (Some e) /\
                       entity_schema_name e = fst kv)
    (somes parsed) (filter (fun kv => is_entity_schema (snd kv)) schemas).
Proof.
  induction 1 as [|kv r schemas parsed Hr _ IH]; [constructor|].
  pose proof (parse_entity_Ok _ _ _ Hr) as Hk. unfold somes in *.
  cbn [flat_map filter]. destruct r as [e|].
  - destruct Hk as [-> Hn]. cbn [app]. constructor; auto.
  - rewrite Hk. exact IH.
Qed.

Lemma Forall2_map_eq {A B C : Type} (f : A -> C) (g : B -> C) l l' :
  Forall2 (fun a b => f a = g b) l l' -> map f l = map g l'.
Proof.
  induction 1 as [|a b l l' H _ IH]; [reflexivity|].
  cbn [map]. rewrite H, IH. reflexivity.
Qed.

Lemma filtered_keys_stay_distinct {K V : Type} (key : V -> K) (keep : V -> bool) :
  forall items, NoDup (map key items) -> NoDup (map key (filter keep items)).
Proof.
  intros items. induction items as [|v rest IHrest]; cbn [map filter]; intros Hnd.
  - exact Hnd.
  - inversion Hnd as [|? ? Hfresh Hrest]; subst.
    specialize (IHrest Hrest).
    destruct (keep v); [cbn [map]; constructor|]; try exact IHrest.
    intros Hin. apply Hfresh. apply in_map_iff in Hin.
    destruct Hin as (w & Hw & Hin). apply filter_In in Hin.
    apply in_map_iff. exists w. tauto.
Qed.

Lemma parsed_entity_names spec entities :
  _parse_entities spec = Ok entities ->
  exists schemas,
    schemas_of spec = Ok schemas /\
    Forall2 (fun e kv => parse_entity (fst kv) (snd kv) = Ok (Some e) /\
                         entity_schema_name e = fst kv)
      entities (filter (fun kv => is_entity_schema (snd kv)) schemas) /\
    map entity_schema_name entities
    = map fst (filter (fun kv => is_entity_schema (snd kv)) schemas).
Proof.
  unfold _parse_entities. intros H.
  destruct (schemas_of spec) as [schemas|]; cbn [bind] in H; [|discriminate H].
  destruct (mapM (fun kv => parse_entity (fst kv) (snd kv)) schemas)
    as [parsed|] eqn:Hparsed; cbn [bind] in H; [|discriminate H].
  inversion H; subst entities; clear H.
  pose proof (parsed_entities_filter _ _ (mapM_Ok_Forall2 _ _ _ Hparsed)) as HF.
  exists schemas. split; [reflexivity|]. split; [exact HF|].
  apply Forall2_map_eq. eapply Forall2_impl; [|exact HF].
  intros e kv [_ Hn]. exact Hn.
Qed.

(** X17.  A run of [_parse_entities] that ends returns one entity for every
    schema whose extension payload is truthy, in the order of the document,
    each under the name of its schema; the other schemas give none. *)
Theorem entities_in_document_order spec entities :
  _parse_entities spec = Ok entities ->
  exists schemas,
    schemas_of spec = Ok schemas /\
    Forall2 (fun e kv => parse_entity (fst kv) (snd kv) = Ok (Some e) /\
                         entity_schema_name e = fst kv)
      entities (filter (fun kv => is_entity_schema (snd kv)) schemas) /\
    map entity_schema_name entities
    = map fst (filter (fun kv => is_entity_schema (snd kv)) schemas) /\
    (NoDup (map fst schemas) -> NoDup (map entity_schema_name entities)).
Proof.
  intros H. destruct (parsed_entity_names _ _ H) as (schemas & Hs & HF & Hnames).
  exists schemas. split; [exact Hs|]. split; [exact HF|]. split; [exact Hnames|].
  intros Hnd. rewrite Hnames. apply filtered_keys_stay_distinct. exact Hnd.
Qed.

Lemma entities_in_document_order_witness :
  _parse_entities doc_with_entities = Ok [group_entity] /\
  exists schemas,
    schemas_of doc_with_entities = Ok schemas /\
    map entity_schema_name [group_entity]
    = map fst (filter (fun kv => is_entity_schema (snd kv)) schemas) /\
    map fst schemas = ["GroupInfo"; "chat_summary"].
Proof.
  split; [vm_compute; reflexivity|].
  destruct (entities_in_document_order doc_with_entities [group_entity] eq_refl)
    as (schemas & Hs & _ & Hnames & _).
  exists schemas. split; [exact Hs|]. split; [exact Hnames|].
  vm_compute in Hs. inversion Hs. reflexivity.
Defined.

Lemma lookup_dict_set k v d k' :
  lookup k' (dict_set k v d)
  = if String.eqb k k' then Some v else lookup k' d.
Proof.
  induction d as [|[k0 v0] r IH]; cbn [dict_set lookup].
  - reflexivity.
  - destruct (String.eqb k0 k) eqn:Hk; cbn [lookup].
    + apply String.eqb_eq in Hk. subst k0.
      destruct (String.eqb k k'); reflexivity.
    + rewrite IH. destruct (String.eqb k0 k') eqn:Hk'; [|reflexivity].
      apply String.eqb_eq in Hk'. subst k0. rewrite String.eqb_sym, Hk.
      reflexivity.
Qed.

Lemma keys_dict_set k v d :
  map fst (dict_set k v d)
  = if existsb (String.eqb k) (map fst d) then map fst d
    else (map fst d ++ [k])%list.
Proof.
  induction d as [|[k0 v0] r IH]; [reflexivity|].
  cbn [dict_set map fst existsb]. rewrite (String.eqb_sym k k0).
  destruct (String.eqb k0 k); cbn [orb map fst]; [reflexivity|].
  rewrite IH. destruct (existsb (String.eqb k) (map fst r)); reflexivity.
Qed.

Lemma schema_to_entity_snoc es e :
  schema_to_entity (es ++ [e])
  = dict_set (entity_schema_name e) (entity_name e) (schema_to_entity es).
Proof. unfold schema_to_entity. rewrite fold_left_app. reflexivity. Qed.

Lemma schema_to_entity_keys es :
  map fst (schema_to_entity es) = first_seen (map entity_schema_name es).
Proof.
  induction es as [|e es IH] using rev_ind; [reflexivity|].
  rewrite schema_to_entity_snoc, keys_dict_set, map_app. cbn [map].
  rewrite first_seen_snoc, IH, existsb_first_seen. reflexivity.
Qed.

Lemma first_seen_NoDup_id l : NoDup l -> first_seen l = l.
Proof.
  induction 1 as [|x l Hnotin _ IH]; [reflexivity|].
  cbn [first_seen]. rewrite IH. f_equal.
  clear IH. induction l as [|y r IHr]; [reflexivity|].
  cbn [filter]. destruct (String.eqb y x) eqn:Hyx.
  - apply String.eqb_eq in Hyx. subst y. exfalso. apply Hnotin. left. reflexivity.
  - cbn [negb]. f_equal. apply IHr. intros Hin. apply Hnotin. right. exact Hin.
Qed.

Lemma schema_to_entity_lookup es :
  NoDup (map entity_schema_name es) ->
  forall e, In e es ->
    lookup (entity_schema_name e) (schema_to_entity es) = Some (entity_name e).
Proof.
  induction es as [|e' es IH] using rev_ind; [intros _ e []|].
  rewrite map_app. cbn [map]. intros Hnd e Hin.
  rewrite schema_to_entity_snoc, lookup_dict_set.
  apply NoDup_remove in Hnd. rewrite app_nil_r in Hnd. destruct Hnd as [Hnd Hnotin].
  apply in_app_or in Hin. destruct Hin as [Hin|[<-|[]]].
  - destruct (String.eqb (entity_schema_name e') (entity_schema_name e)) eqn:Heq.
    + apply String.eqb_eq in Heq. exfalso. apply Hnotin. rewrite Heq.
      apply in_map. exact Hin.
    + exact (IH Hnd e Hin).
  - rewrite String.eqb_refl. reflexivity.
Qed.

(** X18.  The mapping from schema names to entity class names that the
    wrapper generator builds has the schema names of the entities as keys,
    in the order of the entities, and, schema names being distinct, maps
    the schema name of every entity to its class name; a name that is not
    the schema name of an entity has no entry. *)
Theorem schema_to_entity_lookups es :
  NoDup (map entity_schema_name es) ->
  map fst (schema_to_entity es) = map entity_schema_name es /\
  (forall e, In e es ->
     lookup (entity_schema_name e) (schema_to_entity es) = Some (entity_name e)) /\
  (forall name, ~ In name (map entity_schema_name es) ->
     lookup name (schema_to_entity es) = None).
Proof.
  intros Hnd.
  assert (Hkeys : map fst (schema_to_entity es) = map entity_schema_name es).
  { rewrite schema_to_entity_keys. apply first_seen_NoDup_id, Hnd. }
  split; [exact Hkeys|]. split; [exact (schema_to_entity_lookup es Hnd)|].
  intros name Hnotin. rewrite <- Hkeys in Hnotin.
  generalize dependent (schema_to_entity es). intros d _ Hnotin.
  induction d as [|[k v] r IH]; [reflexivity|].
  cbn [lookup]. destruct (String.eqb k name) eqn:Hk.
  - apply String.eqb_eq in Hk. subst k. exfalso. apply Hnotin. left. reflexivity.
  - apply IH. intros Hin. apply Hnotin. right. exact Hin.
Qed.

Lemma schema_to_entity_lookups_witness :
  schema_to_entity [group_entity] = [("GroupInfo", JStr "Group")] /\
  lookup "GroupInfo" (schema_to_entity [group_entity]) = Some (JStr "Group") /\
  lookup "chat_summary" (schema_to_entity [group_entity]) = None.
Proof.
  assert (Hnd : NoDup (map entity_schema_name [group_entity])).
  { repeat constructor. intros []. }
  split; [reflexivity|]. split.
  - exact (proj1 (proj2 (schema_to_entity_lookups [group_entity] Hnd))
             group_entity (or_introl eq_refl)).
  - apply (proj2 (proj2 (schema_to_entity_lookups [group_entity] Hnd))).
    intros [H|[]]. discriminate H.
Defined.

(** ** The group filter of the sticker example *)

(** X19.  [find_groups_by_name] returns the groups whose name is one of the
    given names, each as often as it occurs and in the order of the groups,
    not of the names; names are compared exactly, and only the set of the
    names matters; filtering the result again changes nothing. *)
Theorem find_groups_by_name_filters
    {Group : Type} (group_name : Group -> json) (names : list string) :
  (forall groups g,
      In g (find_groups_by_name group_name groups names) <->
      In g groups /\ exists n, In n names /\ group_name g = JStr n) /\
  (forall groups1 groups2,
      find_groups_by_name group_name (groups1 ++ groups2) names
      = (find_groups_by_name group_name groups1 names ++
         find_groups_by_name group_name groups2 names)%list) /\
  (forall groups,
      find_groups_by_name group_name
        (find_groups_by_name group_name groups names) names
      = find_groups_by_name group_name groups names) /\
  (forall groups names',
      (forall n, In n names <-> In n names') ->
      find_groups_by_name group_name groups names'
      = find_groups_by_name group_name groups names) /\
  (forall groups, find_groups_by_name group_name groups [] = []).
Proof.
  unfold find_groups_by_name.
  assert (Hex : forall l g,
             existsb (eq_str (group_name g)) l = true <->
             exists n, In n l /\ group_name g = JStr n).
  { intros l g. rewrite existsb_exists. split; intros (n & Hin & Hn); exists n;
      (split; [exact Hin|]); apply eq_str_true; exact Hn. }
  split; [|split; [|split; [|split]]].
  - intros groups g. rewrite filter_In, Hex. tauto.
  - intros groups1 groups2. apply filter_app.
  - intros groups. induction groups as [|g r IH]; [reflexivity|].
    cbn [filter]. destruct (existsb (eq_str (group_name g)) names) eqn:Hg.
    + cbn [filter]. rewrite Hg, IH. reflexivity.
    + exact IH.
  - intros groups names' Hset. apply filter_ext. intros g.
    destruct (existsb (eq_str (group_name g)) names) eqn:Hg.
    + apply Hex in Hg. apply Hex. destruct Hg as (n & Hin & Hn).
      exists n. split; [apply Hset; exact Hin | exact Hn].
    + destruct (existsb (eq_str (group_name g)) names') eqn:Hg'; [|reflexivity].
      apply Hex in Hg'. destruct Hg' as (n & Hin & Hn).
      assert (Ht : existsb (eq_str (group_name g)) names = true).
      { apply Hex. exists n. split; [apply Hset; exact Hin | exact Hn]. }
      congruence.
  - intros groups. induction groups as [|g r IH]; [reflexivity | exact IH].
Qed.

Lemma find_groups_by_name_filters_witness :
  find_groups_by_name pair_name
    [("family", "1@g.us"); ("Work", "2@g.us"); ("work", "3@g.us");
     ("family", "4@g.us")]
    ["work"; "family"]
  = [("family", "1@g.us"); ("work", "3@g.us"); ("family", "4@g.us")] /\
  find_groups_by_name pair_name
    (find_groups_by_name pair_name
       [("family", "1@g.us"); ("Work", "2@g.us")] ["work"; "family"])
    ["work"; "family"]
  = find_groups_by_name pair_name
      [("family", "1@g.us"); ("Work", "2@g.us")] ["work"; "family"].
Proof.
  split; [reflexivity|].
  exact (proj1 (proj2 (proj2
           (find_groups_by_name_filters pair_name ["work"; "family"])))
           [("family", "1@g.us"); ("Work", "2@g.us")]).
Defined.

(** ** Module names and enum labels *)

(** X20.  No model or enum module that [_generate_models] writes is named
    [__init__.py]: the index, written last, replaces no module. *)
Theorem model_modules_spare_the_index models enums :
  ~ In "__init__.py" (model_modules models enums) /\
  model_filenames models enums
  = (model_modules models enums ++ ["__init__.py"])%list.
Proof.
  split; [|reflexivity].
  assert (Hno : forall s, snake_case s ++ ".py" <> "__init__.py").
  { intros s Heq. apply (append_cancel_right ".py" _ "__init__") in Heq.
    pose proof (snake_case_no_leading_underscore s) as H.
    rewrite Heq in H. discriminate H. }
  unfold model_modules. intros Hin. apply in_app_or in Hin.
  destruct Hin as [Hin|Hin]; apply in_map_iff in Hin;
    destruct Hin as (x & Heq & _); exact (Hno _ Heq).
Qed.

Lemma label_of_snake_char c :
  is_snake_char c = true -> is_label_char (upper_char c) = true.
Proof.
  destruct c as [[|] [|] [|] [|] [|] [|] [|] [|]]; cbn; intros H;
    first [reflexivity | discriminate H].
Qed.

(** X21.  The labels of a parsed enum: the label of a value is the
    upper-cased snake case of its [str()], so that, for a value whose
    [str()] is ASCII, it is made of capital letters, digits and
    underscores; equal labels of different values are all kept. *)
Theorem enum_labels py_str name schema e :
  parse_schema py_str name schema = Ok (IsEnum e) ->
  enum_members schema = Ok (map snd (enum_values e)) /\
  Forall (fun lv =>
            fst lv = upper (snake_case (py_str (snd lv))) /\
            (is_ascii (py_str (snd lv)) = true ->
             all_chars is_label_char (fst lv) = true))
    (enum_values e).
Proof.
  intros H.
  split; [exact (proj2 (proj2 (proj2 (parse_schema_Ok _ _ _ _ H))))|].
  unfold parse_schema in H.
  destruct (py_in "enum" schema) as [[|]|]; cbn [bind] in H; try discriminate H.
  - invert_bind H. inversion H; subst e. cbn [enum_values].
    apply Forall_map. apply Forall_forall. intros v _. cbn [fst snd].
    split; [reflexivity|]. intros _. unfold upper.
    apply (all_chars_map is_snake_char); [exact label_of_snake_char|].
    apply snake_case_alphabet.
  - invert_bind H.
    repeat match type of H with
      | (if ?b then _ else _) = _ => destruct b
      | bind ?m _ = _ => destruct m; cbn [bind] in H
      end; try discriminate H.
Qed.

Lemma enum_labels_witness :
  exists e,
    parse_schema str_of_string "Status"
      (JObj [("enum", JArr [JStr "in-progress"; JStr "inProgress"; JStr "DONE"])])
    = Ok (IsEnum e) /\
    enum_values e
    = [("IN_PROGRESS", JStr "in-progress"); ("IN_PROGRESS", JStr "inProgress");
       ("DONE", JStr "DONE")] /\
    Forall (fun lv =>
              fst lv = upper (snake_case (str_of_string (snd lv))) /\
              (is_ascii (str_of_string (snd lv)) = true ->
               all_chars is_label_char (fst lv) = true))
      (enum_values e).
Proof.
  eexists. split; [vm_compute; reflexivity|]. split; [reflexivity|].
  exact (proj2 (enum_labels str_of_string "Status"
           (JObj [("enum", JArr [JStr "in-progress"; JStr "inProgress"; JStr "DONE"])])
           _ eq_refl)).
Defined.

(** ** Entities and models of one document *)

Lemma entity_properties_as_model name schema e :
  parse_entity name schema = Ok (Some e) ->
  has "allOf" schema = false ->
  model_properties_of schema = Ok (entity_properties e).
Proof.
  unfold parse_entity. intros H Hall.
  destruct (py_get schema entity_key JNull) as [cfg|] eqn:Hcfg;
    cbn [bind] in H; [|discriminate H].
  destruct (py_get_Ok_obj _ _ _ _ Hcfg) as [kvs ->].
  destruct (truthy cfg); cbn [negb] in H; [|discriminate H].
  destruct (py_get cfg "class_name" (JStr (pascal_case name))) as [cn|];
    cbn [bind] in H; [|discriminate H].
  unfold model_properties_of.
  destruct (py_get (JObj kvs) "required" (JArr [])) as [req|]; cbn [bind] in H |- *;
    [|discriminate H].
  destruct (py_set req) as [required_fields|]; cbn [bind] in H |- *;
    [|discriminate H].
  unfold has in Hall. cbn [py_in] in Hall |- *. rewrite Hall. cbn [bind].
  destruct (py_get (JObj kvs) "properties" (JObj [])) as [ps|]; cbn [bind] in H |- *;
    [|discriminate H].
  destruct (py_items ps) as [own|]; cbn [bind] in H |- *; [|discriminate H].
  destruct (parse_properties required_fields own) as [props|]; cbn [bind] in H |- *;
    [|discriminate H].
  invert_bind H. inversion H. reflexivity.
Qed.

Lemma Forall2_In_l {A B : Type} (R : A -> B -> Prop) (l : list A) (l' : list B) x :
  Forall2 R l l' -> In x l -> exists y, In y l' /\ R x y.
Proof.
  induction 1 as [|x' y l l' Hxy _ IH]; [intros []|].
  intros [->|Hin].
  - exists y. split; [left; reflexivity | exact Hxy].
  - destruct (IH Hin) as (y' & Hy' & HR). exists y'. split; [right|]; assumption.
Qed.

(** X22.  An entity is a view of the model of its schema.  After a run of
    [parse] that ends, every entity bears the name of a schema of the
    document; when that schema is a model, the model of that name is among
    the parsed models, and when moreover the schema has no [allOf], the
    entity and the model have the same properties. *)
Theorem entity_is_view_of_model py_str spec st :
  parse py_str spec = Ok st ->
  exists schemas,
    schemas_of spec = Ok schemas /\
    forall e, In e (st_entities st) ->
      exists schema,
        In (entity_schema_name e, schema) schemas /\
        is_entity_schema schema = true /\
        (is_model_schema schema = true ->
         exists m, In m (st_models st) /\
                   model_name m = entity_schema_name e /\
                   (has "allOf" schema = false ->
                    model_properties m = entity_properties e)).
Proof.
  unfold parse. intros H.
  destruct (_parse_schemas py_str spec) as [[enums models]|] eqn:Hs;
    cbn [bind] in H; [|discriminate H].
  destruct (_parse_endpoints spec) as [endpoints|]; cbn [bind] in H;
    [|discriminate H].
  destruct (_parse_entities spec) as [entities|] eqn:He; cbn [bind] in H;
    [|discriminate H].
  inversion H; subst st; clear H. cbn [st_entities st_models].
  destruct (parsed_entity_names _ _ He) as (schemas & Hschemas & HFe & _).
  exists schemas. split; [exact Hschemas|]. intros e Hin.
  destruct (Forall2_In_l _ _ _ _ HFe Hin) as ([name schema] & Hkv & Hparse & Hname).
  cbn [fst snd] in Hparse, Hname. apply filter_In in Hkv. cbn [snd] in Hkv.
  destruct Hkv as [Hkv Hent]. exists schema. rewrite Hname.
  split; [exact Hkv|]. split; [exact Hent|]. intros Hmodel.
  unfold _parse_schemas in Hs. rewrite Hschemas in Hs. cbn [bind] in Hs.
  destruct (mapM (fun kv => parse_schema py_str (fst kv) (snd kv)) schemas)
    as [parsed|] eqn:Hparsed; cbn [bind] in Hs; [|discriminate Hs].
  inversion Hs; subst enums models; clear Hs.
  destruct (parsed_schemas_split _ _ _ (mapM_Ok_Forall2 _ _ _ Hparsed)) as [_ HFm].
  assert (Hin' : In (name, schema)
                   (filter (fun kv => is_model_schema (snd kv)) schemas)).
  { apply filter_In. auto. }
  destruct (Forall2_In_r _ _ _ _ HFm Hin') as (m & Hm & Hmn & _ & Hmp).
  cbn [fst snd] in Hmn, Hmp. exists m. split; [exact Hm|]. split; [exact Hmn|].
  intros Hall. rewrite (entity_properties_as_model _ _ _ Hparse Hall) in Hmp.
  inversion Hmp. reflexivity.
Qed.

Lemma entity_is_view_of_model_witness :
  exists st schemas,
    parse str_of_string doc_with_entities = Ok st /\
    map entity_schema_name (st_entities st) = ["GroupInfo"] /\
    map model_name (st_models st) = ["GroupInfo"; "chat_summary"] /\
    schemas_of doc_with_entities = Ok schemas /\
    forall e, In e (st_entities st) ->
      exists schema,
        In (entity_schema_name e, schema) schemas /\
        is_entity_schema schema = true /\
        (is_model_schema schema = true ->
         exists m, In m (st_models st) /\
                   model_name m = entity_schema_name e /\
                   (has "allOf" schema = false ->
                    model_properties m = entity_properties e)).
Proof.
  destruct (parse str_of_string doc_with_entities) as [st|] eqn:Hst;
    [|vm_compute in Hst; discriminate Hst].
  destruct (entity_is_view_of_model str_of_string doc_with_entities st Hst)
    as (schemas & Hs & Hall).
  exists st, schemas. vm_compute in Hst. inversion Hst; subst st.
  split; [reflexivity|]. split; [reflexivity|]. split; [reflexivity|].
  split; [exact Hs | exact Hall].
Defined.
